(** * CustomVideoPlayer: a shallow embedding of the playback controller

    The repository holds two implementations of the player.  The component
    of [src/components/CustomVideoPlayer.tsx], its default export, is
    embedded in full; the engine effect of the other one, the named export
    [CustomVideoPlayer], is embedded in [Module Named] at the end.

    The component [src/components/CustomVideoPlayer.tsx] is a React function
    component.  It is embedded here as a reducer over a [World]: the
    component's [useState] cells, its refs, the [<video>] element object, the
    streaming-engine instance, the timer table of the page, and a log of the
    calls the component issues on its collaborators.  Every handler of the
    source is a [Cmd] (a world transformer); [step] dispatches one external
    event to the handlers that are registered for it and then flushes React's
    effects.

    JavaScript numbers are modelled as rationals ([Q]): the controller only
    compares, adds and clamps them.  NaN, infinities and rounding are outside
    the model. *)

From Stdlib Require Import Bool List String Ascii Arith Lia.
From Stdlib Require Import QArith.
Import ListNotations.

Local Open Scope string_scope.
Local Open Scope Q_scope.

(** ** JavaScript built-ins used by the component *)

Module Js.

(** [Math.min(a, b)] and [Math.max(a, b)] on finite numbers. *)
Definition Math_min (a b : Q) : Q := if Qle_bool a b then a else b.
Definition Math_max (a b : Q) : Q := if Qle_bool a b then b else a.

(** [s.endsWith(suffix)]. *)
Definition endsWith (s suffix : string) : bool :=
  let n := String.length s in
  let k := String.length suffix in
  (k <=? n)%nat && String.eqb (substring (n - k) k s) suffix.

(** Truthiness of an optional string ([undefined] and [''] are falsy). *)
Definition truthy (s : option string) : bool :=
  match s with
  | Some x => negb (String.eqb x "")
  | None => false
  end.

(** [Object.is] on numbers, as React uses it to compare dependencies. *)
Definition same_num (a b : Q) : bool := Qeq_bool a b.

Definition same_opt {A} (eqb : A -> A -> bool) (a b : option A) : bool :=
  match a, b with
  | Some x, Some y => eqb x y
  | None, None => true
  | _, _ => false
  end.

End Js.

(** ** Props of the component *)

Inductive StreamType := live | movie | episode.

Definition StreamType_eqb (a b : StreamType) : bool :=
  match a, b with
  | live, live | movie, movie | episode, episode => true
  | _, _ => false
  end.

Record EpisodeData := {
  seriesId : option string;
  seasonNumber : option nat;
  episodeNumber : option nat;
  totalEpisodes : option nat;
  nextEpisodeId : option string;
  prevEpisodeId : option string
}.

Definition EpisodeData_eqb (a b : EpisodeData) : bool :=
  Js.same_opt String.eqb (seriesId a) (seriesId b)
  && Js.same_opt Nat.eqb (seasonNumber a) (seasonNumber b)
  && Js.same_opt Nat.eqb (episodeNumber a) (episodeNumber b)
  && Js.same_opt Nat.eqb (totalEpisodes a) (totalEpisodes b)
  && Js.same_opt String.eqb (nextEpisodeId a) (nextEpisodeId b)
  && Js.same_opt String.eqb (prevEpisodeId a) (prevEpisodeId b).

(** An object handed over as a prop is a reference.  [ref] stands for the
    identity of the object and [target] for its properties.  The component
    never mutates its props, so a reference determines the properties: two
    values with the same [ref] and different properties do not arise, and
    the comparison below counts them as two objects. *)
Record Obj (A : Type) := { ref : nat; target : A }.
Arguments ref {A} _.
Arguments target {A} _.

(** [Object.is] on two [episodeData] objects, as React applies it to the
    dependencies of an effect: the same object, not an equal one. *)
Definition same_object (a b : Obj EpisodeData) : bool :=
  Nat.eqb (ref a) (ref b) && EpisodeData_eqb (target a) (target b).

(** [streamInfo] is only rendered; it is kept as its title.  [onBack] is a
    callback of the hosting page: calling it is recorded in the log. *)
Record Props := {
  streamUrl : string;
  streamType : StreamType;
  streamInfo : option string;
  onBack : bool;
  episodeData : option (Obj EpisodeData)
}.

(** ** The [useState] cells *)

Record State := {
  isPlaying : bool;
  currentTime : Q;
  duration : Q;
  bufferedTime : Q;
  volume : Q;
  isMuted : bool;
  playbackRate : Q;
  isFullscreen : bool;
  showControls : bool;
  showSettings : bool;
  showInfo : bool;
  isBuffering : bool;
  error : option string;
  quality : string;
  showSubtitles : bool;
  isDragging : bool;
  autoPlayNext : bool
}.

(** The initial values passed to [useState]. *)
Definition initialState : State := {|
  isPlaying := false;
  currentTime := 0;
  duration := 0;
  bufferedTime := 0;
  volume := 8 # 10;
  isMuted := false;
  playbackRate := 1;
  isFullscreen := false;
  showControls := true;
  showSettings := false;
  showInfo := false;
  isBuffering := false;
  error := None;
  quality := "auto";
  showSubtitles := false;
  isDragging := false;
  autoPlayNext := true
|}.

(** ** Collaborators: the media element and the streaming engine *)

Inductive MediaEvent :=
| loadstart | loadedmetadata | canplay | play | pause | waiting | playing
| timeupdate | volumechange | error_ev | ended.

Definition MediaEvent_eqb (a b : MediaEvent) : bool :=
  match a, b with
  | loadstart, loadstart | loadedmetadata, loadedmetadata
  | canplay, canplay | play, play | pause, pause | waiting, waiting
  | playing, playing | timeupdate, timeupdate
  | volumechange, volumechange | error_ev, error_ev | ended, ended => true
  | _, _ => false
  end.

(** What the handlers registered by one run of the video-init effect close
    over: the dependencies of that run. *)
Record InitClosure := {
  c_streamUrl : string;
  c_isDragging : bool;          (* through [updateProgress] *)
  c_streamType : StreamType;
  c_episodeData : option (Obj EpisodeData);
  c_autoPlayNext : bool
}.

(** Whether two runs have the same dependencies, as React compares them
    with [Object.is]: the strings and booleans by value, the [episodeData]
    object by reference.  The same test identifies the handlers of a run in
    the listener table: a run is registered only after the cleanup of the
    one before, so no two registered runs are ever compared. *)
Definition InitClosure_eqb (a b : InitClosure) : bool :=
  String.eqb (c_streamUrl a) (c_streamUrl b)
  && Bool.eqb (c_isDragging a) (c_isDragging b)
  && StreamType_eqb (c_streamType a) (c_streamType b)
  && Js.same_opt same_object (c_episodeData a) (c_episodeData b)
  && Bool.eqb (c_autoPlayNext a) (c_autoPlayNext b).

(** The [<video>] element: the attributes the component reads or writes,
    and its listener table. *)
Record Video := {
  v_src : string;
  v_currentTime : Q;
  v_duration : Q;
  v_bufferedEnd : option Q;     (* end of the last buffered range, if any *)
  v_volume : Q;
  v_muted : bool;
  v_playbackRate : Q;
  v_errorMessage : option string;
  v_listeners : list (MediaEvent * InitClosure)
}.

Definition freshVideo : Video := {|
  v_src := "";
  v_currentTime := 0;
  v_duration := 0;
  v_bufferedEnd := None;
  v_volume := 1;
  v_muted := false;
  v_playbackRate := 1;
  v_errorMessage := None;
  v_listeners := []
|}.

(** Engine events and error data of hls.js, as far as the component looks
    at them. *)
Inductive HlsEvent := ERROR | MANIFEST_PARSED | MEDIA_ATTACHED.

Definition HlsEvent_eqb (a b : HlsEvent) : bool :=
  match a, b with
  | ERROR, ERROR | MANIFEST_PARSED, MANIFEST_PARSED
  | MEDIA_ATTACHED, MEDIA_ATTACHED => true
  | _, _ => false
  end.

Inductive ErrorTypes := NETWORK_ERROR | MEDIA_ERROR | OTHER_ERROR.

Record ErrorData := {
  fatal : bool;
  type : ErrorTypes;
  details : string
}.

(** The engine instance.  [hls_config] is the user configuration handed to
    the constructor: a list of option names and values. *)
Record Hls := {
  hls_config : list (string * string);
  hls_source : option string;
  hls_media : bool;
  hls_handlers : list HlsEvent
}.

(** ** The log of calls issued by the component *)

Inductive Call :=
| VideoPlay
| VideoPause
| VideoSetCurrentTime (t : Q)
| VideoSetSrc (s : string)
| VideoSetVolume (v : Q)
| VideoSetMuted (b : bool)
| VideoSetPlaybackRate (r : Q)
| VideoAddEventListener (e : MediaEvent)
| VideoRemoveEventListener (e : MediaEvent)
| HlsNew (config : list (string * string))
| HlsLoadSource (url : string)
| HlsAttachMedia
| HlsOn (e : HlsEvent)
| HlsStartLoad
| HlsRecoverMediaError
| HlsDestroy
| SetTimeout (id : nat) (ms : nat)
| ClearTimeout (id : nat)
| RequestFullscreen
| ExitFullscreen
| ConsoleLog (s : string)
| ConsoleWarn (s : string)
| ConsoleError (s : string)
| PropsOnBack.

(** ** Timers of the page *)

(** A pending [setTimeout]: when it was armed, its delay in milliseconds,
    and the [isPlaying] its callback closes over. *)
Record Timer := {
  t_id : nat;
  t_armedAt : nat;
  t_delay : nat;
  t_isPlaying : bool
}.

Definition t_deadline (t : Timer) : nat := t_armedAt t + t_delay t.

(** What the document-level [keydown] handler closes over: the render in
    which the keyboard effect last ran.  [seek] and [togglePlayPause] are the
    callbacks of that render, so their [duration] and [isPlaying] are part of
    the closure although they are not dependencies of the effect. *)
Record KeyClosure := {
  k_currentTime : Q;
  k_volume : Q;
  k_isFullscreen : bool;
  k_isPlaying : bool;
  k_duration : Q
}.

(** ** The world *)

Record World := {
  hlsSupported : bool;            (* Hls.isSupported() *)
  nativeHls : bool;               (* video.canPlayType('application/vnd.apple.mpegurl') *)
  mounted : bool;
  props : Props;
  st : State;
  rendered : option (Props * State);  (* props and state of the last commit *)
  video : Video;
  videoRef : bool;                (* videoRef.current and playerContainerRef.current are set *)
  hlsRef : option Hls;
  controlsTimeoutRef : option nat;
  timers : list Timer;
  nextTimerId : nat;
  now : nat;                      (* milliseconds *)
  fullscreenElement : bool;       (* !!document.fullscreenElement *)
  initCleanup : option InitClosure;     (* cleanup returned by the video-init effect *)
  containerListeners : option bool;     (* mousemove/enter/leave handlers and their isPlaying *)
  keydownListener : option KeyClosure;
  fullscreenListener : bool;
  log : list Call
}.

Definition Cmd := World -> World.

Definition seq (a b : Cmd) : Cmd := fun w => b (a w).
Notation "a ;; b" := (seq a b) (at level 61, right associativity).
Definition skip : Cmd := fun w => w.
Definition when (b : bool) (c : Cmd) : Cmd := if b then c else skip.

(** *** Field updates *)

Definition with_st (f : State -> State) : Cmd := fun w =>
  {| hlsSupported := hlsSupported w; nativeHls := nativeHls w;
     mounted := mounted w; props := props w; st := f (st w);
     rendered := rendered w; video := video w; videoRef := videoRef w;
     hlsRef := hlsRef w; controlsTimeoutRef := controlsTimeoutRef w;
     timers := timers w; nextTimerId := nextTimerId w; now := now w;
     fullscreenElement := fullscreenElement w;
     initCleanup := initCleanup w; containerListeners := containerListeners w;
     keydownListener := keydownListener w;
     fullscreenListener := fullscreenListener w; log := log w |}.

Definition with_video (f : Video -> Video) : Cmd := fun w =>
  {| hlsSupported := hlsSupported w; nativeHls := nativeHls w;
     mounted := mounted w; props := props w; st := st w;
     rendered := rendered w; video := f (video w); videoRef := videoRef w;
     hlsRef := hlsRef w; controlsTimeoutRef := controlsTimeoutRef w;
     timers := timers w; nextTimerId := nextTimerId w; now := now w;
     fullscreenElement := fullscreenElement w;
     initCleanup := initCleanup w; containerListeners := containerListeners w;
     keydownListener := keydownListener w;
     fullscreenListener := fullscreenListener w; log := log w |}.

Definition call (c : Call) : Cmd := fun w =>
  {| hlsSupported := hlsSupported w; nativeHls := nativeHls w;
     mounted := mounted w; props := props w; st := st w;
     rendered := rendered w; video := video w; videoRef := videoRef w;
     hlsRef := hlsRef w; controlsTimeoutRef := controlsTimeoutRef w;
     timers := timers w; nextTimerId := nextTimerId w; now := now w;
     fullscreenElement := fullscreenElement w;
     initCleanup := initCleanup w; containerListeners := containerListeners w;
     keydownListener := keydownListener w;
     fullscreenListener := fullscreenListener w; log := log w ++ [c] |}.

Definition set_mounted (b : bool) : Cmd := fun w =>
  {| hlsSupported := hlsSupported w; nativeHls := nativeHls w;
     mounted := b; props := props w; st := st w;
     rendered := rendered w; video := video w; videoRef := videoRef w;
     hlsRef := hlsRef w; controlsTimeoutRef := controlsTimeoutRef w;
     timers := timers w; nextTimerId := nextTimerId w; now := now w;
     fullscreenElement := fullscreenElement w;
     initCleanup := initCleanup w; containerListeners := containerListeners w;
     keydownListener := keydownListener w;
     fullscreenListener := fullscreenListener w; log := log w |}.

Definition set_props (p : Props) : Cmd := fun w =>
  {| hlsSupported := hlsSupported w; nativeHls := nativeHls w;
     mounted := mounted w; props := p; st := st w;
     rendered := rendered w; video := video w; videoRef := videoRef w;
     hlsRef := hlsRef w; controlsTimeoutRef := controlsTimeoutRef w;
     timers := timers w; nextTimerId := nextTimerId w; now := now w;
     fullscreenElement := fullscreenElement w;
     initCleanup := initCleanup w; containerListeners := containerListeners w;
     keydownListener := keydownListener w;
     fullscreenListener := fullscreenListener w; log := log w |}.

Definition set_rendered (r : option (Props * State)) : Cmd := fun w =>
  {| hlsSupported := hlsSupported w; nativeHls := nativeHls w;
     mounted := mounted w; props := props w; st := st w;
     rendered := r; video := video w; videoRef := videoRef w;
     hlsRef := hlsRef w; controlsTimeoutRef := controlsTimeoutRef w;
     timers := timers w; nextTimerId := nextTimerId w; now := now w;
     fullscreenElement := fullscreenElement w;
     initCleanup := initCleanup w; containerListeners := containerListeners w;
     keydownListener := keydownListener w;
     fullscreenListener := fullscreenListener w; log := log w |}.

Definition set_videoRef (b : bool) : Cmd := fun w =>
  {| hlsSupported := hlsSupported w; nativeHls := nativeHls w;
     mounted := mounted w; props := props w; st := st w;
     rendered := rendered w; video := video w; videoRef := b;
     hlsRef := hlsRef w; controlsTimeoutRef := controlsTimeoutRef w;
     timers := timers w; nextTimerId := nextTimerId w; now := now w;
     fullscreenElement := fullscreenElement w;
     initCleanup := initCleanup w; containerListeners := containerListeners w;
     keydownListener := keydownListener w;
     fullscreenListener := fullscreenListener w; log := log w |}.

Definition set_hlsRef (h : option Hls) : Cmd := fun w =>
  {| hlsSupported := hlsSupported w; nativeHls := nativeHls w;
     mounted := mounted w; props := props w; st := st w;
     rendered := rendered w; video := video w; videoRef := videoRef w;
     hlsRef := h; controlsTimeoutRef := controlsTimeoutRef w;
     timers := timers w; nextTimerId := nextTimerId w; now := now w;
     fullscreenElement := fullscreenElement w;
     initCleanup := initCleanup w; containerListeners := containerListeners w;
     keydownListener := keydownListener w;
     fullscreenListener := fullscreenListener w; log := log w |}.

Definition set_controlsTimeoutRef (r : option nat) : Cmd := fun w =>
  {| hlsSupported := hlsSupported w; nativeHls := nativeHls w;
     mounted := mounted w; props := props w; st := st w;
     rendered := rendered w; video := video w; videoRef := videoRef w;
     hlsRef := hlsRef w; controlsTimeoutRef := r;
     timers := timers w; nextTimerId := nextTimerId w; now := now w;
     fullscreenElement := fullscreenElement w;
     initCleanup := initCleanup w; containerListeners := containerListeners w;
     keydownListener := keydownListener w;
     fullscreenListener := fullscreenListener w; log := log w |}.

Definition set_timers (ts : list Timer) (next : nat) : Cmd := fun w =>
  {| hlsSupported := hlsSupported w; nativeHls := nativeHls w;
     mounted := mounted w; props := props w; st := st w;
     rendered := rendered w; video := video w; videoRef := videoRef w;
     hlsRef := hlsRef w; controlsTimeoutRef := controlsTimeoutRef w;
     timers := ts; nextTimerId := next; now := now w;
     fullscreenElement := fullscreenElement w;
     initCleanup := initCleanup w; containerListeners := containerListeners w;
     keydownListener := keydownListener w;
     fullscreenListener := fullscreenListener w; log := log w |}.

Definition set_now (n : nat) : Cmd := fun w =>
  {| hlsSupported := hlsSupported w; nativeHls := nativeHls w;
     mounted := mounted w; props := props w; st := st w;
     rendered := rendered w; video := video w; videoRef := videoRef w;
     hlsRef := hlsRef w; controlsTimeoutRef := controlsTimeoutRef w;
     timers := timers w; nextTimerId := nextTimerId w; now := n;
     fullscreenElement := fullscreenElement w;
     initCleanup := initCleanup w; containerListeners := containerListeners w;
     keydownListener := keydownListener w;
     fullscreenListener := fullscreenListener w; log := log w |}.

Definition set_fullscreenElement (b : bool) : Cmd := fun w =>
  {| hlsSupported := hlsSupported w; nativeHls := nativeHls w;
     mounted := mounted w; props := props w; st := st w;
     rendered := rendered w; video := video w; videoRef := videoRef w;
     hlsRef := hlsRef w; controlsTimeoutRef := controlsTimeoutRef w;
     timers := timers w; nextTimerId := nextTimerId w; now := now w;
     fullscreenElement := b;
     initCleanup := initCleanup w; containerListeners := containerListeners w;
     keydownListener := keydownListener w;
     fullscreenListener := fullscreenListener w; log := log w |}.

Definition set_initCleanup (c : option InitClosure) : Cmd := fun w =>
  {| hlsSupported := hlsSupported w; nativeHls := nativeHls w;
     mounted := mounted w; props := props w; st := st w;
     rendered := rendered w; video := video w; videoRef := videoRef w;
     hlsRef := hlsRef w; controlsTimeoutRef := controlsTimeoutRef w;
     timers := timers w; nextTimerId := nextTimerId w; now := now w;
     fullscreenElement := fullscreenElement w;
     initCleanup := c; containerListeners := containerListeners w;
     keydownListener := keydownListener w;
     fullscreenListener := fullscreenListener w; log := log w |}.

Definition set_containerListeners (c : option bool) : Cmd := fun w =>
  {| hlsSupported := hlsSupported w; nativeHls := nativeHls w;
     mounted := mounted w; props := props w; st := st w;
     rendered := rendered w; video := video w; videoRef := videoRef w;
     hlsRef := hlsRef w; controlsTimeoutRef := controlsTimeoutRef w;
     timers := timers w; nextTimerId := nextTimerId w; now := now w;
     fullscreenElement := fullscreenElement w;
     initCleanup := initCleanup w; containerListeners := c;
     keydownListener := keydownListener w;
     fullscreenListener := fullscreenListener w; log := log w |}.

Definition set_keydownListener (k : option KeyClosure) : Cmd := fun w =>
  {| hlsSupported := hlsSupported w; nativeHls := nativeHls w;
     mounted := mounted w; props := props w; st := st w;
     rendered := rendered w; video := video w; videoRef := videoRef w;
     hlsRef := hlsRef w; controlsTimeoutRef := controlsTimeoutRef w;
     timers := timers w; nextTimerId := nextTimerId w; now := now w;
     fullscreenElement := fullscreenElement w;
     initCleanup := initCleanup w; containerListeners := containerListeners w;
     keydownListener := k;
     fullscreenListener := fullscreenListener w; log := log w |}.

Definition set_fullscreenListener (b : bool) : Cmd := fun w =>
  {| hlsSupported := hlsSupported w; nativeHls := nativeHls w;
     mounted := mounted w; props := props w; st := st w;
     rendered := rendered w; video := video w; videoRef := videoRef w;
     hlsRef := hlsRef w; controlsTimeoutRef := controlsTimeoutRef w;
     timers := timers w; nextTimerId := nextTimerId w; now := now w;
     fullscreenElement := fullscreenElement w;
     initCleanup := initCleanup w; containerListeners := containerListeners w;
     keydownListener := keydownListener w;
     fullscreenListener := b; log := log w |}.

(** *** The state setters returned by [useState] *)

Definition setIsPlaying (x : bool) : Cmd :=
  with_st (fun s =>
    {| isPlaying := x; currentTime := currentTime s;
       duration := duration s; bufferedTime := bufferedTime s;
       volume := volume s; isMuted := isMuted s;
       playbackRate := playbackRate s; isFullscreen := isFullscreen s;
       showControls := showControls s; showSettings := showSettings s;
       showInfo := showInfo s; isBuffering := isBuffering s;
       error := error s; quality := quality s;
       showSubtitles := showSubtitles s; isDragging := isDragging s;
       autoPlayNext := autoPlayNext s |}).

Definition setCurrentTime (x : Q) : Cmd :=
  with_st (fun s =>
    {| isPlaying := isPlaying s; currentTime := x; duration := duration s;
       bufferedTime := bufferedTime s; volume := volume s;
       isMuted := isMuted s; playbackRate := playbackRate s;
       isFullscreen := isFullscreen s; showControls := showControls s;
       showSettings := showSettings s; showInfo := showInfo s;
       isBuffering := isBuffering s; error := error s;
       quality := quality s; showSubtitles := showSubtitles s;
       isDragging := isDragging s; autoPlayNext := autoPlayNext s |}).

Definition setDuration (x : Q) : Cmd :=
  with_st (fun s =>
    {| isPlaying := isPlaying s; currentTime := currentTime s;
       duration := x; bufferedTime := bufferedTime s; volume := volume s;
       isMuted := isMuted s; playbackRate := playbackRate s;
       isFullscreen := isFullscreen s; showControls := showControls s;
       showSettings := showSettings s; showInfo := showInfo s;
       isBuffering := isBuffering s; error := error s;
       quality := quality s; showSubtitles := showSubtitles s;
       isDragging := isDragging s; autoPlayNext := autoPlayNext s |}).

Definition setBufferedTime (x : Q) : Cmd :=
  with_st (fun s =>
    {| isPlaying := isPlaying s; currentTime := currentTime s;
       duration := duration s; bufferedTime := x; volume := volume s;
       isMuted := isMuted s; playbackRate := playbackRate s;
       isFullscreen := isFullscreen s; showControls := showControls s;
       showSettings := showSettings s; showInfo := showInfo s;
       isBuffering := isBuffering s; error := error s;
       quality := quality s; showSubtitles := showSubtitles s;
       isDragging := isDragging s; autoPlayNext := autoPlayNext s |}).

Definition setVolume (x : Q) : Cmd :=
  with_st (fun s =>
    {| isPlaying := isPlaying s; currentTime := currentTime s;
       duration := duration s; bufferedTime := bufferedTime s; volume := x;
       isMuted := isMuted s; playbackRate := playbackRate s;
       isFullscreen := isFullscreen s; showControls := showControls s;
       showSettings := showSettings s; showInfo := showInfo s;
       isBuffering := isBuffering s; error := error s;
       quality := quality s; showSubtitles := showSubtitles s;
       isDragging := isDragging s; autoPlayNext := autoPlayNext s |}).

Definition setIsMuted (x : bool) : Cmd :=
  with_st (fun s =>
    {| isPlaying := isPlaying s; currentTime := currentTime s;
       duration := duration s; bufferedTime := bufferedTime s;
       volume := volume s; isMuted := x; playbackRate := playbackRate s;
       isFullscreen := isFullscreen s; showControls := showControls s;
       showSettings := showSettings s; showInfo := showInfo s;
       isBuffering := isBuffering s; error := error s;
       quality := quality s; showSubtitles := showSubtitles s;
       isDragging := isDragging s; autoPlayNext := autoPlayNext s |}).

Definition setPlaybackRate (x : Q) : Cmd :=
  with_st (fun s =>
    {| isPlaying := isPlaying s; currentTime := currentTime s;
       duration := duration s; bufferedTime := bufferedTime s;
       volume := volume s; isMuted := isMuted s; playbackRate := x;
       isFullscreen := isFullscreen s; showControls := showControls s;
       showSettings := showSettings s; showInfo := showInfo s;
       isBuffering := isBuffering s; error := error s;
       quality := quality s; showSubtitles := showSubtitles s;
       isDragging := isDragging s; autoPlayNext := autoPlayNext s |}).

Definition setIsFullscreen (x : bool) : Cmd :=
  with_st (fun s =>
    {| isPlaying := isPlaying s; currentTime := currentTime s;
       duration := duration s; bufferedTime := bufferedTime s;
       volume := volume s; isMuted := isMuted s;
       playbackRate := playbackRate s; isFullscreen := x;
       showControls := showControls s; showSettings := showSettings s;
       showInfo := showInfo s; isBuffering := isBuffering s;
       error := error s; quality := quality s;
       showSubtitles := showSubtitles s; isDragging := isDragging s;
       autoPlayNext := autoPlayNext s |}).

Definition setShowControls (x : bool) : Cmd :=
  with_st (fun s =>
    {| isPlaying := isPlaying s; currentTime := currentTime s;
       duration := duration s; bufferedTime := bufferedTime s;
       volume := volume s; isMuted := isMuted s;
       playbackRate := playbackRate s; isFullscreen := isFullscreen s;
       showControls := x; showSettings := showSettings s;
       showInfo := showInfo s; isBuffering := isBuffering s;
       error := error s; quality := quality s;
       showSubtitles := showSubtitles s; isDragging := isDragging s;
       autoPlayNext := autoPlayNext s |}).

Definition setShowSettings (x : bool) : Cmd :=
  with_st (fun s =>
    {| isPlaying := isPlaying s; currentTime := currentTime s;
       duration := duration s; bufferedTime := bufferedTime s;
       volume := volume s; isMuted := isMuted s;
       playbackRate := playbackRate s; isFullscreen := isFullscreen s;
       showControls := showControls s; showSettings := x;
       showInfo := showInfo s; isBuffering := isBuffering s;
       error := error s; quality := quality s;
       showSubtitles := showSubtitles s; isDragging := isDragging s;
       autoPlayNext := autoPlayNext s |}).

Definition setShowInfo (x : bool) : Cmd :=
  with_st (fun s =>
    {| isPlaying := isPlaying s; currentTime := currentTime s;
       duration := duration s; bufferedTime := bufferedTime s;
       volume := volume s; isMuted := isMuted s;
       playbackRate := playbackRate s; isFullscreen := isFullscreen s;
       showControls := showControls s; showSettings := showSettings s;
       showInfo := x; isBuffering := isBuffering s; error := error s;
       quality := quality s; showSubtitles := showSubtitles s;
       isDragging := isDragging s; autoPlayNext := autoPlayNext s |}).

Definition setIsBuffering (x : bool) : Cmd :=
  with_st (fun s =>
    {| isPlaying := isPlaying s; currentTime := currentTime s;
       duration := duration s; bufferedTime := bufferedTime s;
       volume := volume s; isMuted := isMuted s;
       playbackRate := playbackRate s; isFullscreen := isFullscreen s;
       showControls := showControls s; showSettings := showSettings s;
       showInfo := showInfo s; isBuffering := x; error := error s;
       quality := quality s; showSubtitles := showSubtitles s;
       isDragging := isDragging s; autoPlayNext := autoPlayNext s |}).

Definition setError (x : option string) : Cmd :=
  with_st (fun s =>
    {| isPlaying := isPlaying s; currentTime := currentTime s;
       duration := duration s; bufferedTime := bufferedTime s;
       volume := volume s; isMuted := isMuted s;
       playbackRate := playbackRate s; isFullscreen := isFullscreen s;
       showControls := showControls s; showSettings := showSettings s;
       showInfo := showInfo s; isBuffering := isBuffering s; error := x;
       quality := quality s; showSubtitles := showSubtitles s;
       isDragging := isDragging s; autoPlayNext := autoPlayNext s |}).

Definition setQuality (x : string) : Cmd :=
  with_st (fun s =>
    {| isPlaying := isPlaying s; currentTime := currentTime s;
       duration := duration s; bufferedTime := bufferedTime s;
       volume := volume s; isMuted := isMuted s;
       playbackRate := playbackRate s; isFullscreen := isFullscreen s;
       showControls := showControls s; showSettings := showSettings s;
       showInfo := showInfo s; isBuffering := isBuffering s;
       error := error s; quality := x; showSubtitles := showSubtitles s;
       isDragging := isDragging s; autoPlayNext := autoPlayNext s |}).

Definition setShowSubtitles (x : bool) : Cmd :=
  with_st (fun s =>
    {| isPlaying := isPlaying s; currentTime := currentTime s;
       duration := duration s; bufferedTime := bufferedTime s;
       volume := volume s; isMuted := isMuted s;
       playbackRate := playbackRate s; isFullscreen := isFullscreen s;
       showControls := showControls s; showSettings := showSettings s;
       showInfo := showInfo s; isBuffering := isBuffering s;
       error := error s; quality := quality s; showSubtitles := x;
       isDragging := isDragging s; autoPlayNext := autoPlayNext s |}).

Definition setIsDragging (x : bool) : Cmd :=
  with_st (fun s =>
    {| isPlaying := isPlaying s; currentTime := currentTime s;
       duration := duration s; bufferedTime := bufferedTime s;
       volume := volume s; isMuted := isMuted s;
       playbackRate := playbackRate s; isFullscreen := isFullscreen s;
       showControls := showControls s; showSettings := showSettings s;
       showInfo := showInfo s; isBuffering := isBuffering s;
       error := error s; quality := quality s;
       showSubtitles := showSubtitles s; isDragging := x;
       autoPlayNext := autoPlayNext s |}).

Definition setAutoPlayNext (x : bool) : Cmd :=
  with_st (fun s =>
    {| isPlaying := isPlaying s; currentTime := currentTime s;
       duration := duration s; bufferedTime := bufferedTime s;
       volume := volume s; isMuted := isMuted s;
       playbackRate := playbackRate s; isFullscreen := isFullscreen s;
       showControls := showControls s; showSettings := showSettings s;
       showInfo := showInfo s; isBuffering := isBuffering s;
       error := error s; quality := quality s;
       showSubtitles := showSubtitles s; isDragging := isDragging s;
       autoPlayNext := x |}).

(** *** Attribute writes on the element object *)

Definition put_v_src (x : string) : Cmd :=
  with_video (fun v =>
    {| v_src := x; v_currentTime := v_currentTime v;
       v_duration := v_duration v; v_bufferedEnd := v_bufferedEnd v;
       v_volume := v_volume v; v_muted := v_muted v;
       v_playbackRate := v_playbackRate v;
       v_errorMessage := v_errorMessage v; v_listeners := v_listeners v |}).

Definition put_v_currentTime (x : Q) : Cmd :=
  with_video (fun v =>
    {| v_src := v_src v; v_currentTime := x; v_duration := v_duration v;
       v_bufferedEnd := v_bufferedEnd v; v_volume := v_volume v;
       v_muted := v_muted v; v_playbackRate := v_playbackRate v;
       v_errorMessage := v_errorMessage v; v_listeners := v_listeners v |}).

Definition put_v_duration (x : Q) : Cmd :=
  with_video (fun v =>
    {| v_src := v_src v; v_currentTime := v_currentTime v; v_duration := x;
       v_bufferedEnd := v_bufferedEnd v; v_volume := v_volume v;
       v_muted := v_muted v; v_playbackRate := v_playbackRate v;
       v_errorMessage := v_errorMessage v; v_listeners := v_listeners v |}).

Definition put_v_bufferedEnd (x : option Q) : Cmd :=
  with_video (fun v =>
    {| v_src := v_src v; v_currentTime := v_currentTime v;
       v_duration := v_duration v; v_bufferedEnd := x;
       v_volume := v_volume v; v_muted := v_muted v;
       v_playbackRate := v_playbackRate v;
       v_errorMessage := v_errorMessage v; v_listeners := v_listeners v |}).

Definition put_v_volume (x : Q) : Cmd :=
  with_video (fun v =>
    {| v_src := v_src v; v_currentTime := v_currentTime v;
       v_duration := v_duration v; v_bufferedEnd := v_bufferedEnd v;
       v_volume := x; v_muted := v_muted v;
       v_playbackRate := v_playbackRate v;
       v_errorMessage := v_errorMessage v; v_listeners := v_listeners v |}).

Definition put_v_muted (x : bool) : Cmd :=
  with_video (fun v =>
    {| v_src := v_src v; v_currentTime := v_currentTime v;
       v_duration := v_duration v; v_bufferedEnd := v_bufferedEnd v;
       v_volume := v_volume v; v_muted := x;
       v_playbackRate := v_playbackRate v;
       v_errorMessage := v_errorMessage v; v_listeners := v_listeners v |}).

Definition put_v_playbackRate (x : Q) : Cmd :=
  with_video (fun v =>
    {| v_src := v_src v; v_currentTime := v_currentTime v;
       v_duration := v_duration v; v_bufferedEnd := v_bufferedEnd v;
       v_volume := v_volume v; v_muted := v_muted v; v_playbackRate := x;
       v_errorMessage := v_errorMessage v; v_listeners := v_listeners v |}).

Definition put_v_errorMessage (x : option string) : Cmd :=
  with_video (fun v =>
    {| v_src := v_src v; v_currentTime := v_currentTime v;
       v_duration := v_duration v; v_bufferedEnd := v_bufferedEnd v;
       v_volume := v_volume v; v_muted := v_muted v;
       v_playbackRate := v_playbackRate v; v_errorMessage := x;
       v_listeners := v_listeners v |}).

(** ** Calls on the collaborators

    Each call is recorded in the log; the ones that change an attribute the
    component later reads also update the object. *)

Module Dom.

(** [video.play().catch(console.error)] and [video.pause()].  Whether the
    platform honours the request shows up later as a [play] or [pause]
    media event. *)
Definition video_play : Cmd := call VideoPlay.
Definition video_pause : Cmd := call VideoPause.

Definition video_set_currentTime (t : Q) : Cmd :=
  put_v_currentTime t ;; call (VideoSetCurrentTime t).
(** The media-element load algorithm, which the platform runs on every
    assignment of [src]: the element's error is dropped, the position, the
    duration and the buffered ranges start over as on a fresh element, and
    [playbackRate] is set to [defaultPlaybackRate], which the component
    never writes.  Volume, mute and the listeners stay. *)
Definition load : Cmd :=
  with_video (fun v =>
    {| v_src := v_src v; v_currentTime := v_currentTime freshVideo;
       v_duration := v_duration freshVideo;
       v_bufferedEnd := v_bufferedEnd freshVideo;
       v_volume := v_volume v; v_muted := v_muted v;
       v_playbackRate := v_playbackRate freshVideo;
       v_errorMessage := v_errorMessage freshVideo;
       v_listeners := v_listeners v |}).

Definition video_set_src (s : string) : Cmd :=
  put_v_src s ;; load ;; call (VideoSetSrc s).
Definition video_set_volume (x : Q) : Cmd :=
  put_v_volume x ;; call (VideoSetVolume x).
Definition video_set_muted (b : bool) : Cmd :=
  put_v_muted b ;; call (VideoSetMuted b).
Definition video_set_playbackRate (r : Q) : Cmd :=
  put_v_playbackRate r ;; call (VideoSetPlaybackRate r).

Definition same_listener (e : MediaEvent) (c : InitClosure)
    (l : MediaEvent * InitClosure) : bool :=
  MediaEvent_eqb e (fst l) && InitClosure_eqb c (snd l).

Definition map_listeners
    (f : list (MediaEvent * InitClosure) -> list (MediaEvent * InitClosure)) : Cmd :=
  with_video (fun v =>
    {| v_src := v_src v; v_currentTime := v_currentTime v;
       v_duration := v_duration v; v_bufferedEnd := v_bufferedEnd v;
       v_volume := v_volume v; v_muted := v_muted v;
       v_playbackRate := v_playbackRate v;
       v_errorMessage := v_errorMessage v;
       v_listeners := f (v_listeners v) |}).

Definition addEventListener (c : InitClosure) (e : MediaEvent) : Cmd :=
  map_listeners (fun l => (l ++ [(e, c)])%list) ;;
  call (VideoAddEventListener e).

Definition removeEventListener (c : InitClosure) (e : MediaEvent) : Cmd :=
  map_listeners (filter (fun l => negb (same_listener e c l))) ;;
  call (VideoRemoveEventListener e).

(** [setTimeout(callback, ms)]; the identifier is stored by [k]. *)
Definition setTimeout (isPlaying : bool) (ms : nat) (k : nat -> Cmd) : Cmd :=
  fun w =>
    let id := nextTimerId w in
    (set_timers
       (timers w ++ [{| t_id := id; t_armedAt := now w; t_delay := ms;
                        t_isPlaying := isPlaying |}]) (S id) ;;
     call (SetTimeout id ms) ;;
     k id) w.

Definition clearTimeout (id : nat) : Cmd := fun w =>
  (set_timers (filter (fun t => negb (t_id t =? id)%nat) (timers w))
     (nextTimerId w) ;;
   call (ClearTimeout id)) w.

End Dom.

Module Engine.

(** [new Hls(config)]: a fresh instance. *)
Definition create (config : list (string * string)) : Hls :=
  {| hls_config := config; hls_source := None; hls_media := false;
     hls_handlers := [] |}.

Definition with_hls (f : Hls -> Hls) : Cmd := fun w =>
  set_hlsRef (option_map f (hlsRef w)) w.

Definition loadSource (url : string) : Cmd :=
  with_hls (fun h =>
    {| hls_config := hls_config h; hls_source := Some url;
       hls_media := hls_media h; hls_handlers := hls_handlers h |}) ;;
  call (HlsLoadSource url).

(** [hls.attachMedia(video)] binds the element by assigning it an object
    URL, which starts the element's load algorithm like any other source. *)
Definition attachMedia : Cmd :=
  with_hls (fun h =>
    {| hls_config := hls_config h; hls_source := hls_source h;
       hls_media := true; hls_handlers := hls_handlers h |}) ;;
  put_v_src "blob:" ;;
  Dom.load ;;
  call HlsAttachMedia.

Definition on (e : HlsEvent) : Cmd :=
  with_hls (fun h =>
    {| hls_config := hls_config h; hls_source := hls_source h;
       hls_media := hls_media h; hls_handlers := hls_handlers h ++ [e] |}) ;;
  call (HlsOn e).

End Engine.

(** ** The component *)

(** [updateProgress], closing over [isDragging]. *)
Definition updateProgress (isDragging : bool) : Cmd := fun w =>
  if videoRef w && negb isDragging then
    (setCurrentTime (v_currentTime (video w)) ;;
     (* Update buffered time *)
     match v_bufferedEnd (video w) with
     | Some buffered => setBufferedTime buffered
     | None => skip
     end) w
  else w.

(** The three small effects that mirror [volume], [isMuted] and
    [playbackRate] into the element. *)
Definition volume_effect (s : State) : Cmd := fun w =>
  if videoRef w then Dom.video_set_volume (volume s) w else w.

Definition muted_effect (s : State) : Cmd := fun w =>
  if videoRef w then Dom.video_set_muted (isMuted s) w else w.

Definition playbackRate_effect (s : State) : Cmd := fun w =>
  if videoRef w then Dom.video_set_playbackRate (playbackRate s) w else w.

(** *** The video-init effect *)

(** The callback registered with [hls.on(Hls.Events.ERROR, ...)]. *)
Definition onHlsError (data : ErrorData) : Cmd :=
  if fatal data then
    setError (Some ("Playback error: " ++ details data)) ;;
    call (ConsoleError ("HLS.js fatal error: " ++ details data))
  else
    call (ConsoleWarn ("HLS.js non-fatal error: " ++ details data)).

Definition handleLoadStart : Cmd := setIsBuffering true.
Definition handleLoadedMetadata : Cmd := fun w =>
  (setDuration (v_duration (video w)) ;; setIsBuffering false) w.
Definition handleCanPlay : Cmd := setIsBuffering false.
Definition handlePlay : Cmd := setIsPlaying true.
Definition handlePause : Cmd := setIsPlaying false.
Definition handleWaiting : Cmd := setIsBuffering true.
Definition handlePlaying : Cmd := setIsBuffering false.
Definition handleTimeUpdate (c : InitClosure) : Cmd :=
  updateProgress (c_isDragging c).
Definition handleVolumeChange : Cmd := fun w =>
  (setVolume (v_volume (video w)) ;; setIsMuted (v_muted (video w))) w.

Definition handleError : Cmd := fun w =>
  ((* Avoid showing generic error if HLS.js is handling it *)
   match hlsRef w with
   | None =>
       setError (Some ("Video error: " ++
                       match v_errorMessage (video w) with
                       | Some m => if String.eqb m "" then "Unknown error" else m
                       | None => "Unknown error"
                       end))
   | Some _ => skip
   end ;;
   setIsBuffering false) w.

Definition nextEpisodeId_of (d : option (Obj EpisodeData)) : option string :=
  match d with
  | Some e => nextEpisodeId (target e)
  | None => None
  end.

Definition handleEnded (c : InitClosure) : Cmd :=
  setIsPlaying false ;;
  when (StreamType_eqb (c_streamType c) episode
        && Js.truthy (nextEpisodeId_of (c_episodeData c))
        && c_autoPlayNext c)
    ((* Auto-play next episode logic would be implemented here *)
     call (ConsoleLog "Auto-playing next episode...")).

(** The handler the effect registers for each media event. *)
Definition mediaHandler (e : MediaEvent) (c : InitClosure) : Cmd :=
  match e with
  | loadstart => handleLoadStart
  | loadedmetadata => handleLoadedMetadata
  | canplay => handleCanPlay
  | play => handlePlay
  | pause => handlePause
  | waiting => handleWaiting
  | playing => handlePlaying
  | timeupdate => handleTimeUpdate c
  | volumechange => handleVolumeChange
  | error_ev => handleError
  | ended => handleEnded c
  end.

(** The events of the [addEventListener] block, in source order. *)
Definition mediaEvents : list MediaEvent :=
  [loadstart; loadedmetadata; canplay; play; pause; waiting; playing;
   timeupdate; volumechange; error_ev; ended].

Fixpoint each {A} (f : A -> Cmd) (l : list A) : Cmd :=
  match l with
  | [] => skip
  | x :: r => f x ;; each f r
  end.

Definition closureOf (p : Props) (s : State) : InitClosure :=
  {| c_streamUrl := streamUrl p;
     c_isDragging := isDragging s;
     c_streamType := streamType p;
     c_episodeData := episodeData p;
     c_autoPlayNext := autoPlayNext s |}.

(** The body of the effect, for the render with props [p] and state [s]. *)
Definition videoInit (p : Props) (s : State) : Cmd := fun w =>
  if negb (videoRef w) || String.eqb (streamUrl p) "" then
    set_initCleanup None w
  else
    let c := closureOf p s in
    ((* Reset states *)
     setError None ;;
     setIsBuffering true ;;
     (* Set initial volume *)
     Dom.video_set_volume (volume s) ;;
     Dom.video_set_muted (isMuted s) ;;
     Dom.video_set_playbackRate (playbackRate s) ;;
     (* Load video source *)
     (if Js.endsWith (streamUrl p) ".m3u8" then
        if hlsSupported w then
          call (HlsNew []) ;;
          set_hlsRef (Some (Engine.create [])) ;;
          Engine.loadSource (streamUrl p) ;;
          Engine.attachMedia ;;
          Engine.on ERROR
        else if nativeHls w then
          (* Native HLS support (e.g., Safari) *)
          Dom.video_set_src (streamUrl p)
        else
          setError (Some "HLS playback is not supported in this browser.") ;;
          setIsBuffering false
      else
        Dom.video_set_src (streamUrl p)) ;;
     (* Add event listeners *)
     each (Dom.addEventListener c) mediaEvents ;;
     set_initCleanup (Some c)) w.

(** The cleanup the effect returns. *)
Definition hls_teardown : Cmd := fun w =>
  match hlsRef w with
  | Some _ => (call HlsDestroy ;; set_hlsRef None) w
  | None => w
  end.

Definition videoInit_cleanup (c : InitClosure) : Cmd :=
  hls_teardown ;;
  each (Dom.removeEventListener c) mediaEvents ;;
  Dom.video_set_src "".

(** *** The controls-visibility effect *)

(** The callback handed to [setTimeout]. *)
Definition hideControlsCallback (isPlaying : bool) : Cmd :=
  when isPlaying (setShowControls false).

Definition clearControlsTimeout : Cmd := fun w =>
  match controlsTimeoutRef w with
  | Some id => Dom.clearTimeout id w
  | None => w
  end.

Definition showControlsWithTimeout (isPlaying : bool) : Cmd :=
  setShowControls true ;;
  clearControlsTimeout ;;
  Dom.setTimeout isPlaying 3000 (fun id => set_controlsTimeoutRef (Some id)).

Definition handleMouseMove (isPlaying : bool) : Cmd :=
  showControlsWithTimeout isPlaying.
Definition handleMouseEnter : Cmd := setShowControls true.
Definition handleMouseLeave (isPlaying : bool) : Cmd :=
  when isPlaying (setShowControls false).

Definition controls (s : State) : Cmd := fun w =>
  if negb (videoRef w) then set_containerListeners None w
  else set_containerListeners (Some (isPlaying s)) w.

Definition controls_cleanup : Cmd :=
  set_containerListeners None ;;
  clearControlsTimeout.

(** *** Control functions *)

Definition togglePlayPause (isPlaying : bool) : Cmd := fun w =>
  if negb (videoRef w) then w
  else if isPlaying then Dom.video_pause w
  else Dom.video_play w.

Definition toggleMute : Cmd := fun w =>
  if negb (videoRef w) then w
  else Dom.video_set_muted (negb (v_muted (video w))) w.

Definition changeVolume (newVolume : Q) : Cmd := fun w =>
  if negb (videoRef w) then w
  else Dom.video_set_volume (Js.Math_max 0 (Js.Math_min 1 newVolume)) w.

(** [seek], closing over [duration] and [isPlaying]. *)
Definition seek (duration : Q) (isPlaying : bool) (time : Q) : Cmd := fun w =>
  if negb (videoRef w) then w
  else
    let clampedTime := Js.Math_max 0 (Js.Math_min duration time) in
    let wasPlaying := isPlaying in
    (Dom.video_set_currentTime clampedTime ;;
     setCurrentTime clampedTime ;;
     (* Resume playback if video was playing before seeking *)
     when wasPlaying Dom.video_play) w.

Definition toggleFullscreen : Cmd := fun w =>
  if negb (videoRef w) then w
  else if negb (fullscreenElement w) then call RequestFullscreen w
  else call ExitFullscreen w.

Definition changePlaybackRate (rate : Q) : Cmd := fun w =>
  if negb (videoRef w) then w
  else (Dom.video_set_playbackRate rate ;; setPlaybackRate rate) w.

(** *** Fullscreen and keyboard effects *)

Definition handleFullscreenChange : Cmd := fun w =>
  setIsFullscreen (fullscreenElement w) w.

Definition keyClosureOf (s : State) : KeyClosure :=
  {| k_currentTime := currentTime s;
     k_volume := volume s;
     k_isFullscreen := isFullscreen s;
     k_isPlaying := isPlaying s;
     k_duration := duration s |}.

Definition handleKeyDown (k : KeyClosure) (key : string) : Cmd := fun w =>
  if negb (videoRef w) then w
  else
    match key with
    | " " | "k" => togglePlayPause (k_isPlaying k) w
    | "m" => toggleMute w
    | "f" => toggleFullscreen w
    | "ArrowLeft" =>
        seek (k_duration k) (k_isPlaying k) (k_currentTime k - 10) w
    | "ArrowRight" =>
        seek (k_duration k) (k_isPlaying k) (k_currentTime k + 10) w
    | "ArrowUp" => changeVolume (Js.Math_min 1 (k_volume k + (1 # 10))) w
    | "ArrowDown" => changeVolume (Js.Math_max 0 (k_volume k - (1 # 10))) w
    | "Escape" => when (k_isFullscreen k) (call ExitFullscreen) w
    | _ => w
    end.

(** *** Handlers bound in the markup

    They are re-created by every render, so they close over the current
    state. *)

Definition onProgressClick (pos : Q) : Cmd := fun w =>
  let newTime := pos * duration (st w) in
  (* Apply the new time *)
  if videoRef w then
    (Dom.video_set_currentTime newTime ;;
     setCurrentTime newTime ;;
     (* Resume playback if video was playing *)
     when (isPlaying (st w)) Dom.video_play) w
  else w.

Definition onScrubChange (time : Q) : Cmd := fun w =>
  (setIsDragging true ;;
   setCurrentTime time ;;
   (* Update video time directly *)
   when (videoRef w) (Dom.video_set_currentTime time)) w.

Definition onScrubMouseUp : Cmd := fun w =>
  (setIsDragging false ;;
   (* Resume playback if it was playing *)
   when (isPlaying (st w) && videoRef w) Dom.video_play) w.

Definition onScrubTouchEnd : Cmd := fun w =>
  (setIsDragging false ;;
   (* Resume playback if it was playing *)
   when (isPlaying (st w) && videoRef w) Dom.video_play) w.

Definition onBackClick : Cmd := fun w =>
  when (onBack (props w)) (call PropsOnBack) w.
Definition onInfoClick : Cmd := fun w =>
  setShowInfo (negb (showInfo (st w))) w.
Definition onSettingsClick : Cmd := fun w =>
  setShowSettings (negb (showSettings (st w))) w.
Definition onSubtitlesClick : Cmd := fun w =>
  setShowSubtitles (negb (showSubtitles (st w))) w.
Definition onAutoPlayNextClick : Cmd := fun w =>
  setAutoPlayNext (negb (autoPlayNext (st w))) w.

(** ** React: commit of a render and flush of the effects *)

Module React.

(** The markup: the error screen replaces the player, so the element and
    container refs are null while [error] is set. *)
Definition sync_refs : Cmd := fun w =>
  match error (st w) with
  | Some _ => set_videoRef false w
  | None =>
      if videoRef w then w
      else (with_video (fun _ => freshVideo) ;; set_videoRef true) w
  end.

(** Dependency arrays. *)
Definition init_changed (p0 : Props) (s0 : State) (p : Props) (s : State) : bool :=
  negb (InitClosure_eqb (closureOf p0 s0) (closureOf p s)).

Definition key_changed (s0 s : State) : bool :=
  negb (Js.same_num (currentTime s0) (currentTime s)
        && Js.same_num (volume s0) (volume s)
        && Bool.eqb (isFullscreen s0) (isFullscreen s)).

Definition run_init_cleanup : Cmd := fun w =>
  match initCleanup w with
  | Some c => (videoInit_cleanup c ;; set_initCleanup None) w
  | None => w
  end.

Definition run_controls_cleanup : Cmd := fun w =>
  match containerListeners w with
  | Some _ => controls_cleanup w
  | None => w
  end.

(** All effects of the first commit, in source order. *)
Definition mount_effects (p : Props) (s : State) : Cmd :=
  volume_effect s ;;
  muted_effect s ;;
  playbackRate_effect s ;;
  videoInit p s ;;
  controls s ;;
  set_fullscreenListener true ;;
  set_keydownListener (Some (keyClosureOf s)).

(** Effects whose dependencies changed since the last commit: first their
    cleanups, then their bodies. *)
Definition update_effects (p0 : Props) (s0 : State) (p : Props) (s : State) : Cmd :=
  when (init_changed p0 s0 p s) run_init_cleanup ;;
  when (negb (Bool.eqb (isPlaying s0) (isPlaying s))) run_controls_cleanup ;;
  when (key_changed s0 s) (set_keydownListener None) ;;
  when (negb (Js.same_num (volume s0) (volume s))) (volume_effect s) ;;
  when (negb (Bool.eqb (isMuted s0) (isMuted s))) (muted_effect s) ;;
  when (negb (Js.same_num (playbackRate s0) (playbackRate s)))
    (playbackRate_effect s) ;;
  when (init_changed p0 s0 p s) (videoInit p s) ;;
  when (negb (Bool.eqb (isPlaying s0) (isPlaying s))) (controls s) ;;
  when (key_changed s0 s) (set_keydownListener (Some (keyClosureOf s))).

Definition commit : Cmd := fun w =>
  if negb (mounted w) then w
  else
    let p := props w in
    let s := st w in
    (sync_refs ;;
     match rendered w with
     | None => mount_effects p s
     | Some (p0, s0) => update_effects p0 s0 p s
     end ;;
     set_rendered (Some (p, s))) w.

(** State set by an effect body causes one more render. *)
Definition flush : Cmd := commit ;; commit.

Definition unmount : Cmd := fun w =>
  if negb (mounted w) then w
  else
    (run_init_cleanup ;;
     run_controls_cleanup ;;
     set_fullscreenListener false ;;
     set_keydownListener None ;;
     set_videoRef false ;;
     set_rendered None ;;
     set_mounted false) w.

End React.

(** ** Events and the step function *)

Inductive Event :=
| Media (e : MediaEvent)                   (* the element dispatches [e] *)
| Playback (t : Q) (buffered : option Q)   (* position and buffered range move on *)
| Metadata (d : Q)                         (* the element learns its duration *)
| Failure (m : option string)              (* the element's [error] is set *)
| Engine (e : HlsEvent) (data : ErrorData) (* the engine emits [e] *)
| MouseMove | MouseEnter | MouseLeave      (* on the player container *)
| KeyDown (key : string)
| FullscreenChange (b : bool)
| Tick (dt : nat)                          (* [dt] milliseconds pass *)
| VideoClick | VideoDoubleClick
| BackClick | InfoClick | SettingsClick
| CenterPlayClick | PlayPauseClick
| ProgressClick (pos : Q)
| ScrubChange (time : Q) | ScrubMouseUp | ScrubTouchEnd
| MuteClick | VolumeInput (v : Q) | FullscreenClick
| SubtitlesClick | QualitySelect (q : string) | SpeedSelect (r : Q)
| AutoPlayNextClick
| PropsChange (p : Props)
| Unmount.

Definition dispatchMedia (e : MediaEvent) : Cmd := fun w =>
  each (fun l => when (MediaEvent_eqb e (fst l)) (mediaHandler e (snd l)))
       (v_listeners (video w)) w.

Definition dispatchEngine (e : HlsEvent) (data : ErrorData) : Cmd := fun w =>
  match hlsRef w with
  | Some h =>
      if existsb (HlsEvent_eqb e) (hls_handlers h) then
        match e with
        | ERROR => onHlsError data w
        | _ => w
        end
      else w
  | None => w
  end.

Definition dispatchContainer (h : bool -> Cmd) : Cmd := fun w =>
  if videoRef w then
    match containerListeners w with
    | Some isPlaying => h isPlaying w
    | None => w
    end
  else w.

Definition fireTimers : Cmd := fun w =>
  let due := filter (fun t => (t_deadline t <=? now w)%nat) (timers w) in
  let rest := filter (fun t => negb (t_deadline t <=? now w)%nat) (timers w) in
  (set_timers rest (nextTimerId w) ;;
   each (fun t => hideControlsCallback (t_isPlaying t)) due) w.

(** A handler bound in the player markup runs only while that markup is
    rendered. *)
Definition markup (shown : State -> Props -> bool) (c : Cmd) : Cmd := fun w =>
  if mounted w && videoRef w && shown (st w) (props w) then c w else w.

Definition always (_ : State) (_ : Props) : bool := true.

Definition handle (e : Event) : Cmd :=
  match e with
  | Media m => dispatchMedia m
  | Playback t b => put_v_currentTime t ;; put_v_bufferedEnd b
  | Metadata d => put_v_duration d
  | Failure m => put_v_errorMessage m
  | Engine h data => dispatchEngine h data
  | MouseMove => dispatchContainer handleMouseMove
  | MouseEnter => dispatchContainer (fun _ => handleMouseEnter)
  | MouseLeave => dispatchContainer handleMouseLeave
  | KeyDown key => fun w =>
      match keydownListener w with
      | Some k => handleKeyDown k key w
      | None => w
      end
  | FullscreenChange b => fun w =>
      (set_fullscreenElement b ;;
       when (fullscreenListener w) handleFullscreenChange) w
  | Tick dt => fun w => (set_now (now w + dt) ;; fireTimers) w
  | VideoClick => markup always (fun w => togglePlayPause (isPlaying (st w)) w)
  | VideoDoubleClick => markup always toggleFullscreen
  | BackClick => markup always onBackClick
  | InfoClick => markup always onInfoClick
  | SettingsClick => markup always onSettingsClick
  | CenterPlayClick =>
      markup (fun s _ => negb (isPlaying s) && negb (isBuffering s))
             (fun w => togglePlayPause (isPlaying (st w)) w)
  | PlayPauseClick =>
      markup always (fun w => togglePlayPause (isPlaying (st w)) w)
  | ProgressClick pos => markup always (onProgressClick pos)
  | ScrubChange time => markup always (onScrubChange time)
  | ScrubMouseUp => markup always onScrubMouseUp
  | ScrubTouchEnd => markup always onScrubTouchEnd
  | MuteClick => markup always toggleMute
  | VolumeInput v => markup always (changeVolume v)
  | FullscreenClick => markup always toggleFullscreen
  | SubtitlesClick =>
      markup (fun _ p => StreamType_eqb (streamType p) movie) onSubtitlesClick
  | QualitySelect q => markup (fun s _ => showSettings s) (setQuality q)
  | SpeedSelect r => markup (fun s _ => showSettings s) (changePlaybackRate r)
  | AutoPlayNextClick =>
      markup (fun s p => showSettings s && StreamType_eqb (streamType p) episode)
             onAutoPlayNextClick
  | PropsChange p => fun w => if mounted w then set_props p w else w
  | Unmount => React.unmount
  end.

Definition step (e : Event) : Cmd := handle e ;; React.flush.

Fixpoint run (tr : list Event) : Cmd :=
  match tr with
  | [] => skip
  | e :: r => step e ;; run r
  end.

(** The component before its first render, in a browser with the given
    capabilities. *)
Definition boot (hlsSupported nativeHls : bool) (p : Props) : World :=
  {| hlsSupported := hlsSupported; nativeHls := nativeHls;
     mounted := true; props := p; st := initialState;
     rendered := None; video := freshVideo; videoRef := false;
     hlsRef := None; controlsTimeoutRef := None;
     timers := []; nextTimerId := 1; now := 0;
     fullscreenElement := false;
     initCleanup := None; containerListeners := None;
     keydownListener := None; fullscreenListener := false; log := [] |}.

Definition mount (hlsSupported nativeHls : bool) (p : Props) : World :=
  React.flush (boot hlsSupported nativeHls p).

(** * Properties *)

(** ** Facts about the built-ins *)

Lemma same_num_refl (x : Q) : Js.same_num x x = true.
Proof. unfold Js.same_num. apply Qeq_bool_refl. Qed.

Lemma same_opt_eq {A} (eqb : A -> A -> bool) :
  (forall x y, eqb x y = true -> x = y) ->
  forall a b, Js.same_opt eqb a b = true -> a = b.
Proof.
  intros H [x|] [y|]; simpl; intros E; try discriminate; auto.
  f_equal; auto.
Qed.

Lemma same_opt_refl {A} (eqb : A -> A -> bool) :
  (forall x, eqb x x = true) -> forall a, Js.same_opt eqb a a = true.
Proof. intros H [x|]; simpl; auto. Qed.

Lemma string_eqb_true (x y : string) : String.eqb x y = true -> x = y.
Proof. apply String.eqb_eq. Qed.

Lemma nat_eqb_true (x y : nat) : Nat.eqb x y = true -> x = y.
Proof. apply Nat.eqb_eq. Qed.

Lemma EpisodeData_eqb_eq (a b : EpisodeData) :
  EpisodeData_eqb a b = true -> a = b.
Proof.
  destruct a, b; unfold EpisodeData_eqb; simpl; intros E.
  repeat (apply andb_prop in E; destruct E as [E ?]).
  repeat match goal with
  | H : Js.same_opt String.eqb _ _ = true |- _ =>
      apply (same_opt_eq _ string_eqb_true) in H
  | H : Js.same_opt Nat.eqb _ _ = true |- _ =>
      apply (same_opt_eq _ nat_eqb_true) in H
  end.
  congruence.
Qed.

Lemma EpisodeData_eqb_refl (a : EpisodeData) : EpisodeData_eqb a a = true.
Proof.
  unfold EpisodeData_eqb.
  rewrite !(same_opt_refl _ String.eqb_refl), !(same_opt_refl _ Nat.eqb_refl).
  reflexivity.
Qed.

Lemma same_object_eq (a b : Obj EpisodeData) : same_object a b = true -> a = b.
Proof.
  destruct a as [i x], b as [j y]. unfold same_object. simpl. intros E.
  apply andb_prop in E. destruct E as [Ei Ex].
  apply Nat.eqb_eq in Ei. apply EpisodeData_eqb_eq in Ex. congruence.
Qed.

Lemma same_object_refl (a : Obj EpisodeData) : same_object a a = true.
Proof.
  unfold same_object. rewrite Nat.eqb_refl, EpisodeData_eqb_refl. reflexivity.
Qed.

Lemma StreamType_eqb_eq (a b : StreamType) : StreamType_eqb a b = true -> a = b.
Proof. destruct a, b; simpl; congruence. Qed.

Lemma StreamType_eqb_refl (a : StreamType) : StreamType_eqb a a = true.
Proof. destruct a; reflexivity. Qed.

Lemma InitClosure_eqb_eq (a b : InitClosure) :
  InitClosure_eqb a b = true -> a = b.
Proof.
  destruct a, b; unfold InitClosure_eqb; simpl; intros E.
  repeat (apply andb_prop in E; destruct E as [E ?]).
  apply String.eqb_eq in E.
  repeat match goal with
  | H : Bool.eqb _ _ = true |- _ => apply Bool.eqb_prop in H
  | H : StreamType_eqb _ _ = true |- _ => apply StreamType_eqb_eq in H
  | H : Js.same_opt same_object _ _ = true |- _ =>
      apply (same_opt_eq _ same_object_eq) in H
  end.
  congruence.
Qed.

Lemma InitClosure_eqb_refl (a : InitClosure) : InitClosure_eqb a a = true.
Proof.
  unfold InitClosure_eqb.
  rewrite String.eqb_refl, !Bool.eqb_reflx, StreamType_eqb_refl,
    (same_opt_refl _ same_object_refl).
  reflexivity.
Qed.

Lemma MediaEvent_eqb_refl (e : MediaEvent) : MediaEvent_eqb e e = true.
Proof. destruct e; reflexivity. Qed.

(** Clamping: [Math.max(0, Math.min(d, t))] lies in [[0, d]] and is [t]
    when [t] already does. *)
Lemma clamp_bounds (d t : Q) :
  0 <= d -> 0 <= Js.Math_max 0 (Js.Math_min d t) <= d.
Proof.
  intros Hd. unfold Js.Math_max, Js.Math_min.
  destruct (Qle_bool d t) eqn:E1.
  - destruct (Qle_bool 0 d) eqn:E2.
    + split; [assumption | apply Qle_refl].
    + split; [apply Qle_refl | assumption].
  - assert (t < d).
    { apply Qnot_le_lt. intros C. apply Qle_bool_iff in C. congruence. }
    destruct (Qle_bool 0 t) eqn:E2.
    + apply Qle_bool_iff in E2. split; [assumption | apply Qlt_le_weak; assumption].
    + split; [apply Qle_refl | assumption].
Qed.

Lemma clamp_inside (d t : Q) :
  0 <= t -> t <= d -> Js.Math_max 0 (Js.Math_min d t) == t.
Proof.
  intros H0 Hd. unfold Js.Math_max, Js.Math_min.
  destruct (Qle_bool d t) eqn:E1.
  - apply Qle_bool_iff in E1.
    assert (0 <= d) by (eapply Qle_trans; eassumption).
    apply Qle_bool_iff in H. rewrite H. apply Qle_antisym; assumption.
  - apply Qle_bool_iff in H0. rewrite H0. reflexivity.
Qed.

Lemma clamp_below (d t : Q) :
  t < 0 -> 0 <= d -> Js.Math_max 0 (Js.Math_min d t) = 0.
Proof.
  intros Ht Hd. unfold Js.Math_max, Js.Math_min.
  assert (Qle_bool d t = false) as ->.
  { destruct (Qle_bool d t) eqn:E; [|reflexivity].
    apply Qle_bool_iff in E. exfalso.
    apply (Qlt_irrefl t). eapply Qlt_le_trans; [eassumption|].
    eapply Qle_trans; eassumption. }
  assert (Qle_bool 0 t = false) as ->.
  { destruct (Qle_bool 0 t) eqn:E; [|reflexivity].
    apply Qle_bool_iff in E. exfalso.
    apply (Qlt_irrefl t). eapply Qlt_le_trans; eassumption. }
  reflexivity.
Qed.

Lemma clamp_above (d t : Q) :
  d < t -> 0 <= d -> Js.Math_max 0 (Js.Math_min d t) = d.
Proof.
  intros Ht Hd. unfold Js.Math_max, Js.Math_min.
  assert (Qle_bool d t = true) as ->.
  { apply Qle_bool_iff. apply Qlt_le_weak. assumption. }
  apply Qle_bool_iff in Hd. rewrite Hd. reflexivity.
Qed.

(** With [duration = 0] every argument clamps to [0]. *)
Lemma clamp_zero (t : Q) : Js.Math_max 0 (Js.Math_min 0 t) = 0.
Proof.
  unfold Js.Math_max, Js.Math_min.
  destruct (Qle_bool 0 t) eqn:E; [reflexivity | rewrite E; reflexivity].
Qed.

(** ** The wiring invariant

    Handlers are closures.  The ones registered by an effect see the props
    and state of the render in which the effect last ran, so what an event
    does depends on which closures are currently wired to the element, the
    container and the timer table.  [Wired c0 ip w] says that everything that
    is wired in [w] closes over the video-init dependencies [c0] and over
    [isPlaying = ip]. *)

Definition listenersOf (c : option InitClosure) : list (MediaEvent * InitClosure) :=
  match c with
  | Some c => map (fun e => (e, c)) mediaEvents
  | None => []
  end.

(** The parts of the world the invariant reads: what the video-init effect
    wires, and what the controls-visibility effect wires. *)
Definition wiringInit (w : World) :=
  (v_listeners (video w), initCleanup w, hlsRef w).

Definition wiringCtl (w : World) :=
  (timers w, controlsTimeoutRef w, containerListeners w).

Definition wiring (w : World) := (wiringInit w, wiringCtl w).

Record WiredInit (c0 : InitClosure) (w : World) : Prop := {
  wired_listeners : v_listeners (video w) = listenersOf (initCleanup w);
  wired_init : forall c, initCleanup w = Some c -> c = c0;
  wired_hls : initCleanup w = None -> hlsRef w = None
}.

Record WiredCtl (ip : bool) (w : World) : Prop := {
  wired_container : forall b, containerListeners w = Some b -> b = ip;
  wired_timers : forall t, In t (timers w) ->
      t_isPlaying t = ip /\ t_delay t = 3000%nat /\
      controlsTimeoutRef w = Some (t_id t) /\ containerListeners w <> None
}.

Definition Wired (c0 : InitClosure) (ip : bool) (w : World) : Prop :=
  WiredInit c0 w /\ WiredCtl ip w.

Lemma WiredInit_frame c0 w w' :
  wiringInit w' = wiringInit w -> WiredInit c0 w -> WiredInit c0 w'.
Proof.
  unfold wiringInit. intros E [H1 H2 H3].
  injection E as E1 E2 E3.
  split; rewrite ?E1, ?E2, ?E3; assumption.
Qed.

Lemma WiredCtl_frame ip w w' :
  wiringCtl w' = wiringCtl w -> WiredCtl ip w -> WiredCtl ip w'.
Proof.
  unfold wiringCtl. intros E [H1 H2].
  injection E as E1 E2 E3.
  split; rewrite ?E1, ?E2, ?E3; assumption.
Qed.

Lemma Wired_frame c0 ip w w' :
  wiring w' = wiring w -> Wired c0 ip w -> Wired c0 ip w'.
Proof.
  unfold wiring. intros E [H1 H2].
  apply pair_equal_spec in E. destruct E as [E1 E2].
  split; [eapply WiredInit_frame | eapply WiredCtl_frame]; eassumption.
Qed.

Inductive reachable : World -> Prop :=
| reachable_mount hs nh p : reachable (mount hs nh p)
| reachable_step e w : reachable w -> reachable (step e w).

(** *** Commands that leave the wiring alone *)

Lemma wiring_with_st f w : wiring (with_st f w) = wiring w.
Proof. reflexivity. Qed.

Lemma wiring_call c w : wiring (call c w) = wiring w.
Proof. reflexivity. Qed.

Lemma wiring_volume_effect s w : wiring (volume_effect s w) = wiring w.
Proof. unfold volume_effect. destruct (videoRef w); reflexivity. Qed.

Lemma wiring_muted_effect s w : wiring (muted_effect s w) = wiring w.
Proof. unfold muted_effect. destruct (videoRef w); reflexivity. Qed.

Lemma wiring_playbackRate_effect s w :
  wiring (playbackRate_effect s w) = wiring w.
Proof. unfold playbackRate_effect. destruct (videoRef w); reflexivity. Qed.

Lemma wiring_when b (c : Cmd) w :
  (forall w, wiring (c w) = wiring w) -> wiring (when b c w) = wiring w.
Proof. intros H. destruct b; simpl; [apply H | reflexivity]. Qed.

(** *** Dispatch under the invariant *)

Lemma dispatchMedia_wired (e : MediaEvent) (w : World) :
  v_listeners (video w) = listenersOf (initCleanup w) ->
  dispatchMedia e w =
  match initCleanup w with
  | Some c => mediaHandler e c w
  | None => w
  end.
Proof.
  intros H. unfold dispatchMedia. rewrite H.
  destruct (initCleanup w) as [c|]; [|reflexivity].
  destruct e; reflexivity.
Qed.

(** *** The video-init effect and its cleanup *)

Lemma removeListeners_all (c : InitClosure) (w : World) :
  v_listeners (video w) = listenersOf (Some c) ->
  v_listeners (video (each (Dom.removeEventListener c) mediaEvents w)) = [].
Proof.
  intros H. unfold mediaEvents, each, Dom.removeEventListener, seq; simpl.
  rewrite H. simpl. unfold Dom.same_listener; simpl.
  repeat (rewrite InitClosure_eqb_refl; simpl). reflexivity.
Qed.

(** ** Frame reasoning

    [Preserves f c]: the command [c] does not change the observation [f]. *)

Definition Preserves {A} (f : World -> A) (c : Cmd) : Prop :=
  forall w, f (c w) = f w.

Create HintDb frame.

Lemma Preserves_skip {A} (f : World -> A) : Preserves f skip.
Proof. intros w. reflexivity. Qed.

Lemma Preserves_seq {A} (f : World -> A) (a b : Cmd) :
  Preserves f a -> Preserves f b -> Preserves f (a ;; b).
Proof. intros Ha Hb w. unfold seq. rewrite Hb. apply Ha. Qed.

Lemma Preserves_when {A} (f : World -> A) (b : bool) (c : Cmd) :
  Preserves f c -> Preserves f (when b c).
Proof. intros H. destruct b; [exact H | apply Preserves_skip]. Qed.

Lemma Preserves_if {A} (f : World -> A) (b : bool) (c d : Cmd) :
  Preserves f c -> Preserves f d -> Preserves f (if b then c else d).
Proof. destruct b; auto. Qed.

Lemma Preserves_each {A B} (f : World -> A) (g : B -> Cmd) (l : list B) :
  (forall x, Preserves f (g x)) -> Preserves f (each g l).
Proof.
  intros H. induction l as [|x r IH]; simpl.
  - apply Preserves_skip.
  - apply Preserves_seq; auto.
Qed.

#[export] Hint Resolve Preserves_skip Preserves_seq Preserves_when
  Preserves_if Preserves_each : frame.

(** Everything in the state but [error] and [isBuffering]: the cells that
    the effect bodies never set. *)
Definition cellsOf (s : State) :=
  (isPlaying s, currentTime s, duration s, bufferedTime s, volume s,
   isMuted s, playbackRate s, isFullscreen s, showControls s,
   (showSettings s, showInfo s, quality s, showSubtitles s, isDragging s,
    autoPlayNext s)).

Definition cells (w : World) := cellsOf (st w).

Ltac frame_prim :=
  let w := fresh "w" in
  intros w;
  repeat match goal with
  | |- context [if ?b then _ else _] => destruct b
  | |- context [match ?x with Some _ => _ | None => _ end] => destruct x
  end; reflexivity.

Lemma cells_call c : Preserves cells (call c).
Proof. frame_prim. Qed.
Lemma cells_with_video f : Preserves cells (with_video f).
Proof. frame_prim. Qed.
Lemma cells_setError x : Preserves cells (setError x).
Proof. frame_prim. Qed.
Lemma cells_setIsBuffering x : Preserves cells (setIsBuffering x).
Proof. frame_prim. Qed.
Lemma cells_set_rendered x : Preserves cells (set_rendered x).
Proof. frame_prim. Qed.
Lemma cells_set_videoRef x : Preserves cells (set_videoRef x).
Proof. frame_prim. Qed.
Lemma cells_set_hlsRef x : Preserves cells (set_hlsRef x).
Proof. frame_prim. Qed.
Lemma cells_set_initCleanup x : Preserves cells (set_initCleanup x).
Proof. frame_prim. Qed.
Lemma cells_set_containerListeners x : Preserves cells (set_containerListeners x).
Proof. frame_prim. Qed.
Lemma cells_set_keydownListener x : Preserves cells (set_keydownListener x).
Proof. frame_prim. Qed.
Lemma cells_set_fullscreenListener x : Preserves cells (set_fullscreenListener x).
Proof. frame_prim. Qed.
Lemma cells_set_timers x n : Preserves cells (set_timers x n).
Proof. frame_prim. Qed.
Lemma cells_set_controlsTimeoutRef x : Preserves cells (set_controlsTimeoutRef x).
Proof. frame_prim. Qed.

#[export] Hint Resolve cells_call cells_with_video cells_setError
  cells_setIsBuffering cells_set_rendered cells_set_videoRef cells_set_hlsRef
  cells_set_initCleanup cells_set_containerListeners
  cells_set_keydownListener cells_set_fullscreenListener cells_set_timers
  cells_set_controlsTimeoutRef : frame.

(** Case analysis on every test a command makes, then computation. *)
Ltac cases :=
  repeat match goal with
  | |- context [if ?b then _ else _] => destruct b eqn:?
  | |- context [match ?x with Some _ => _ | None => _ end] => destruct x eqn:?
  end.

(** What an event handler, other than a pointer move, a timer or the
    unmount, leaves as it found it. *)
Definition frameOf (w : World) :=
  (wiring w, rendered w, mounted w, videoRef w,
   keydownListener w, fullscreenListener w, now w).

Definition quietEvent (e : Event) : bool :=
  match e with
  | MouseMove | Tick _ | Unmount => false
  | _ => true
  end.

Lemma handleKeyDown_frame k key w :
  frameOf (handleKeyDown k key w) = frameOf w.
Proof.
  unfold handleKeyDown.
  destruct (negb (videoRef w)) eqn:Hv; [reflexivity|].
  repeat match goal with
  | |- context [match ?x with EmptyString => _ | String _ _ => _ end] => destruct x
  | |- context [match ?x with Ascii _ _ _ _ _ _ _ _ => _ end] => destruct x
  | |- context [if ?b then _ else _] => destruct b
  end;
  unfold togglePlayPause, toggleMute, toggleFullscreen, seek, changeVolume, when;
  rewrite ?Hv; cases; reflexivity.
Qed.

Lemma mediaHandler_frame e c w : frameOf (mediaHandler e c w) = frameOf w.
Proof.
  destruct e; simpl;
    unfold handleLoadedMetadata, handleTimeUpdate, updateProgress,
      handleVolumeChange, handleError, handleEnded, when, seq;
    cases; reflexivity.
Qed.

Lemma dispatchEngine_frame e d w : frameOf (dispatchEngine e d w) = frameOf w.
Proof.
  unfold dispatchEngine, onHlsError, seq.
  destruct e; cases; reflexivity.
Qed.

Lemma markup_frame shown (c : Cmd) w :
  (forall w, frameOf (c w) = frameOf w) ->
  frameOf (markup shown c w) = frameOf w.
Proof. intros H. unfold markup. cases; [apply H | reflexivity]. Qed.

Lemma handle_frame e w :
  v_listeners (video w) = listenersOf (initCleanup w) ->
  quietEvent e = true ->
  frameOf (handle e w) = frameOf w.
Proof.
  intros Hl Hq. destruct e; try discriminate Hq; simpl handle;
    try (apply markup_frame; clear; intros w;
         unfold togglePlayPause, toggleMute, toggleFullscreen, changeVolume,
           changePlaybackRate, onProgressClick, onScrubChange, onScrubMouseUp,
           onScrubTouchEnd, onBackClick, onInfoClick, onSettingsClick,
           onSubtitlesClick, onAutoPlayNextClick, when, seq;
         cases; reflexivity).
  - rewrite (dispatchMedia_wired _ _ Hl).
    destruct (initCleanup w); [apply mediaHandler_frame | reflexivity].
  - reflexivity.
  - reflexivity.
  - reflexivity.
  - apply dispatchEngine_frame.
  - unfold dispatchContainer, handleMouseEnter. cases; reflexivity.
  - unfold dispatchContainer, handleMouseLeave, when. cases; reflexivity.
  - destruct (keydownListener w); [apply handleKeyDown_frame | reflexivity].
  - unfold handleFullscreenChange, when, seq. cases; reflexivity.
  - cases; reflexivity.
Qed.

(** *** The error state is absorbing for handlers *)

Definition errored (w : World) : bool :=
  match error (st w) with Some _ => true | None => false end.

Lemma handleKeyDown_cases k key w :
  In (handleKeyDown k key w)
     [w;
      togglePlayPause (k_isPlaying k) w;
      toggleMute w;
      toggleFullscreen w;
      seek (k_duration k) (k_isPlaying k) (k_currentTime k - 10) w;
      seek (k_duration k) (k_isPlaying k) (k_currentTime k + 10) w;
      changeVolume (Js.Math_min 1 (k_volume k + (1 # 10))) w;
      changeVolume (Js.Math_max 0 (k_volume k - (1 # 10))) w;
      when (k_isFullscreen k) (call ExitFullscreen) w].
Proof.
  unfold handleKeyDown.
  destruct (negb (videoRef w)); [left; reflexivity|].
  repeat match goal with
  | |- context [match ?x with EmptyString => _ | String _ _ => _ end] => destruct x
  | |- context [match ?x with Ascii _ _ _ _ _ _ _ _ => _ end] => destruct x
  | |- context [if ?b then _ else _] => destruct b
  end; simpl; tauto.
Qed.

Lemma handleKeyDown_errored k key w :
  errored (handleKeyDown k key w) = errored w.
Proof.
  pose proof (handleKeyDown_cases k key w) as H. simpl in H.
  repeat (destruct H as [H|H]; [rewrite <- H; clear H|]); try contradiction;
    unfold togglePlayPause, toggleMute, toggleFullscreen, seek, changeVolume,
      when, seq; cases; reflexivity.
Qed.

Lemma mediaHandler_errored e c w :
  errored w = true -> errored (mediaHandler e c w) = true.
Proof.
  intros H. destruct e; simpl;
    unfold handleLoadedMetadata, handleTimeUpdate, updateProgress,
      handleVolumeChange, handleError, handleEnded, when, seq;
    cases; solve [exact H | reflexivity].
Qed.

Lemma each_errored {A} (f : A -> Cmd) (l : list A) :
  (forall x w, errored (f x w) = errored w) ->
  forall w, errored (each f l w) = errored w.
Proof.
  intros H. induction l as [|x r IH]; intros w; simpl; [reflexivity|].
  unfold seq. rewrite IH. apply H.
Qed.

Lemma handle_errored e w :
  v_listeners (video w) = listenersOf (initCleanup w) ->
  errored w = true -> errored (handle e w) = true.
Proof.
  intros Hl H.
  destruct e; simpl handle;
    try (unfold markup; cases; [|exact H];
         unfold togglePlayPause, toggleMute, toggleFullscreen, changeVolume,
           changePlaybackRate, onProgressClick, onScrubChange, onScrubMouseUp,
           onScrubTouchEnd, onBackClick, onInfoClick, onSettingsClick,
           onSubtitlesClick, onAutoPlayNextClick, when, seq;
         cases; exact H).
  - rewrite (dispatchMedia_wired _ _ Hl).
    destruct (initCleanup w); [apply mediaHandler_errored|]; exact H.
  - exact H.
  - exact H.
  - exact H.
  - unfold dispatchEngine, onHlsError, seq.
    destruct e; cases; solve [exact H | reflexivity].
  - unfold dispatchContainer, handleMouseMove, showControlsWithTimeout,
      clearControlsTimeout, Dom.setTimeout, Dom.clearTimeout, seq.
    cases; exact H.
  - unfold dispatchContainer, handleMouseEnter. cases; exact H.
  - unfold dispatchContainer, handleMouseLeave, when. cases; exact H.
  - destruct (keydownListener w); [rewrite handleKeyDown_errored|]; exact H.
  - unfold handleFullscreenChange, when, seq. cases; exact H.
  - unfold fireTimers, seq.
    rewrite each_errored; [exact H|].
    intros t w'. unfold hideControlsCallback, when. cases; reflexivity.
  - unfold React.unmount, React.run_init_cleanup, React.run_controls_cleanup,
      videoInit_cleanup, controls_cleanup, clearControlsTimeout, hls_teardown, seq.
    cases; exact H.
Qed.

(** ** The effects, lane by lane

    The effects of the component touch disjoint parts of the world: the
    video-init effect owns the listener table of the element and the engine,
    the controls effect owns the container listeners and the hide timer, the
    keyboard effect owns the [keydown] listener. *)

(** What no effect changes, apart from [error] and [isBuffering]. *)
Definition rest (w : World) :=
  (cells w, videoRef w, mounted w, props w, rendered w, now w,
   hlsSupported w, nativeHls w).

Lemma run_init_cleanup_ctl : Preserves wiringCtl React.run_init_cleanup.
Proof.
  intros w. unfold React.run_init_cleanup, videoInit_cleanup, hls_teardown, seq.
  cases; reflexivity.
Qed.

Lemma run_init_cleanup_rest : Preserves rest React.run_init_cleanup.
Proof.
  intros w. unfold React.run_init_cleanup, videoInit_cleanup, hls_teardown, seq.
  cases; reflexivity.
Qed.

Lemma run_init_cleanup_st : Preserves st React.run_init_cleanup.
Proof.
  intros w. unfold React.run_init_cleanup, videoInit_cleanup, hls_teardown, seq.
  cases; reflexivity.
Qed.

Lemma run_init_cleanup_key : Preserves keydownListener React.run_init_cleanup.
Proof.
  intros w. unfold React.run_init_cleanup, videoInit_cleanup, hls_teardown, seq.
  cases; reflexivity.
Qed.

Lemma videoInit_ctl p s : Preserves wiringCtl (videoInit p s).
Proof. intros w. unfold videoInit, seq. cases; reflexivity. Qed.

Lemma videoInit_rest p s : Preserves rest (videoInit p s).
Proof. intros w. unfold videoInit, seq. cases; reflexivity. Qed.

Lemma videoInit_key p s : Preserves keydownListener (videoInit p s).
Proof. intros w. unfold videoInit, seq. cases; reflexivity. Qed.

(** On the error screen the effect returns before it sets anything. *)
Lemma videoInit_st_unmounted p s w :
  videoRef w = false -> st (videoInit p s w) = st w.
Proof. intros H. unfold videoInit. rewrite H. reflexivity. Qed.

Lemma run_controls_cleanup_init : Preserves wiringInit React.run_controls_cleanup.
Proof.
  intros w.
  unfold React.run_controls_cleanup, controls_cleanup, clearControlsTimeout, seq.
  cases; reflexivity.
Qed.

Lemma run_controls_cleanup_rest : Preserves rest React.run_controls_cleanup.
Proof.
  intros w.
  unfold React.run_controls_cleanup, controls_cleanup, clearControlsTimeout, seq.
  cases; reflexivity.
Qed.

Lemma run_controls_cleanup_st : Preserves st React.run_controls_cleanup.
Proof.
  intros w.
  unfold React.run_controls_cleanup, controls_cleanup, clearControlsTimeout, seq.
  cases; reflexivity.
Qed.

Lemma run_controls_cleanup_key : Preserves keydownListener React.run_controls_cleanup.
Proof.
  intros w.
  unfold React.run_controls_cleanup, controls_cleanup, clearControlsTimeout, seq.
  cases; reflexivity.
Qed.

Lemma controls_init s : Preserves wiringInit (controls s).
Proof. intros w. unfold controls. cases; reflexivity. Qed.

Lemma controls_rest s : Preserves rest (controls s).
Proof. intros w. unfold controls. cases; reflexivity. Qed.

Lemma controls_st s : Preserves st (controls s).
Proof. intros w. unfold controls. cases; reflexivity. Qed.

Lemma controls_key s : Preserves keydownListener (controls s).
Proof. intros w. unfold controls. cases; reflexivity. Qed.

(** The three mirroring effects and the keyboard effect touch no wiring. *)
Definition outsideSmall (w : World) := (wiring w, st w, rest w).

Lemma volume_effect_outside s : Preserves outsideSmall (volume_effect s).
Proof. intros w. unfold volume_effect. cases; reflexivity. Qed.

Lemma muted_effect_outside s : Preserves outsideSmall (muted_effect s).
Proof. intros w. unfold muted_effect. cases; reflexivity. Qed.

Lemma playbackRate_effect_outside s : Preserves outsideSmall (playbackRate_effect s).
Proof. intros w. unfold playbackRate_effect. cases; reflexivity. Qed.

Lemma set_keydownListener_outside k : Preserves outsideSmall (set_keydownListener k).
Proof. intros w. reflexivity. Qed.

Lemma set_fullscreenListener_outside b :
  Preserves outsideSmall (set_fullscreenListener b).
Proof. intros w. reflexivity. Qed.

Lemma volume_effect_key s : Preserves keydownListener (volume_effect s).
Proof. intros w. unfold volume_effect. cases; reflexivity. Qed.

Lemma muted_effect_key s : Preserves keydownListener (muted_effect s).
Proof. intros w. unfold muted_effect. cases; reflexivity. Qed.

Lemma playbackRate_effect_key s : Preserves keydownListener (playbackRate_effect s).
Proof. intros w. unfold playbackRate_effect. cases; reflexivity. Qed.

#[export] Hint Resolve run_init_cleanup_ctl run_init_cleanup_rest
  run_init_cleanup_st run_init_cleanup_key videoInit_ctl videoInit_rest
  videoInit_key run_controls_cleanup_init run_controls_cleanup_rest
  run_controls_cleanup_st run_controls_cleanup_key controls_init
  controls_rest controls_st controls_key volume_effect_outside
  muted_effect_outside playbackRate_effect_outside
  set_keydownListener_outside set_fullscreenListener_outside
  volume_effect_key muted_effect_key
  playbackRate_effect_key : frame.

Lemma Preserves_map {A B} (f : World -> A) (g : A -> B) (c : Cmd) :
  Preserves f c -> Preserves (fun w => g (f w)) c.
Proof. intros H w. rewrite H. reflexivity. Qed.

(** *** What the init lane does to its own wiring *)

Lemma removeListeners_hlsRef c l w :
  hlsRef (each (Dom.removeEventListener c) l w) = hlsRef w.
Proof.
  revert w. induction l as [|e r IH]; intros w; simpl; [reflexivity|].
  unfold seq. rewrite IH. reflexivity.
Qed.

Lemma video_set_src_listeners s w :
  v_listeners (video (Dom.video_set_src s w)) = v_listeners (video w).
Proof. reflexivity. Qed.

Lemma videoInit_cleanup_listeners c w :
  v_listeners (video w) = listenersOf (Some c) ->
  v_listeners (video (videoInit_cleanup c w)) = [].
Proof.
  intros H. unfold videoInit_cleanup, seq.
  assert (v_listeners (video (hls_teardown w)) = listenersOf (Some c)) as H1.
  { rewrite <- H. unfold hls_teardown. cases; reflexivity. }
  rewrite video_set_src_listeners.
  exact (removeListeners_all c (hls_teardown w) H1).
Qed.

Lemma video_set_src_hlsRef s w : hlsRef (Dom.video_set_src s w) = hlsRef w.
Proof. reflexivity. Qed.

Lemma videoInit_cleanup_hlsRef c w : hlsRef (videoInit_cleanup c w) = None.
Proof.
  unfold videoInit_cleanup, seq.
  rewrite video_set_src_hlsRef.
  transitivity (hlsRef (hls_teardown w)).
  - exact (removeListeners_hlsRef c mediaEvents (hls_teardown w)).
  - unfold hls_teardown. destruct (hlsRef w) eqn:E; [reflexivity | exact E].
Qed.

Lemma run_init_cleanup_wired c0 c1 w :
  WiredInit c0 w -> WiredInit c1 (React.run_init_cleanup w).
Proof.
  intros [Hl Hc Hh]. unfold React.run_init_cleanup.
  destruct (initCleanup w) as [c|] eqn:Ec.
  - pose proof (videoInit_cleanup_listeners c w Hl) as El.
    pose proof (videoInit_cleanup_hlsRef c w) as Eh.
    unfold seq. revert El Eh. generalize (videoInit_cleanup c w). intros w' El Eh.
    split; simpl; auto; discriminate.
  - split; rewrite ?Ec; auto; discriminate.
Qed.

Lemma run_init_cleanup_none w : initCleanup (React.run_init_cleanup w) = None.
Proof.
  unfold React.run_init_cleanup.
  destruct (initCleanup w) eqn:E; [reflexivity | exact E].
Qed.

Lemma videoInit_wired c0 p s w :
  WiredInit c0 w -> initCleanup w = None ->
  WiredInit (closureOf p s) (videoInit p s w).
Proof.
  intros [Hl Hc Hh] En. rewrite En in Hl. specialize (Hh En).
  unfold videoInit.
  destruct (negb (videoRef w) || String.eqb (streamUrl p) "").
  - split; simpl; auto; discriminate.
  - split.
    + unfold seq. cases; simpl; rewrite Hl; reflexivity.
    + unfold seq. cases; simpl; congruence.
    + unfold seq. cases; simpl; discriminate.
Qed.

(** *** What the controls lane does to its own wiring *)

Lemma filter_none {A} (f : A -> bool) (l : list A) :
  (forall x, In x l -> f x = false) -> filter f l = [].
Proof.
  induction l as [|x r IH]; simpl; intros H; [reflexivity|].
  rewrite (H x (or_introl eq_refl)). apply IH. intros y Hy. apply H. right. exact Hy.
Qed.

(** The ref always names the one pending timer, so clearing it empties the
    timer table. *)
Lemma clearControlsTimeout_timers w :
  (forall t, In t (timers w) -> controlsTimeoutRef w = Some (t_id t)) ->
  timers (clearControlsTimeout w) = [].
Proof.
  intros Ht. unfold clearControlsTimeout.
  destruct (controlsTimeoutRef w) as [id|] eqn:Er.
  - unfold Dom.clearTimeout, seq. simpl.
    apply filter_none. intros t Hin.
    specialize (Ht t Hin). injection Ht as ->.
    rewrite Nat.eqb_refl. reflexivity.
  - destruct (timers w) as [|t r] eqn:Et; [reflexivity|].
    specialize (Ht t (or_introl eq_refl)). discriminate.
Qed.

Lemma clearControlsTimeout_container w :
  containerListeners (clearControlsTimeout w) = containerListeners w.
Proof. unfold clearControlsTimeout, Dom.clearTimeout, seq. cases; reflexivity. Qed.

Lemma WiredCtl_empty ip w :
  timers w = [] -> containerListeners w = None -> WiredCtl ip w.
Proof.
  intros Ht Hc. split.
  - rewrite Hc. discriminate.
  - rewrite Ht. intros t [].
Qed.

Lemma WiredCtl_no_container ip w :
  WiredCtl ip w -> containerListeners w = None -> timers w = [].
Proof.
  intros [_ Ht] Hc. destruct (timers w) as [|t r]; [reflexivity|].
  destruct (Ht t (or_introl eq_refl)) as (_ & _ & _ & N). contradiction.
Qed.

Lemma run_controls_cleanup_wired ip w :
  WiredCtl ip w ->
  timers (React.run_controls_cleanup w) = [] /\
  containerListeners (React.run_controls_cleanup w) = None.
Proof.
  intros H. unfold React.run_controls_cleanup.
  destruct (containerListeners w) as [b|] eqn:Ec.
  - unfold controls_cleanup, seq. split.
    + apply clearControlsTimeout_timers. simpl.
      intros t Hin. destruct H as [_ Ht]. apply (Ht t Hin).
    + rewrite clearControlsTimeout_container. reflexivity.
  - split; [|exact Ec]. eapply WiredCtl_no_container; eassumption.
Qed.

Lemma controls_wired s w :
  timers w = [] ->
  WiredCtl (isPlaying s) (controls s w) /\
  timers (controls s w) = [] /\
  (videoRef w = true -> containerListeners (controls s w) <> None).
Proof.
  intros Ht. unfold controls.
  destruct (videoRef w); simpl; (split; [split; simpl|split; simpl]).
  all: try (rewrite Ht; intros t []).
  all: try exact Ht.
  all: try congruence.
  all: try discriminate.
Qed.

(** A pointer move re-arms the hide timer. *)
Lemma showControlsWithTimeout_wired ip w :
  WiredCtl ip w -> containerListeners w <> None ->
  WiredCtl ip (showControlsWithTimeout ip w) /\
  timers (showControlsWithTimeout ip w) =
    [{| t_id := nextTimerId w; t_armedAt := now w; t_delay := 3000;
        t_isPlaying := ip |}].
Proof.
  intros H Hc.
  assert (timers (showControlsWithTimeout ip w) =
    [{| t_id := nextTimerId w; t_armedAt := now w; t_delay := 3000;
        t_isPlaying := ip |}]) as E.
  { unfold showControlsWithTimeout, seq.
    pose proof (clearControlsTimeout_timers (setShowControls true w)) as E0.
    assert (forall f, (nextTimerId (clearControlsTimeout f), now (clearControlsTimeout f))
                      = (nextTimerId f, now f)) as E1.
    { intros f. unfold clearControlsTimeout, Dom.clearTimeout, seq. cases; reflexivity. }
    specialize (E1 (setShowControls true w)).
    revert E0 E1. generalize (clearControlsTimeout (setShowControls true w)).
    intros w' E0 E1. injection E1 as E1 E2.
    unfold Dom.setTimeout, seq. simpl. rewrite E0, E1, E2; [reflexivity|].
    simpl. intros t Hin. destruct H as [_ Ht]. apply (Ht t Hin). }
  split; [|exact E].
  split.
  - assert (containerListeners (showControlsWithTimeout ip w) = containerListeners w) as ->.
    { unfold showControlsWithTimeout, seq, Dom.setTimeout. simpl.
      rewrite clearControlsTimeout_container. reflexivity. }
    apply H.
  - rewrite E. intros t [<-|[]]. simpl.
    repeat split.
    + unfold showControlsWithTimeout, seq, Dom.setTimeout. simpl.
      assert (forall f, nextTimerId (clearControlsTimeout f) = nextTimerId f) as E1.
      { intros f. unfold clearControlsTimeout, Dom.clearTimeout, seq. cases; reflexivity. }
      rewrite E1. reflexivity.
    + unfold showControlsWithTimeout, seq, Dom.setTimeout. simpl.
      rewrite clearControlsTimeout_container. exact Hc.
Qed.

(** Expired timers leave the table; their callbacks only touch the state. *)
Lemma each_callbacks_outside (l : list Timer) :
  Preserves (fun w => (wiring w, rendered w, mounted w, videoRef w,
                       keydownListener w, fullscreenListener w, now w, props w))
            (each (fun t => hideControlsCallback (t_isPlaying t)) l).
Proof.
  apply Preserves_each. intros t w.
  unfold hideControlsCallback, when. cases; reflexivity.
Qed.

Lemma fireTimers_wired ip w :
  WiredCtl ip w -> WiredCtl ip (fireTimers w).
Proof.
  intros [Hc Ht]. unfold fireTimers, seq.
  match goal with |- WiredCtl _ (each ?f ?l ?w0) =>
    pose proof (each_callbacks_outside l w0) as E;
    assert (wiringCtl (each f l w0) = wiringCtl w0) as E'
      by (apply (f_equal (fun x => snd (fst (fst (fst (fst (fst (fst (fst x))))))))) in E; exact E);
    apply (WiredCtl_frame _ _ _ E')
  end.
  split; simpl.
  - exact Hc.
  - intros t Hin. apply filter_In in Hin. destruct Hin as [Hin _].
    apply (Ht t Hin).
Qed.

(** ** One commit

    The facts that hold between two effects of a commit.  [initNone] and
    [ctlNone] record that the cleanup of the video-init effect, respectively
    of the controls effect, has run and its body has not yet. *)

Record Mid (c : InitClosure) (ip : bool) (initNone ctlNone : bool)
    (w0 w : World) : Prop := {
  mid_init : WiredInit c w;
  mid_ctl : WiredCtl ip w;
  mid_initNone : initNone = true -> initCleanup w = None;
  mid_ctlNone : ctlNone = true -> timers w = [] /\ containerListeners w = None;
  mid_container :
    ctlNone = false -> videoRef w0 = true -> containerListeners w <> None;
  mid_rest : rest w = rest w0;
  mid_st : videoRef w0 = false -> st w = st w0
}.

Lemma rest_videoRef w w' : rest w' = rest w -> videoRef w' = videoRef w.
Proof. unfold rest. intros E. congruence. Qed.

Lemma wiringInit_initCleanup w w' :
  wiringInit w' = wiringInit w -> initCleanup w' = initCleanup w.
Proof. unfold wiringInit. congruence. Qed.

Lemma wiringCtl_parts w w' :
  wiringCtl w' = wiringCtl w ->
  timers w' = timers w /\ containerListeners w' = containerListeners w.
Proof. unfold wiringCtl. intros E. split; congruence. Qed.

Lemma Mid_small c ip i k w0 w (cmd : Cmd) :
  Preserves outsideSmall cmd -> Mid c ip i k w0 w -> Mid c ip i k w0 (cmd w).
Proof.
  intros P [H1 H2 H3 H4 H5 H6 H7]. specialize (P w). unfold outsideSmall in P.
  assert (wiring (cmd w) = wiring w) as Ew by congruence.
  assert (st (cmd w) = st w) as Es by congruence.
  assert (rest (cmd w) = rest w) as Er by congruence.
  clear P. unfold wiring in Ew.
  assert (wiringInit (cmd w) = wiringInit w) as Ei by congruence.
  assert (wiringCtl (cmd w) = wiringCtl w) as Ec by congruence.
  clear Ew. destruct (wiringCtl_parts _ _ Ec) as [Et Ek].
  split.
  - eapply WiredInit_frame; eassumption.
  - eapply WiredCtl_frame; eassumption.
  - intros Hi. rewrite (wiringInit_initCleanup _ _ Ei). auto.
  - intros Hk. rewrite Et, Ek. auto.
  - intros Hk Hv. rewrite Ek. auto.
  - congruence.
  - intros Hv. rewrite Es. auto.
Qed.

Lemma Mid_init_cleanup c0 c ip (ic : bool) w0 w :
  (ic = false -> c0 = c) ->
  Mid c0 ip false false w0 w ->
  Mid c ip ic false w0 (when ic React.run_init_cleanup w).
Proof.
  intros Hc [H1 H2 H3 H4 H5 H6 H7]. destruct ic; simpl.
  - pose proof (run_init_cleanup_ctl w) as Ec.
    pose proof (run_init_cleanup_rest w) as Er.
    pose proof (run_init_cleanup_st w) as Es.
    destruct (wiringCtl_parts _ _ Ec) as [Et Ek].
    split.
    + eapply run_init_cleanup_wired; eassumption.
    + eapply WiredCtl_frame; eassumption.
    + intros _. apply run_init_cleanup_none.
    + discriminate.
    + intros _ Hv. rewrite Ek. auto.
    + congruence.
    + intros Hv. rewrite Es. auto.
  - rewrite <- (Hc eq_refl). split; auto.
Qed.

Lemma Mid_controls_cleanup c ip0 ip i (pc : bool) w0 w :
  (pc = false -> ip0 = ip) ->
  Mid c ip0 i false w0 w ->
  Mid c ip i pc w0 (when pc React.run_controls_cleanup w).
Proof.
  intros Hp [H1 H2 H3 H4 H5 H6 H7]. destruct pc; simpl.
  - pose proof (run_controls_cleanup_init w) as Ei.
    pose proof (run_controls_cleanup_rest w) as Er.
    pose proof (run_controls_cleanup_st w) as Es.
    destruct (run_controls_cleanup_wired _ _ H2) as [Et Ek].
    split.
    + eapply WiredInit_frame; eassumption.
    + apply WiredCtl_empty; assumption.
    + intros Hi. rewrite (wiringInit_initCleanup _ _ Ei). auto.
    + intros _. split; assumption.
    + discriminate.
    + congruence.
    + intros Hv. rewrite Es. auto.
  - rewrite <- (Hp eq_refl). split; auto.
Qed.

Lemma Mid_videoInit p s ip k (ic : bool) w0 w :
  Mid (closureOf p s) ip ic k w0 w ->
  Mid (closureOf p s) ip false k w0 (when ic (videoInit p s) w).
Proof.
  intros [H1 H2 H3 H4 H5 H6 H7]. destruct ic; simpl.
  - pose proof (videoInit_ctl p s w) as Ec.
    pose proof (videoInit_rest p s w) as Er.
    destruct (wiringCtl_parts _ _ Ec) as [Et Ek].
    split.
    + eapply videoInit_wired; eauto.
    + eapply WiredCtl_frame; eassumption.
    + discriminate.
    + intros Hk. rewrite Et, Ek. auto.
    + intros Hk Hv. rewrite Ek. auto.
    + congruence.
    + intros Hv. rewrite videoInit_st_unmounted; auto.
      rewrite (rest_videoRef _ _ H6). exact Hv.
  - split; auto.
Qed.

Lemma Mid_controls c ip s i (pc : bool) w0 w :
  (pc = false -> ip = isPlaying s) ->
  Mid c ip i pc w0 w ->
  Mid c (isPlaying s) i false w0 (when pc (controls s) w).
Proof.
  intros Hp [H1 H2 H3 H4 H5 H6 H7]. destruct pc; simpl.
  - pose proof (controls_init s w) as Ei.
    pose proof (controls_rest s w) as Er.
    pose proof (controls_st s w) as Es.
    destruct (H4 eq_refl) as [Ht Hk].
    destruct (controls_wired s w Ht) as (Hw & Ht' & Hc').
    split.
    + eapply WiredInit_frame; eassumption.
    + exact Hw.
    + intros Hi. rewrite (wiringInit_initCleanup _ _ Ei). auto.
    + discriminate.
    + intros _ Hv. apply Hc'. rewrite (rest_videoRef _ _ H6). exact Hv.
    + congruence.
    + intros Hv. rewrite Es. auto.
  - rewrite <- (Hp eq_refl). split; auto.
Qed.

Lemma init_unchanged p0 s0 p s :
  React.init_changed p0 s0 p s = false -> closureOf p0 s0 = closureOf p s.
Proof.
  unfold React.init_changed. intros H. apply negb_false_iff in H.
  apply InitClosure_eqb_eq. exact H.
Qed.

Lemma update_effects_spec p0 s0 p s w :
  WiredInit (closureOf p0 s0) w -> WiredCtl (isPlaying s0) w ->
  (videoRef w = true -> containerListeners w <> None) ->
  Mid (closureOf p s) (isPlaying s) false false w
      (React.update_effects p0 s0 p s w).
Proof.
  intros Hi Hc Hk.
  assert (Mid (closureOf p0 s0) (isPlaying s0) false false w w) as M0.
  { split; auto; discriminate. }
  unfold React.update_effects, seq.
  apply Mid_small; [auto with frame|].
  apply Mid_controls with (ip := isPlaying s).
  { reflexivity. }
  apply Mid_videoInit.
  do 4 (apply Mid_small; [auto with frame|]).
  apply Mid_controls_cleanup with (ip0 := isPlaying s0).
  { intros E. apply negb_false_iff in E. apply Bool.eqb_prop in E. exact E. }
  apply Mid_init_cleanup with (c0 := closureOf p0 s0).
  { apply init_unchanged. }
  exact M0.
Qed.

(** ** Stable worlds

    Between two events the component is either mounted, with everything
    wired to closures of the last render, or unmounted with nothing wired. *)

Record PendingAt (p0 : Props) (s0 : State) (w : World) : Prop := {
  pending_mounted : mounted w = true;
  pending_rendered : rendered w = Some (p0, s0);
  pending_init : WiredInit (closureOf p0 s0) w;
  pending_ctl : WiredCtl (isPlaying s0) w;
  pending_container : videoRef w = true -> containerListeners w <> None;
  pending_error : videoRef w = false -> errored w = true
}.

Record Unmounted (w : World) : Prop := {
  un_mounted : mounted w = false;
  un_rendered : rendered w = None;
  un_videoRef : videoRef w = false;
  un_listeners : v_listeners (video w) = [];
  un_init : initCleanup w = None;
  un_hls : hlsRef w = None;
  un_timers : timers w = [];
  un_container : containerListeners w = None;
  un_key : keydownListener w = None;
  un_fullscreen : fullscreenListener w = false
}.

Definition Stable (w : World) : Prop :=
  (PendingAt (props w) (st w) w /\ videoRef w = negb (errored w))
  \/ Unmounted w.

(** *** The markup step of a commit *)

Lemma sync_refs_spec p0 s0 w :
  PendingAt p0 s0 w ->
  wiring (React.sync_refs w) = wiring w /\
  st (React.sync_refs w) = st w /\
  videoRef (React.sync_refs w) = negb (errored w) /\
  (cells (React.sync_refs w), mounted (React.sync_refs w),
   props (React.sync_refs w), rendered (React.sync_refs w),
   keydownListener (React.sync_refs w))
  = (cells w, mounted w, props w, rendered w, keydownListener w).
Proof.
  intros [_ _ _ _ _ He]. unfold React.sync_refs, errored in *.
  destruct (error (st w)) eqn:E.
  - repeat split.
  - destruct (videoRef w) eqn:Ev.
    + repeat split. exact Ev.
    + specialize (He eq_refl). discriminate.
Qed.

(** The state cells that some dependency array mentions. *)
Definition depsOf (s : State) :=
  (isPlaying s, currentTime s, volume s, isMuted s, playbackRate s,
   isFullscreen s, isDragging s, autoPlayNext s).

Lemma cells_deps s s' : cellsOf s = cellsOf s' -> depsOf s = depsOf s'.
Proof. unfold cellsOf, depsOf. intros E. injection E as ?. congruence. Qed.

Lemma deps_closureOf p s s' : depsOf s = depsOf s' -> closureOf p s = closureOf p s'.
Proof. unfold depsOf, closureOf. intros E. injection E as ?. congruence. Qed.

Lemma deps_isPlaying s s' : depsOf s = depsOf s' -> isPlaying s = isPlaying s'.
Proof. unfold depsOf. intros E. congruence. Qed.

Lemma cells_closureOf p s s' : cellsOf s = cellsOf s' -> closureOf p s = closureOf p s'.
Proof. intros E. apply deps_closureOf, cells_deps, E. Qed.

Lemma cells_isPlaying s s' : cellsOf s = cellsOf s' -> isPlaying s = isPlaying s'.
Proof. unfold cellsOf. intros E. congruence. Qed.

(** A commit in which no dependency changed runs no effect. *)
Lemma update_effects_quiet p s0 s w :
  depsOf s0 = depsOf s -> React.update_effects p s0 p s w = w.
Proof.
  intros E. unfold React.update_effects, React.init_changed, React.key_changed.
  rewrite (deps_closureOf p _ _ E), InitClosure_eqb_refl.
  unfold depsOf in E. injection E as E1 E2 E3 E4 E5 E6 E7 E8.
  rewrite E1, E2, E3, E4, E5, E6.
  rewrite !same_num_refl, !Bool.eqb_reflx. reflexivity.
Qed.

Lemma commit_first p0 s0 w :
  PendingAt p0 s0 w ->
  PendingAt (props w) (st w) (React.commit w) /\
  cells (React.commit w) = cells w /\
  props (React.commit w) = props w /\
  videoRef (React.commit w) = negb (errored w) /\
  (errored w = true -> st (React.commit w) = st w).
Proof.
  intros P. pose proof P as [Hm Hr Hi Hc Hk He].
  destruct (sync_refs_spec _ _ _ P) as (Ew & Es & Ev & Eo).
  unfold React.commit. rewrite Hm. simpl negb. cbv iota.
  unfold seq. rewrite Hr.
  assert (Mid (closureOf (props w) (st w)) (isPlaying (st w)) false false
            (React.sync_refs w)
            (React.update_effects p0 s0 (props w) (st w) (React.sync_refs w))) as M.
  { unfold wiring in Ew.
    assert (wiringInit (React.sync_refs w) = wiringInit w) as Ei by congruence.
    assert (wiringCtl (React.sync_refs w) = wiringCtl w) as Ec by congruence.
    destruct (wiringCtl_parts _ _ Ec) as [_ Ek].
    apply update_effects_spec.
    - eapply WiredInit_frame; eassumption.
    - eapply WiredCtl_frame; eassumption.
    - rewrite Ev, Ek. intros Hv. apply Hk.
      destruct (videoRef w) eqn:V; [reflexivity|].
      rewrite (He eq_refl) in Hv. discriminate. }
  revert M Ew Es Ev Eo.
  generalize (React.sync_refs w). intros wa M Ew Es Ev Eo.
  revert M.
  generalize (React.update_effects p0 s0 (props w) (st w) wa). intros w9 M.
  destruct M as [M1 M2 _ _ M5 M6 M7].
  assert (cells w9 = cells w /\ videoRef w9 = negb (errored w) /\
          mounted w9 = true /\ props w9 = props w) as (Rc & Rv & Rm & Rp).
  { unfold rest, cells, cellsOf in *. injection M6 as ?. injection Eo as ?.
    repeat split; congruence. }
  split; [split|repeat split]; simpl.
  - exact Rm.
  - reflexivity.
  - apply WiredInit_frame with (w := w9); [reflexivity | exact M1].
  - apply WiredCtl_frame with (w := w9); [reflexivity | exact M2].
  - intros Hv. apply (M5 eq_refl). congruence.
  - intros Hv. unfold errored. simpl. rewrite M7, Es by congruence.
    rewrite Rv in Hv. apply negb_false_iff in Hv. exact Hv.
  - exact Rc.
  - exact Rp.
  - exact Rv.
  - intros Hv. rewrite M7, Es; [reflexivity|].
    rewrite Ev, Hv. reflexivity.
Qed.

Lemma commit_quiet s0 w :
  mounted w = true -> rendered w = Some (props w, s0) ->
  depsOf s0 = depsOf (st w) ->
  React.commit w = set_rendered (Some (props w, st w)) (React.sync_refs w).
Proof.
  intros Hm Hr Hc. unfold React.commit. rewrite Hm. simpl negb. cbv iota.
  unfold seq. rewrite Hr. rewrite update_effects_quiet by exact Hc.
  reflexivity.
Qed.

(** Flushing the effects after a handler re-establishes stability, and
    changes neither the props nor any state cell but [error] and
    [isBuffering]. *)
Lemma flush_stable p0 s0 w :
  PendingAt p0 s0 w ->
  Stable (React.flush w) /\
  cells (React.flush w) = cells w /\
  props (React.flush w) = props w /\
  mounted (React.flush w) = true /\
  (errored w = true -> st (React.flush w) = st w).
Proof.
  intros P. unfold React.flush, seq.
  destruct (commit_first _ _ _ P) as (P1 & Ec1 & Ep1 & Ev1 & Ee1).
  revert P1 Ec1 Ep1 Ev1 Ee1. generalize (React.commit w). intros w1 P1 Ec1 Ep1 Ev1 Ee1.
  pose proof P1 as [Hm Hr Hi Hc Hk He].
  rewrite <- Ep1 in Hr.
  rewrite (commit_quiet (st w) w1 Hm Hr (cells_deps _ _ (eq_sym Ec1))).
  destruct (sync_refs_spec _ _ _ P1) as (Ew & Es & Ev & Eo).
  revert Ew Es Ev Eo. generalize (React.sync_refs w1). intros w2 Ew Es Ev Eo.
  assert (mounted w2 = mounted w1) as Eo2 by congruence.
  assert (props w2 = props w1) as Eo3 by congruence.
  clear Eo.
  unfold wiring in Ew.
  assert (wiringInit w2 = wiringInit w1) as Ewi by congruence.
  assert (wiringCtl w2 = wiringCtl w1) as Ewc by congruence.
  destruct (wiringCtl_parts _ _ Ewc) as [_ Ek].
  assert (errored w2 = errored w1) as Ee by (unfold errored; rewrite Es; reflexivity).
  split; [left; split; [split|]|repeat split]; simpl.
  - congruence.
  - congruence.
  - apply WiredInit_frame with (w := w1); [exact Ewi|].
    rewrite Eo3, Ep1, Es.
    rewrite <- (cells_closureOf (props w) (st w) (st w1) (eq_sym Ec1)). exact Hi.
  - apply WiredCtl_frame with (w := w1); [exact Ewc|].
    rewrite Es, <- (cells_isPlaying (st w) (st w1) (eq_sym Ec1)). exact Hc.
  - rewrite Ek, Ev. intros Hv. apply Hk.
    destruct (videoRef w1) eqn:V; [reflexivity|].
    rewrite (He eq_refl) in Hv. discriminate.
  - rewrite Ev. intros Hv. apply negb_false_iff in Hv.
    unfold errored in *. simpl. rewrite Es. exact Hv.
  - unfold errored in *. simpl. rewrite Es. exact Ev.
  - unfold cells in *. simpl. congruence.
  - congruence.
  - congruence.
  - intros Hv. rewrite Es. auto.
Qed.

(** ** Handlers keep the wiring consistent *)

Lemma PendingAt_frame p0 s0 w w' :
  frameOf w' = frameOf w ->
  (errored w = true -> errored w' = true) ->
  PendingAt p0 s0 w -> PendingAt p0 s0 w'.
Proof.
  unfold frameOf. intros E He [Hm Hr Hi Hc Hk Hx].
  assert (wiring w' = wiring w) as Ew by congruence.
  assert (rendered w' = rendered w) as Er by congruence.
  assert (mounted w' = mounted w) as Em by congruence.
  assert (videoRef w' = videoRef w) as Ev by congruence.
  clear E. unfold wiring in Ew.
  assert (wiringInit w' = wiringInit w) as Ewi by congruence.
  assert (wiringCtl w' = wiringCtl w) as Ewc by congruence.
  destruct (wiringCtl_parts _ _ Ewc) as [_ Ek].
  split.
  - congruence.
  - congruence.
  - eapply WiredInit_frame; eassumption.
  - eapply WiredCtl_frame; eassumption.
  - rewrite Ev, Ek. exact Hk.
  - rewrite Ev. auto.
Qed.

Lemma showControlsWithTimeout_outside ip :
  Preserves (fun w => (wiringInit w, rendered w, mounted w, videoRef w, errored w,
                       keydownListener w, props w, now w, containerListeners w))
            (showControlsWithTimeout ip).
Proof.
  intros w.
  unfold showControlsWithTimeout, clearControlsTimeout, Dom.setTimeout,
    Dom.clearTimeout, seq.
  cases; reflexivity.
Qed.

Lemma fireTimers_outside :
  Preserves (fun w => (wiringInit w, rendered w, mounted w, videoRef w,
                       keydownListener w, props w, containerListeners w))
            fireTimers.
Proof.
  intros w. unfold fireTimers, seq.
  match goal with |- context [each ?f ?l ?w0] =>
    pose proof (each_callbacks_outside l w0) as E;
    revert E; generalize (each f l w0); intros w1 E
  end.
  unfold wiring, wiringInit, wiringCtl in *. simpl in *. congruence.
Qed.

Lemma tick_outside dt :
  Preserves (fun w => (wiringInit w, rendered w, mounted w, videoRef w,
                       keydownListener w, props w, containerListeners w))
            (handle (Tick dt)).
Proof.
  intros w. simpl handle. unfold seq.
  rewrite (fireTimers_outside (set_now (now w + dt)%nat w)). reflexivity.
Qed.

Lemma fireTimers_errored w : errored (fireTimers w) = errored w.
Proof.
  unfold fireTimers, seq. rewrite each_errored; [reflexivity|].
  intros t w'. unfold hideControlsCallback, when. cases; reflexivity.
Qed.

Lemma handle_pending e w :
  PendingAt (props w) (st w) w -> e <> Unmount ->
  PendingAt (props w) (st w) (handle e w).
Proof.
  intros P Hu. pose proof P as [Hm Hr Hi Hc Hk Hx].
  destruct (quietEvent e) eqn:Q.
  - apply PendingAt_frame with (w := w); [|apply handle_errored|exact P].
    + apply handle_frame; [apply Hi | exact Q].
    + apply Hi.
  - destruct e; try discriminate Q; try contradiction; simpl handle.
    + (* MouseMove *)
      unfold dispatchContainer.
      destruct (videoRef w) eqn:Ev; [|exact P].
      destruct (containerListeners w) as [b|] eqn:Ek; [|exact P].
      assert (b = isPlaying (st w)) as -> by (apply Hc; exact Ek).
      unfold handleMouseMove.
      assert (containerListeners w <> None) as Hn by (rewrite Ek; discriminate).
      destruct (showControlsWithTimeout_wired _ _ Hc Hn) as [Hc' _].
      pose proof (showControlsWithTimeout_outside (isPlaying (st w)) w) as E.
      revert Hc' E.
      generalize (showControlsWithTimeout (isPlaying (st w)) w). intros w' Hc' E.
      assert (wiringInit w' = wiringInit w) as Ei by congruence.
      split; try congruence.
      eapply WiredInit_frame; eassumption.
    + (* Tick *)
      pose proof (fireTimers_wired _ _ (WiredCtl_frame _ w (set_now (now w + dt)%nat w) eq_refl Hc)) as Hc'.
      pose proof (tick_outside dt w) as E.
      pose proof (fireTimers_errored (set_now (now w + dt)%nat w)) as Ee.
      simpl handle in E. unfold seq in *. revert Hc' E Ee.
      generalize (fireTimers (set_now (now w + dt)%nat w)). intros w' Hc' E Ee.
      assert (wiringInit w' = wiringInit w) as Ei by congruence.
      assert (videoRef w' = videoRef w) as Ev by congruence.
      assert (containerListeners w' = containerListeners w) as Ek by congruence.
      assert (errored w' = errored w) as Ee' by exact Ee.
      split; try congruence.
      * eapply WiredInit_frame; eassumption.
      * rewrite Ev, Ek. exact Hk.
      * rewrite Ev, Ee'. exact Hx.
Qed.

Lemma unmount_unmounted p0 s0 w :
  PendingAt p0 s0 w -> Unmounted (React.unmount w).
Proof.
  intros [Hm Hr Hi Hc Hk Hx]. unfold React.unmount. rewrite Hm. simpl negb. cbv iota.
  unfold seq.
  pose proof (run_init_cleanup_wired _ (closureOf p0 s0) _ Hi) as Hi1.
  pose proof (run_init_cleanup_none w) as Hn1.
  pose proof (run_init_cleanup_ctl w) as Ec1.
  revert Hi1 Hn1 Ec1. generalize (React.run_init_cleanup w). intros w1 Hi1 Hn1 Ec1.
  pose proof (WiredCtl_frame _ _ _ Ec1 Hc) as Hc1.
  destruct (run_controls_cleanup_wired _ _ Hc1) as [Ht2 Hk2].
  pose proof (run_controls_cleanup_init w1) as Ei2.
  revert Ht2 Hk2 Ei2. generalize (React.run_controls_cleanup w1). intros w2 Ht2 Hk2 Ei2.
  pose proof (WiredInit_frame _ _ _ Ei2 Hi1) as [Hl2 _ Hh2].
  assert (initCleanup w2 = None) as Hn2.
  { rewrite (wiringInit_initCleanup _ _ Ei2). exact Hn1. }
  rewrite Hn2 in Hl2.
  split; simpl; auto.
Qed.

Lemma handle_unmounted e w : Unmounted w -> Unmounted (handle e w).
Proof.
  intros U. pose proof U as [Hm Hr Hv Hl Hi Hh Ht Hk Hy Hf].
  destruct e; simpl handle;
    try (unfold markup; rewrite Hm; exact U).
  - unfold dispatchMedia. rewrite Hl. exact U.
  - split; simpl; assumption.
  - split; simpl; assumption.
  - split; simpl; assumption.
  - unfold dispatchEngine. rewrite Hh. exact U.
  - unfold dispatchContainer. rewrite Hv. exact U.
  - unfold dispatchContainer. rewrite Hv. exact U.
  - unfold dispatchContainer. rewrite Hv. exact U.
  - rewrite Hy. exact U.
  - rewrite Hf. unfold when, seq, skip. split; simpl; assumption.
  - unfold fireTimers, seq.
    change (timers (set_now (now w + dt)%nat w)) with (timers w).
    rewrite Ht. simpl. unfold skip. split; simpl; auto.
  - unfold React.unmount. rewrite Hm. exact U.
Qed.

Lemma flush_unmounted w : mounted w = false -> React.flush w = w.
Proof.
  intros H. unfold React.flush, seq, React.commit. rewrite H. simpl. rewrite H. reflexivity.
Qed.

Theorem step_stable e w : Stable w -> Stable (step e w).
Proof.
  intros [[P Hv]|U]; unfold step, seq.
  - assert (e = Unmount \/ e <> Unmount) as [->|Hu].
    { destruct e; (left; reflexivity) || (right; discriminate). }
    + pose proof (unmount_unmounted _ _ _ P) as U. simpl handle.
      rewrite flush_unmounted by apply U. right. exact U.
    + apply (flush_stable (props w) (st w)). apply handle_pending; assumption.
  - pose proof (handle_unmounted e _ U) as U'.
    rewrite flush_unmounted by apply U'. right. exact U'.
Qed.

(** ** The first render *)

Lemma mount_effects_spec p s w :
  initCleanup w = None -> v_listeners (video w) = [] -> hlsRef w = None ->
  timers w = [] -> containerListeners w = None ->
  Mid (closureOf p s) (isPlaying s) false false w (React.mount_effects p s w).
Proof.
  intros Hi Hl Hh Ht Hk.
  assert (Mid (closureOf p s) (isPlaying s) true true w w) as M0.
  { split; auto; try discriminate.
    - split; rewrite ?Hi; auto. discriminate.
    - apply WiredCtl_empty; assumption. }
  unfold React.mount_effects, seq.
  do 2 (apply Mid_small; [auto with frame|]).
  apply (Mid_controls _ (isPlaying s) s false true); [discriminate|].
  apply (Mid_videoInit p s (isPlaying s) true true).
  do 3 (apply Mid_small; [auto with frame|]).
  exact M0.
Qed.

Lemma mount_first hs nh p :
  let w1 := React.commit (boot hs nh p) in
  PendingAt p initialState w1 /\
  cells w1 = cellsOf initialState /\ props w1 = p.
Proof.
  change (React.commit (boot hs nh p))
    with (set_rendered (Some (p, initialState))
            (React.mount_effects p initialState (React.sync_refs (boot hs nh p)))).
  cbv zeta.
  set (wa := React.sync_refs (boot hs nh p)).
  assert (initCleanup wa = None /\ v_listeners (video wa) = [] /\
          hlsRef wa = None /\ timers wa = [] /\ containerListeners wa = None /\
          rest wa = (cellsOf initialState, true, true, p, None, 0%nat, hs, nh) /\
          st wa = initialState) as (Hi & Hl & Hh & Ht & Hk & Hr & Hs).
  { repeat split. }
  clearbody wa.
  pose proof (mount_effects_spec p initialState wa Hi Hl Hh Ht Hk) as M.
  revert M. generalize (React.mount_effects p initialState wa). intros w9 M.
  destruct M as [M1 M2 _ _ M5 M6 M7].
  rewrite Hr in M6. unfold rest in M6.
  assert (cells w9 = cellsOf initialState) as Rc by congruence.
  assert (videoRef w9 = true) as Rv by congruence.
  assert (mounted w9 = true) as Rm by congruence.
  assert (props w9 = p) as Rp by congruence.
  assert (videoRef wa = true) as Rva by (unfold rest in Hr; congruence).
  split; [split|split]; simpl; auto.
  - apply WiredInit_frame with (w := w9); [reflexivity | exact M1].
  - apply WiredCtl_frame with (w := w9); [reflexivity | exact M2].
  - congruence.
Qed.

(** Once the effects of a render have run, the next commit only records
    the render. *)
Lemma settle s w1 :
  PendingAt (props w1) s w1 -> depsOf s = depsOf (st w1) ->
  let w2 := React.commit w1 in
  Stable w2 /\ cells w2 = cells w1 /\ props w2 = props w1 /\
  mounted w2 = true /\ st w2 = st w1 /\ wiring w2 = wiring w1 /\
  keydownListener w2 = keydownListener w1 /\ log w2 = log w1 /\
  video w2 = video w1.
Proof.
  intros P1 Ec1. pose proof P1 as [Hm Hr Hi Hc Hk He].
  simpl. rewrite (commit_quiet s w1 Hm Hr Ec1).
  destruct (sync_refs_spec _ _ _ P1) as (Ew & Es & Ev & Eo).
  assert (log (React.sync_refs w1) = log w1 /\
          video (React.sync_refs w1) = video w1) as [El Evd].
  { unfold React.sync_refs, errored in *.
    destruct (error (st w1)); [split; reflexivity|].
    destruct (videoRef w1); [split; reflexivity|].
    specialize (He eq_refl). discriminate. }
  revert Ew Es Ev Eo El Evd. generalize (React.sync_refs w1).
  intros w2 Ew Es Ev Eo El Evd.
  assert (mounted w2 = mounted w1) as Eo2 by congruence.
  assert (props w2 = props w1) as Eo3 by congruence.
  assert (keydownListener w2 = keydownListener w1) as Eo4 by congruence.
  clear Eo.
  pose proof Ew as Ew'. unfold wiring in Ew.
  assert (wiringInit w2 = wiringInit w1) as Ewi by congruence.
  assert (wiringCtl w2 = wiringCtl w1) as Ewc by congruence.
  destruct (wiringCtl_parts _ _ Ewc) as [_ Ek].
  split; [left; split; [split|]|repeat split]; simpl.
  - congruence.
  - congruence.
  - apply WiredInit_frame with (w := w1); [exact Ewi|].
    rewrite Eo3, Es.
    rewrite <- (deps_closureOf (props w1) s (st w1) Ec1). exact Hi.
  - apply WiredCtl_frame with (w := w1); [exact Ewc|].
    rewrite Es, <- (deps_isPlaying s (st w1) Ec1). exact Hc.
  - rewrite Ek, Ev. intros Hv. apply Hk.
    destruct (videoRef w1) eqn:V; [reflexivity|].
    rewrite (He eq_refl) in Hv. discriminate.
  - rewrite Ev. intros Hv. apply negb_false_iff in Hv.
    unfold errored in *. simpl. rewrite Es. exact Hv.
  - unfold errored in *. simpl. rewrite Es. exact Ev.
  - unfold cells in *. simpl. congruence.
  - congruence.
  - congruence.
  - exact Es.
  - exact Ew'.
  - exact Eo4.
  - exact El.
  - exact Evd.
Qed.

Theorem mount_stable hs nh p : Stable (mount hs nh p).
Proof.
  unfold mount, React.flush, seq.
  destruct (mount_first hs nh p) as (P & Ec & Ep).
  revert P Ec Ep. generalize (React.commit (boot hs nh p)). intros w1 P Ec Ep.
  rewrite <- Ep in P.
  apply (settle initialState w1 P (cells_deps _ _ (eq_sym Ec))).
Qed.

Theorem reachable_stable w : reachable w -> Stable w.
Proof.
  induction 1 as [hs nh p | e w _ IH].
  - apply mount_stable.
  - apply step_stable. exact IH.
Qed.

(** A handler that changed no dependency is followed by a flush that runs
    no effect: only the markup and the record of the render move. *)
Lemma flush_quiet s0 w :
  PendingAt (props w) s0 w -> depsOf s0 = depsOf (st w) ->
  st (React.flush w) = st w /\ log (React.flush w) = log w /\
  wiring (React.flush w) = wiring w /\
  keydownListener (React.flush w) = keydownListener w /\
  video (React.flush w) = video w /\
  videoRef (React.flush w) = negb (errored w) /\
  now (React.flush w) = now w.
Proof.
  intros P Ec. unfold React.flush, seq.
  destruct (commit_first _ _ _ P) as (P1 & Ec1 & Ep1 & Ev1 & _).
  pose proof P as [Hm Hr _ _ _ He].
  pose proof (commit_quiet s0 w Hm Hr Ec) as Eq.
  assert (st (React.commit w) = st w /\ log (React.commit w) = log w /\
          wiring (React.commit w) = wiring w /\
          keydownListener (React.commit w) = keydownListener w /\
          video (React.commit w) = video w /\
          now (React.commit w) = now w) as (A1 & A2 & A3 & A4 & A5 & A6).
  { rewrite Eq. unfold React.sync_refs, errored in *.
    destruct (error (st w)); [repeat split|].
    destruct (videoRef w); [repeat split|].
    specialize (He eq_refl). discriminate. }
  clear Eq. revert P1 Ec1 Ep1 Ev1 A1 A2 A3 A4 A5 A6.
  generalize (React.commit w). intros w1 P1 Ec1 Ep1 Ev1 A1 A2 A3 A4 A5 A6.
  rewrite <- Ep1, <- A1 in P1.
  destruct (settle (st w1) w1 P1 eq_refl) as (S & _ & _ & Bm & B1 & B2 & B3 & B4 & B5).
  assert (now (React.commit w1) = now w1) as B6.
  { pose proof P1 as [Hm1 Hr1 _ _ _ He1].
    rewrite (commit_quiet (st w1) w1 Hm1 Hr1 eq_refl).
    unfold React.sync_refs, errored in *.
    destruct (error (st w1)); [reflexivity|].
    destruct (videoRef w1); [reflexivity|].
    specialize (He1 eq_refl). discriminate. }
  assert (videoRef (React.commit w1) = negb (errored (React.commit w1))) as B7.
  { destruct S as [[_ Hv]|U]; [exact Hv|].
    destruct U as [Um]. congruence. }
  revert B1 B2 B3 B4 B5 B6 B7. generalize (React.commit w1).
  intros w2 B1 B2 B3 B4 B5 B6 B7.
  repeat split; try congruence.
  rewrite B7. unfold errored. rewrite B1, A1. reflexivity.
Qed.

(** * The behaviour of the player *)

(** ** Sample inputs *)

Definition liveHls : Props :=
  {| streamUrl := "http://tv.example/live/7.m3u8"; streamType := live;
     streamInfo := Some "News"; onBack := true; episodeData := None |}.

Definition movieHls : Props :=
  {| streamUrl := "http://tv.example/live/7.m3u8"; streamType := movie;
     streamInfo := Some "News"; onBack := true; episodeData := None |}.

Definition movieMp4 : Props :=
  {| streamUrl := "http://tv.example/movie/12.mp4"; streamType := movie;
     streamInfo := Some "Film"; onBack := true; episodeData := None |}.

Definition otherMp4 : Props :=
  {| streamUrl := "http://tv.example/movie/13.mp4"; streamType := movie;
     streamInfo := Some "Sequel"; onBack := true; episodeData := None |}.

Definition episodeMp4 (next : option string) : Props :=
  {| streamUrl := "http://tv.example/series/3.mp4"; streamType := episode;
     streamInfo := Some "Pilot"; onBack := true;
     episodeData :=
       Some {| ref := 1%nat;
               target := {| seriesId := Some "3"; seasonNumber := Some 1%nat;
                            episodeNumber := Some 1%nat;
                            totalEpisodes := Some 8%nat;
                            nextEpisodeId := next; prevEpisodeId := None |} |} |}.

Definition networkFault : ErrorData :=
  {| fatal := true; type := NETWORK_ERROR; details := "manifestLoadError" |}.

Definition mediaFault : ErrorData :=
  {| fatal := true; type := MEDIA_ERROR; details := "bufferStalledError" |}.

(** Calls of the engine's recovery primitives. *)
Definition isRecoveryCall (c : Call) : bool :=
  match c with
  | HlsStartLoad | HlsRecoverMediaError => true
  | _ => false
  end.

(** ** Fatal engine faults *)

(** In this player the first fatal Network fault of a session (and likewise
    the first fatal Media fault) already shows the error screen, and no
    restart-load or recover-media-error call is issued. *)
Lemma first_fatal_fault_is_terminal :
  (let w := step (Engine ERROR networkFault) (mount true false liveHls) in
   error (st w) = Some "Playback error: manifestLoadError" /\
   videoRef w = false /\
   filter isRecoveryCall (log w) = []) /\
  (let w := step (Engine ERROR mediaFault) (mount true false liveHls) in
   error (st w) = Some "Playback error: bufferStalledError" /\
   videoRef w = false /\
   filter isRecoveryCall (log w) = []).
Proof. vm_compute. repeat split. Qed.

(** The error handler of this player has no ladder: every fatal engine
    fault, whatever its type, sets the error message and is logged, and no
    call is made on the engine; a non-fatal fault is only logged. *)
Theorem fatal_engine_fault_sets_error (w : World) (h : Hls) (data : ErrorData) :
  reachable w -> hlsRef w = Some h -> In ERROR (hls_handlers h) ->
  let w' := step (Engine ERROR data) w in
  hlsRef w' = hlsRef w /\
  (fatal data = true ->
     error (st w') = Some ("Playback error: " ++ details data) /\
     log w' = (log w ++ [ConsoleError ("HLS.js fatal error: " ++ details data)])%list) /\
  (fatal data = false ->
     st w' = st w /\
     log w' = (log w ++ [ConsoleWarn ("HLS.js non-fatal error: " ++ details data)])%list).
Proof.
  intros R Hh Hin. apply reachable_stable in R.
  destruct R as [[P _]|U]; [|destruct U; congruence].
  assert (existsb (HlsEvent_eqb ERROR) (hls_handlers h) = true) as Hex.
  { apply existsb_exists. exists ERROR. split; [exact Hin | reflexivity]. }
  assert (handle (Engine ERROR data) w = onHlsError data w) as Eh.
  { simpl handle. unfold dispatchEngine. rewrite Hh, Hex. reflexivity. }
  pose proof (handle_pending (Engine ERROR data) w P) as P'.
  specialize (P' ltac:(discriminate)).
  cbv zeta. unfold step, seq. rewrite Eh in *.
  assert (cells (onHlsError data w) = cells w /\ props (onHlsError data w) = props w /\
          hlsRef (onHlsError data w) = hlsRef w) as (Ec & Ep & Ehr).
  { unfold onHlsError, seq. destruct (fatal data); repeat split. }
  rewrite <- Ep in P'.
  destruct (flush_quiet (st w) _ P' (cells_deps _ _ (eq_sym Ec))) as (Fs & Fl & Fw & _).
  assert (hlsRef (React.flush (onHlsError data w)) = hlsRef (onHlsError data w)) as Fh.
  { unfold wiring, wiringInit in Fw. congruence. }
  rewrite Fs, Fl, Fh. clear.
  unfold onHlsError, seq.
  split; [|split]; intros; destruct (fatal data); try discriminate;
    repeat split.
Qed.

Lemma fatal_engine_fault_sets_error_witness :
  let w := mount true false liveHls in
  let w' := step (Engine ERROR networkFault) w in
  hlsRef w' = hlsRef w /\
  error (st w') = Some "Playback error: manifestLoadError".
Proof.
  assert (reachable (mount true false liveHls)) as R by constructor.
  destruct (fatal_engine_fault_sets_error (mount true false liveHls)
              {| hls_config := []; hls_source := Some "http://tv.example/live/7.m3u8";
                 hls_media := true; hls_handlers := [ERROR] |}
              networkFault R eq_refl (or_introl eq_refl)) as (H1 & H2 & _).
  split; [exact H1 | exact (proj1 (H2 eq_refl))].
Defined.

(** ** [seek] *)

Lemma seek_shape (dur : Q) (ip : bool) (t : Q) (w : World) :
  videoRef w = true ->
  let r := Js.Math_max 0 (Js.Math_min dur t) in
  let w' := seek dur ip t w in
  v_currentTime (video w') = r /\ currentTime (st w') = r /\
  cells w' = cells (setCurrentTime r w) /\ props w' = props w /\
  log w' = (log w ++ VideoSetCurrentTime r :: (if ip then [VideoPlay] else []))%list.
Proof.
  intros Hv. unfold seek. rewrite Hv.
  destruct ip; simpl; repeat split; rewrite <- app_assoc; reflexivity.
Qed.

(** The [seek] of the current render, which closes over the current
    [duration] and [isPlaying], writes [t] clamped to [[0, duration]] to the
    element and to the displayed time; it never changes the playing flag,
    and when the session was playing it asks the element to play again.
    (The arrow keys call the [seek] of the render in which the keyboard
    handler was registered, which can be an older one.) *)
Theorem seek_clamps_and_resumes (w : World) (t : Q) :
  videoRef w = true -> 0 <= duration (st w) ->
  let w' := seek (duration (st w)) (isPlaying (st w)) t w in
  let r := v_currentTime (video w') in
  0 <= r <= duration (st w) /\
  (0 <= t -> t <= duration (st w) -> r == t) /\
  (t < 0 -> r = 0) /\
  (duration (st w) < t -> r = duration (st w)) /\
  currentTime (st w') = r /\
  isPlaying (st w') = isPlaying (st w) /\
  (isPlaying (st w) = true ->
     isPlaying (st w') = true /\
     log w' = (log w ++ [VideoSetCurrentTime r; VideoPlay])%list).
Proof.
  intros Hv Hd. cbv zeta.
  destruct (seek_shape (duration (st w)) (isPlaying (st w)) t w Hv)
    as (E1 & E2 & E3 & _ & E5).
  assert (isPlaying (st (seek (duration (st w)) (isPlaying (st w)) t w))
          = isPlaying (st w)) as E4.
  { unfold cells, cellsOf in E3. simpl in E3. congruence. }
  rewrite E1, E2, E4, E5.
  repeat split.
  - apply clamp_bounds. exact Hd.
  - apply clamp_bounds. exact Hd.
  - apply clamp_inside.
  - intros Ht. apply clamp_below; assumption.
  - intros Ht. apply clamp_above; assumption.
  - assumption.
  - rewrite H. reflexivity.
Qed.

Definition playingAt (d t : Q) : World :=
  run [Metadata d; Media loadedmetadata; Media play; Playback t None;
       Media timeupdate] (mount true false movieMp4).

Lemma seek_clamps_and_resumes_witness :
  let w := playingAt 100 40 in
  let w' := seek (duration (st w)) (isPlaying (st w)) 250 w in
  v_currentTime (video w') = 100 /\ isPlaying (st w') = true.
Proof.
  assert (videoRef (playingAt 100 40) = true) as Hv by reflexivity.
  assert (0 <= duration (st (playingAt 100 40))) as Hd by (vm_compute; discriminate).
  destruct (seek_clamps_and_resumes (playingAt 100 40) 250 Hv Hd)
    as (_ & _ & _ & Habove & _ & _ & Hplay).
  split.
  - apply Habove. vm_compute. reflexivity.
  - apply Hplay. reflexivity.
Defined.

(** ** C9: [toggleMute] *)

(** C9: applying [toggleMute] twice returns the element's muted flag to its
    value, and with it the [isMuted] cell that mirrors the flag on every
    [volumechange]. *)
Theorem toggleMute_involution (w : World) :
  v_muted (video (toggleMute (toggleMute w))) = v_muted (video w) /\
  (isMuted (st w) = v_muted (video w) ->
   isMuted (st (handleVolumeChange (toggleMute (handleVolumeChange (toggleMute w)))))
   = isMuted (st w)).
Proof.
  unfold toggleMute, handleVolumeChange, seq, Dom.video_set_muted.
  destruct (videoRef w) eqn:Hv; simpl; rewrite ?Hv; simpl.
  - rewrite negb_involutive. split; [reflexivity | intros H; symmetry; exact H].
  - split; [reflexivity | intros H; symmetry; exact H].
Qed.

Lemma toggleMute_involution_witness :
  let w := mount true false movieMp4 in
  v_muted (video (toggleMute (toggleMute w))) = v_muted (video w) /\
  isMuted (st (handleVolumeChange (toggleMute (handleVolumeChange (toggleMute w)))))
  = isMuted (st w).
Proof.
  destruct (toggleMute_involution (mount true false movieMp4)) as [H1 H2].
  split; [exact H1 | apply H2; reflexivity].
Defined.

(** ** Steps of a stable world *)

Lemma Stable_mounted w :
  Stable w -> mounted w = true -> PendingAt (props w) (st w) w.
Proof. intros [[P _]|U] Hm; [exact P | destruct U; congruence]. Qed.

Lemma Stable_videoRef w : Stable w -> videoRef w = true -> mounted w = true.
Proof. intros [[P _]|U] Hv; [apply P | destruct U; congruence]. Qed.

(** The flush that ends a step changes neither the props nor any state
    cell but [error] and [isBuffering]. *)
Lemma step_cells e w :
  Stable w ->
  cells (step e w) = cells (handle e w) /\ props (step e w) = props (handle e w).
Proof.
  intros S. unfold step, seq.
  destruct S as [[P _]|U].
  - assert (e = Unmount \/ e <> Unmount) as [->|Hu].
    { destruct e; (left; reflexivity) || (right; discriminate). }
    + rewrite flush_unmounted; [split; reflexivity|].
      apply (unmount_unmounted _ _ _ P).
    + pose proof (handle_pending e w P Hu) as P'.
      destruct (flush_stable _ _ _ P') as (_ & Ec & Ep & _). split; assumption.
  - rewrite flush_unmounted; [split; reflexivity|].
    apply (handle_unmounted e w U).
Qed.

(** A step whose handler changes no dependency of an effect is the handler
    alone, as far as state, wiring, element and log go. *)
Lemma step_quiet e w :
  Stable w -> e <> Unmount ->
  depsOf (st (handle e w)) = depsOf (st w) -> props (handle e w) = props w ->
  st (step e w) = st (handle e w) /\ log (step e w) = log (handle e w) /\
  wiring (step e w) = wiring (handle e w) /\
  keydownListener (step e w) = keydownListener (handle e w) /\
  video (step e w) = video (handle e w) /\
  now (step e w) = now (handle e w).
Proof.
  intros S Hu Ec Ep. unfold step, seq.
  destruct S as [[P _]|U].
  - pose proof (handle_pending e w P Hu) as P'.
    rewrite <- Ep in P'.
    destruct (flush_quiet (st w) _ P' (eq_sym Ec)) as (A & B & C & D & E & _ & F).
    repeat split; assumption.
  - rewrite flush_unmounted; [repeat split|].
    apply (handle_unmounted e w U).
Qed.

(** In a stable world a media event runs the handler of the current
    render. *)
Lemma handle_media e w :
  Stable w ->
  handle (Media e) w =
  match initCleanup w with
  | Some _ => mediaHandler e (closureOf (props w) (st w)) w
  | None => w
  end.
Proof.
  intros S. simpl handle.
  assert (WiredInit (closureOf (props w) (st w)) w) as [Hl Hc _].
  { destruct S as [[P _]|U]; [apply P|].
    destruct U as [_ _ _ Ul Ui Uh _ _ _ _].
    split; try congruence. rewrite Ui. exact Ul. }
  rewrite (dispatchMedia_wired _ _ Hl).
  destruct (initCleanup w) as [c|] eqn:E; [|reflexivity].
  rewrite (Hc c eq_refl). reflexivity.
Qed.

(** ** C2: scrubbing *)

Definition isSeekCall (c : Call) : bool :=
  match c with
  | VideoSetCurrentTime _ => true
  | _ => false
  end.

Definition loadedAt (d : Q) : World :=
  run [Metadata d; Media loadedmetadata] (mount true false movieMp4).



Lemma reachable_run tr w : reachable w -> reachable (run tr w).
Proof.
  revert w. induction tr as [|e r IH]; intros w R; simpl.
  - exact R.
  - unfold seq. apply IH. constructor. exact R.
Qed.


(** ** C6: end of stream *)

(** Calls of a callback the hosting page passed in. *)
Definition isCallerCall (c : Call) : bool :=
  match c with
  | PropsOnBack => true
  | _ => false
  end.

Definition callerCalls (w : World) : list Call := filter isCallerCall (log w).

(** No effect calls back into the page. *)
Ltac no_callback :=
  intros w; unfold callerCalls; cases; simpl;
  rewrite ?filter_app; simpl; rewrite ?app_nil_r; reflexivity.

Lemma callerCalls_run_init_cleanup : Preserves callerCalls React.run_init_cleanup.
Proof.
  intros w. unfold React.run_init_cleanup, videoInit_cleanup, hls_teardown, seq.
  revert w. no_callback.
Qed.

Lemma callerCalls_call c :
  isCallerCall c = false -> Preserves callerCalls (call c).
Proof.
  intros H w. unfold callerCalls. simpl. rewrite filter_app. simpl.
  rewrite H. apply app_nil_r.
Qed.

Lemma callerCalls_with_st f : Preserves callerCalls (with_st f).
Proof. intros w. reflexivity. Qed.

Lemma callerCalls_with_video f : Preserves callerCalls (with_video f).
Proof. intros w. reflexivity. Qed.

Lemma callerCalls_set_hlsRef h : Preserves callerCalls (set_hlsRef h).
Proof. intros w. reflexivity. Qed.

Lemma callerCalls_with_hls f : Preserves callerCalls (Engine.with_hls f).
Proof. intros w. reflexivity. Qed.

Lemma callerCalls_set_initCleanup c : Preserves callerCalls (set_initCleanup c).
Proof. intros w. reflexivity. Qed.

(** Structural descent through a command; [leaf] closes the primitives. *)
Ltac descend leaf :=
  lazymatch goal with
  | |- Preserves _ (seq _ _) => apply Preserves_seq; descend leaf
  | |- Preserves _ (if _ then _ else _) => apply Preserves_if; descend leaf
  | |- Preserves _ (when _ _) => apply Preserves_when; descend leaf
  | |- Preserves _ (each _ _) =>
      apply Preserves_each; intros ?; cbv beta; descend leaf
  | |- Preserves _ skip => apply Preserves_skip
  | |- _ => leaf tt
  end.

Ltac callback_leaf _ :=
  lazymatch goal with
  | |- Preserves _ (call _) => apply callerCalls_call; reflexivity
  | |- Preserves _ (with_st _) => apply callerCalls_with_st
  | |- Preserves _ (with_video _) => apply callerCalls_with_video
  | |- Preserves _ (set_hlsRef _) => apply callerCalls_set_hlsRef
  | |- Preserves _ (Engine.with_hls _) => apply callerCalls_with_hls
  | |- Preserves _ (set_initCleanup _) => apply callerCalls_set_initCleanup
  end.

Lemma callerCalls_videoInit p s : Preserves callerCalls (videoInit p s).
Proof.
  intros w. unfold videoInit.
  destruct (negb (videoRef w) || String.eqb (streamUrl p) ""); [reflexivity|].
  match goal with |- callerCalls (?c w) = _ =>
    assert (Preserves callerCalls c) as H
  end.
  { unfold setError, setIsBuffering, Dom.video_set_volume, Dom.video_set_muted,
      Dom.video_set_playbackRate, Dom.video_set_src, Dom.addEventListener,
      Dom.map_listeners, Engine.loadSource, Engine.attachMedia, Engine.on,
      put_v_volume, put_v_muted, put_v_playbackRate, put_v_src, Dom.load.
    descend callback_leaf. }
  apply H.
Qed.

Lemma callerCalls_run_controls_cleanup :
  Preserves callerCalls React.run_controls_cleanup.
Proof.
  intros w.
  unfold React.run_controls_cleanup, controls_cleanup, clearControlsTimeout,
    Dom.clearTimeout, seq.
  revert w. no_callback.
Qed.

Lemma callerCalls_controls s : Preserves callerCalls (controls s).
Proof. intros w. unfold controls. revert w. no_callback. Qed.

Lemma callerCalls_volume_effect s : Preserves callerCalls (volume_effect s).
Proof. intros w. unfold volume_effect. revert w. no_callback. Qed.

Lemma callerCalls_muted_effect s : Preserves callerCalls (muted_effect s).
Proof. intros w. unfold muted_effect. revert w. no_callback. Qed.

Lemma callerCalls_playbackRate_effect s :
  Preserves callerCalls (playbackRate_effect s).
Proof. intros w. unfold playbackRate_effect. revert w. no_callback. Qed.

Lemma callerCalls_set_keydownListener k :
  Preserves callerCalls (set_keydownListener k).
Proof. no_callback. Qed.

Lemma callerCalls_set_fullscreenListener b :
  Preserves callerCalls (set_fullscreenListener b).
Proof. no_callback. Qed.

Lemma callerCalls_set_rendered r : Preserves callerCalls (set_rendered r).
Proof. no_callback. Qed.

Lemma callerCalls_sync_refs : Preserves callerCalls React.sync_refs.
Proof. intros w. unfold React.sync_refs, seq. revert w. no_callback. Qed.

#[export] Hint Resolve callerCalls_run_init_cleanup callerCalls_videoInit
  callerCalls_run_controls_cleanup callerCalls_controls
  callerCalls_volume_effect callerCalls_muted_effect
  callerCalls_playbackRate_effect callerCalls_set_keydownListener
  callerCalls_set_fullscreenListener callerCalls_set_rendered
  callerCalls_sync_refs : frame.

Lemma callerCalls_commit : Preserves callerCalls React.commit.
Proof.
  intros w. unfold React.commit.
  destruct (negb (mounted w)); [reflexivity|].
  match goal with |- callerCalls (?c w) = _ =>
    assert (Preserves callerCalls c) as H
  end.
  { unfold React.mount_effects, React.update_effects.
    destruct (rendered w) as [[p0 s0]|]; auto 20 with frame. }
  apply H.
Qed.

Lemma callerCalls_flush : Preserves callerCalls React.flush.
Proof.
  unfold React.flush. apply Preserves_seq; apply callerCalls_commit.
Qed.

(** The test [handleEnded] makes, on the props and state of a render. *)
Definition autoAdvances (p : Props) (s : State) : bool :=
  StreamType_eqb (streamType p) episode
  && Js.truthy (nextEpisodeId_of (episodeData p))
  && autoPlayNext s.

(** C6, as stated, fails: at the end of an episode that has a next episode,
    with auto-advance on, nothing is handed to the caller: the step only
    writes a line to the console. *)
Lemma ended_signals_nothing :
  let w := run [Media play] (mount true false (episodeMp4 (Some "4"))) in
  let w' := step (Media ended) w in
  autoAdvances (props w) (st w) = true /\
  log w' = (log w ++ [ConsoleLog "Auto-playing next episode..."])%list /\
  callerCalls w' = [].
Proof. vm_compute. repeat split. Qed.

(** C6 (amended): on [ended] the playing flag is cleared and no callback of
    the caller is invoked; for an episode with a next-episode identifier and
    auto-advance on, the handler only logs a message; otherwise (in
    particular without a next-episode identifier) it emits nothing. *)
Theorem ended_only_logs (w : World) :
  reachable w -> initCleanup w <> None ->
  let w' := step (Media ended) w in
  isPlaying (st w') = false /\
  callerCalls w' = callerCalls w /\
  log (handle (Media ended) w) =
    (log w ++ (if autoAdvances (props w) (st w)
               then [ConsoleLog "Auto-playing next episode..."] else []))%list.
Proof.
  intros R Hi. apply reachable_stable in R. cbv zeta.
  destruct (step_cells (Media ended) w R) as [Ec _].
  assert (callerCalls (step (Media ended) w) = callerCalls (handle (Media ended) w)) as El.
  { unfold step, seq. apply callerCalls_flush. }
  rewrite El. clear El.
  rewrite (handle_media ended w R) in *.
  destruct (initCleanup w) as [c|]; [clear Hi|contradiction].
  simpl mediaHandler in *. unfold handleEnded, seq in *.
  change (StreamType_eqb (c_streamType (closureOf (props w) (st w))) episode
          && Js.truthy (nextEpisodeId_of (c_episodeData (closureOf (props w) (st w))))
          && c_autoPlayNext (closureOf (props w) (st w)))
    with (autoAdvances (props w) (st w)) in *.
  destruct (autoAdvances (props w) (st w)); simpl in *.
  - unfold cells, cellsOf in Ec. simpl in Ec.
    repeat split; try congruence.
    unfold callerCalls. simpl. rewrite filter_app. simpl. apply app_nil_r.
  - unfold cells, cellsOf in Ec. simpl in Ec. unfold skip.
    repeat split; try congruence. rewrite app_nil_r. reflexivity.
Qed.

Lemma ended_only_logs_witness :
  let w := run [Media play] (mount true false (episodeMp4 None)) in
  let w' := step (Media ended) w in
  isPlaying (st w') = false /\ callerCalls w' = callerCalls w /\
  log (handle (Media ended) w) = log w.
Proof.
  assert (reachable (run [Media play] (mount true false (episodeMp4 None)))) as R.
  { apply reachable_run. apply reachable_mount. }
  assert (initCleanup (run [Media play] (mount true false (episodeMp4 None))) <> None) as Hi.
  { vm_compute. discriminate. }
  destruct (ended_only_logs _ R Hi) as (H1 & H2 & H3).
  split; [exact H1 | split; [exact H2 |]].
  rewrite H3. vm_compute. reflexivity.
Defined.

(** ** Attaching an adaptive stream *)

Definition isPlayCall (c : Call) : bool :=
  match c with
  | VideoPlay => true
  | _ => false
  end.

Definition manifestParsed : ErrorData :=
  {| fatal := false; type := OTHER_ERROR; details := "manifest" |}.

(** The engine the component builds for an adaptive stream. *)
Definition defaultEngine (url : string) : Hls :=
  {| hls_config := []; hls_source := Some url; hls_media := true;
     hls_handlers := [ERROR] |}.

(** The calls of an attach through the engine. *)
Definition engineAttachCalls (s : State) (url : string) : list Call :=
  [VideoSetVolume (volume s); VideoSetMuted (isMuted s);
   VideoSetPlaybackRate (playbackRate s);
   HlsNew []; HlsLoadSource url; HlsAttachMedia; HlsOn ERROR]
  ++ map VideoAddEventListener mediaEvents.

(** In this player a live stream gets the same engine as a movie, built
    with no configuration at all, and neither the attach nor the
    manifest-parsed signal calls [play()]. *)
Lemma live_attach_has_no_profile :
  let wl := mount true false liveHls in
  let wm := mount true false movieHls in
  hlsRef wl = Some (defaultEngine "http://tv.example/live/7.m3u8") /\
  hlsRef wm = hlsRef wl /\
  filter isPlayCall (log wl) = [] /\
  log (step (Engine MANIFEST_PARSED manifestParsed) wl) = log wl.
Proof. vm_compute. repeat split. Qed.

Lemma endsWith_nonempty (s : string) :
  Js.endsWith s ".m3u8" = true -> String.eqb s "" = false.
Proof. destruct s; [discriminate | reflexivity]. Qed.

Lemma videoInit_engine p s w :
  videoRef w = true -> hlsSupported w = true ->
  Js.endsWith (streamUrl p) ".m3u8" = true ->
  hlsRef (videoInit p s w) = Some (defaultEngine (streamUrl p)) /\
  log (videoInit p s w) = (log w ++ engineAttachCalls s (streamUrl p))%list.
Proof.
  intros Hv Hs He. unfold videoInit.
  rewrite Hv, (endsWith_nonempty _ He), He, Hs. simpl orb. cbv iota.
  unfold seq. split.
  - reflexivity.
  - unfold engineAttachCalls. destruct w. cbv -[app].
    repeat rewrite <- app_assoc. reflexivity.
Qed.

(** What a mount leaves behind is what the effects of the first commit
    built. *)
Lemma mount_first_commit hs nh p :
  let w1 := React.mount_effects p initialState (React.sync_refs (boot hs nh p)) in
  st (mount hs nh p) = st w1 /\ log (mount hs nh p) = log w1 /\
  wiring (mount hs nh p) = wiring w1 /\ video (mount hs nh p) = video w1 /\
  cells (mount hs nh p) = cellsOf initialState /\
  keydownListener (mount hs nh p) = Some (keyClosureOf initialState).
Proof.
  cbv zeta. unfold mount, React.flush, seq.
  destruct (mount_first hs nh p) as (P & Ec & Ep).
  change (React.commit (boot hs nh p))
    with (set_rendered (Some (p, initialState))
            (React.mount_effects p initialState (React.sync_refs (boot hs nh p)))) in *.
  assert (keydownListener
            (React.mount_effects p initialState (React.sync_refs (boot hs nh p)))
          = Some (keyClosureOf initialState)) as Ek by reflexivity.
  revert P Ec Ep Ek.
  generalize (React.mount_effects p initialState (React.sync_refs (boot hs nh p))).
  intros w1 P Ec Ep Ek.
  rewrite <- Ep in P at 1.
  destruct (settle initialState _ P (cells_deps _ _ (eq_sym Ec)))
    as (_ & E & _ & _ & A & B & K & C & D).
  split; [exact A | split; [exact C | split; [exact B | split; [exact D | split]]]].
  - rewrite E. exact Ec.
  - rewrite K. exact Ek.
Qed.

(** Whatever the content kind, an attach of a stream whose URL ends in
    [.m3u8], in a browser that supports the engine, builds the engine with
    no configuration, loads the URL, binds the element and registers an
    error handler only; [play()] is called neither by the attach nor when
    the manifest-parsed signal fires. *)
Theorem attach_uses_default_engine (nh : bool) (p : Props) :
  Js.endsWith (streamUrl p) ".m3u8" = true ->
  let w := mount true nh p in
  hlsRef w = Some (defaultEngine (streamUrl p)) /\
  log w = ([VideoSetVolume (8 # 10); VideoSetMuted false; VideoSetPlaybackRate 1]
           ++ engineAttachCalls initialState (streamUrl p))%list /\
  filter isPlayCall (log w) = [] /\
  forall d, let w' := step (Engine MANIFEST_PARSED d) w in
            log w' = log w /\ st w' = st w.
Proof.
  intros He. cbv zeta.
  destruct (mount_first_commit true nh p) as (_ & El & Ew & _ & _ & _).
  cbv zeta in El, Ew.
  assert (hlsRef (mount true nh p) = Some (defaultEngine (streamUrl p)) /\
          log (mount true nh p) =
            ([VideoSetVolume (8 # 10); VideoSetMuted false; VideoSetPlaybackRate 1]
             ++ engineAttachCalls initialState (streamUrl p))%list) as [Hh Hl].
  { assert (hlsRef (mount true nh p) =
            hlsRef (React.mount_effects p initialState (React.sync_refs (boot true nh p)))) as ->.
    { unfold wiring, wiringInit in Ew. congruence. }
    rewrite El. clear El Ew.
    unfold React.mount_effects, seq.
    set (w0 := playbackRate_effect initialState
                 (muted_effect initialState
                    (volume_effect initialState (React.sync_refs (boot true nh p))))).
    assert (videoRef w0 = true /\ hlsSupported w0 = true /\
            log w0 = [VideoSetVolume (8 # 10); VideoSetMuted false;
                      VideoSetPlaybackRate 1]) as (Hv & Hs & Hl0).
    { repeat split. }
    clearbody w0.
    destruct (videoInit_engine p initialState w0 Hv Hs He) as [A B].
    revert A B. generalize (videoInit p initialState w0). intros w1 A B.
    simpl. unfold controls. destruct (videoRef w1); simpl; rewrite A, B, Hl0; split; reflexivity. }
  split; [exact Hh | split; [exact Hl | split]].
  - rewrite Hl. unfold engineAttachCalls. reflexivity.
  - intros d. cbv zeta.
    assert (handle (Engine MANIFEST_PARSED d) (mount true nh p) = mount true nh p) as Eh.
    { simpl handle. unfold dispatchEngine. rewrite Hh. reflexivity. }
    pose proof (mount_stable true nh p) as S.
    destruct (step_quiet (Engine MANIFEST_PARSED d) _ S) as (A & B & _).
    + discriminate.
    + rewrite Eh. reflexivity.
    + rewrite Eh. reflexivity.
    + rewrite Eh in A, B. split; assumption.
Qed.

Lemma attach_uses_default_engine_witness :
  hlsRef (mount true false liveHls)
  = Some (defaultEngine "http://tv.example/live/7.m3u8") /\
  filter isPlayCall (log (mount true false liveHls)) = [].
Proof.
  destruct (attach_uses_default_engine false liveHls eq_refl) as (H1 & _ & H2 & _).
  split; [exact H1 | exact H2].
Defined.

(** ** C10: seeking before the duration is known *)

(** Only the [loadedmetadata] handler sets [duration]. *)
Lemma handleKeyDown_duration k key w :
  duration (st (handleKeyDown k key w)) = duration (st w).
Proof.
  pose proof (handleKeyDown_cases k key w) as H. simpl in H.
  repeat (destruct H as [H|H]; [rewrite <- H; clear H|]); try contradiction;
    unfold togglePlayPause, toggleMute, toggleFullscreen, seek, changeVolume,
      when, seq; cases; reflexivity.
Qed.

Lemma each_duration {A} (f : A -> Cmd) (l : list A) :
  (forall x w, duration (st (f x w)) = duration (st w)) ->
  forall w, duration (st (each f l w)) = duration (st w).
Proof.
  intros H. induction l as [|x r IH]; intros w; simpl; [reflexivity|].
  unfold seq. rewrite IH. apply H.
Qed.

Lemma handle_duration e w :
  v_listeners (video w) = listenersOf (initCleanup w) ->
  e <> Media loadedmetadata ->
  duration (st (handle e w)) = duration (st w).
Proof.
  intros Hl Hne.
  destruct e; simpl handle;
    try (unfold markup; cases; [|reflexivity];
         unfold togglePlayPause, toggleMute, toggleFullscreen, changeVolume,
           changePlaybackRate, onProgressClick, onScrubChange, onScrubMouseUp,
           onScrubTouchEnd, onBackClick, onInfoClick, onSettingsClick,
           onSubtitlesClick, onAutoPlayNextClick, when, seq;
         cases; reflexivity).
  - rewrite (dispatchMedia_wired _ _ Hl).
    destruct (initCleanup w); [|reflexivity].
    destruct e; try congruence; simpl;
      unfold handleTimeUpdate, updateProgress, handleVolumeChange, handleError,
        handleEnded, when, seq; cases; reflexivity.
  - reflexivity.
  - reflexivity.
  - reflexivity.
  - unfold dispatchEngine, onHlsError, seq. destruct e; cases; reflexivity.
  - unfold dispatchContainer, handleMouseMove, showControlsWithTimeout,
      clearControlsTimeout, Dom.setTimeout, Dom.clearTimeout, seq.
    cases; reflexivity.
  - unfold dispatchContainer, handleMouseEnter. cases; reflexivity.
  - unfold dispatchContainer, handleMouseLeave, when. cases; reflexivity.
  - destruct (keydownListener w); [apply handleKeyDown_duration | reflexivity].
  - unfold handleFullscreenChange, when, seq. cases; reflexivity.
  - unfold fireTimers, seq.
    rewrite each_duration; [reflexivity|].
    intros t w'. unfold hideControlsCallback, when. cases; reflexivity.
  - unfold React.unmount, React.run_init_cleanup, React.run_controls_cleanup,
      videoInit_cleanup, controls_cleanup, clearControlsTimeout, hls_teardown, seq.
    cases; reflexivity.
Qed.

(** After a commit the [keydown] handler is the old one or the one of the
    render just committed. *)
Ltac key_leaf _ :=
  lazymatch goal with
  | |- Preserves _ React.run_init_cleanup => apply run_init_cleanup_key
  | |- Preserves _ React.run_controls_cleanup => apply run_controls_cleanup_key
  | |- Preserves _ (videoInit _ _) => apply videoInit_key
  | |- Preserves _ (controls _) => apply controls_key
  | |- Preserves _ (volume_effect _) => apply volume_effect_key
  | |- Preserves _ (muted_effect _) => apply muted_effect_key
  | |- Preserves _ (playbackRate_effect _) => apply playbackRate_effect_key
  end.

Lemma update_effects_key p0 s0 p s w :
  keydownListener (React.update_effects p0 s0 p s w) = keydownListener w \/
  keydownListener (React.update_effects p0 s0 p s w) = Some (keyClosureOf s).
Proof.
  unfold React.update_effects.
  destruct (React.key_changed s0 s).
  - right. unfold seq. reflexivity.
  - left.
    match goal with |- keydownListener (?c w) = _ =>
      assert (Preserves keydownListener c) as H
    end.
    { unfold when. cbv iota. descend key_leaf. }
    apply H.
Qed.

(** The invariant of a component whose [duration] is still the initial 0:
    the keyboard handler, whichever render it comes from, closes over 0
    too. *)
Definition durationUnknown (w : World) : Prop :=
  duration (st w) = 0 /\
  (mounted w = true ->
   exists k, keydownListener w = Some k /\ k_duration k = 0).

Lemma durationUnknown_flush p0 s0 w :
  PendingAt p0 s0 w -> durationUnknown w -> durationUnknown (React.flush w).
Proof.
  intros P [Hd Hk]. pose proof P as [Hm Hr _ _ _ He].
  destruct (Hk Hm) as (k & Ek & Ekd).
  destruct (flush_stable _ _ _ P) as (_ & Ec & _ & _ & _).
  assert (duration (st (React.flush w)) = 0) as Hd'.
  { unfold cells, cellsOf in Ec. congruence. }
  split; [exact Hd'|]. intros _.
  unfold React.flush, seq.
  destruct (commit_first _ _ _ P) as (P1 & Ec1 & Ep1 & _).
  assert (exists k1, keydownListener (React.commit w) = Some k1 /\ k_duration k1 = 0)
    as (k1 & Ek1 & Ekd1).
  { unfold React.commit. rewrite Hm. simpl negb. cbv iota. unfold seq. rewrite Hr.
    destruct (sync_refs_spec _ _ _ P) as (_ & _ & _ & Eo).
    assert (keydownListener (React.sync_refs w) = Some k) as Ek' by congruence.
    change (keydownListener (set_rendered ?r ?x)) with (keydownListener x).
    destruct (update_effects_key p0 s0 (props w) (st w) (React.sync_refs w)) as [E|E];
      rewrite E.
    - exists k. split; assumption.
    - exists (keyClosureOf (st w)). split; [reflexivity | exact Hd]. }
  revert P1 Ec1 Ep1 Ek1. generalize (React.commit w). intros w1 P1 Ec1 Ep1 Ek1.
  rewrite <- Ep1 in P1.
  destruct (settle (st w) w1 P1 (cells_deps _ _ (eq_sym Ec1))) as (_ & _ & _ & _ & _ & _ & Ek2 & _).
  exists k1. split; [congruence | exact Ekd1].
Qed.

Lemma durationUnknown_step e w :
  Stable w -> e <> Media loadedmetadata ->
  durationUnknown w -> durationUnknown (step e w).
Proof.
  intros S Hne [Hd Hk]. unfold step, seq.
  assert (v_listeners (video w) = listenersOf (initCleanup w)) as Hl.
  { destruct S as [[P _]|U]; [apply P|].
    destruct U as [_ _ _ Ul Ui _ _ _ _ _]. rewrite Ui. exact Ul. }
  pose proof (handle_duration e w Hl Hne) as Ed.
  destruct S as [[P _]|U].
  - assert (e = Unmount \/ e <> Unmount) as [->|Hu].
    { destruct e; (left; reflexivity) || (right; discriminate). }
    + pose proof (unmount_unmounted _ _ _ P) as U. simpl handle in *.
      rewrite flush_unmounted by apply U.
      split; [congruence|]. intros Hm. destruct U. congruence.
    + pose proof (handle_pending e w P Hu) as P'.
      apply (durationUnknown_flush _ _ _ P').
      split; [congruence|]. intros _.
      destruct (Hk (pending_mounted _ _ _ P)) as (k & Ek & Ekd).
      exists k. split; [|exact Ekd]. rewrite <- Ek.
      destruct (quietEvent e) eqn:Q.
      * pose proof (handle_frame e w Hl Q) as F. unfold frameOf in F. congruence.
      * destruct e; try discriminate Q; try contradiction.
        -- simpl handle. unfold dispatchContainer. cases; try reflexivity.
           match goal with |- context [handleMouseMove ?b w] =>
             pose proof (showControlsWithTimeout_outside b w) as F end.
           unfold handleMouseMove. cbv beta in F. congruence.
        -- pose proof (tick_outside dt w) as F. cbv beta in F. congruence.
  - pose proof (handle_unmounted e w U) as U'.
    rewrite flush_unmounted by apply U'.
    split; [congruence|]. intros Hm. destruct U'. congruence.
Qed.

Lemma durationUnknown_mount hs nh p : durationUnknown (mount hs nh p).
Proof.
  destruct (mount_first_commit hs nh p) as (_ & _ & _ & _ & Ec & Ek).
  split.
  - unfold cells, cellsOf in Ec. injection Ec as _ _ Ed. exact Ed.
  - intros _. exists (keyClosureOf initialState). split; [exact Ek | reflexivity].
Qed.

Lemma durationUnknown_run tr w :
  Stable w -> ~ In (Media loadedmetadata) tr ->
  durationUnknown w -> durationUnknown (run tr w) /\ Stable (run tr w).
Proof.
  revert w. induction tr as [|e r IH]; intros w S Hn D; simpl.
  - split; assumption.
  - unfold seq. apply IH.
    + apply step_stable. exact S.
    + intros Hin. apply Hn. right. exact Hin.
    + apply durationUnknown_step; [exact S| |exact D].
      intros ->. apply Hn. left. reflexivity.
Qed.

(** C10, as stated, fails for a session that is not the first: [duration]
    is not reset when a new stream is attached, so before [loadedmetadata]
    has fired for the new session it still holds the old value, and a
    forward arrow key advances. *)
Lemma second_session_keeps_duration :
  let w := run [Metadata 100; Media loadedmetadata; Media play;
                Playback 5 None; Media timeupdate; PropsChange otherMp4]
               (mount true false movieMp4) in
  c_streamUrl (closureOf (props w) (st w)) = "http://tv.example/movie/13.mp4" /\
  duration (st w) = 100 /\
  currentTime (st w) = 5 /\
  currentTime (st (step (KeyDown "ArrowRight") w)) = 15.
Proof. vm_compute. repeat split. Qed.

Lemma step_duration e w :
  Stable w -> e <> Media loadedmetadata ->
  duration (st (step e w)) = duration (st w).
Proof.
  intros S Hne.
  assert (v_listeners (video w) = listenersOf (initCleanup w)) as Hl.
  { destruct S as [[P _]|U]; [apply P|].
    destruct U as [_ _ _ Ul Ui _ _ _ _ _]. rewrite Ui. exact Ul. }
  destruct (step_cells e w S) as [Ec _].
  rewrite <- (handle_duration e w Hl Hne).
  unfold cells, cellsOf in Ec. congruence.
Qed.

(** C10 (amended): as long as no [loadedmetadata] event has fired since the
    component was mounted, [duration] holds its initial value 0, so [seek]
    sets the element's and the displayed time to 0 for every argument, and
    the arrow keys (which seek by 10 seconds) rewind to the start.  No event
    but [loadedmetadata] writes [duration]: a new session does not reset
    it, which is why the statement is about the time since the mount and
    not about each session. *)
Theorem seek_before_metadata (hs nh : bool) (p : Props) (tr : list Event) :
  ~ In (Media loadedmetadata) tr ->
  let w := run tr (mount hs nh p) in
  duration (st w) = 0 /\
  (videoRef w = true ->
   (forall t, let w' := seek (duration (st w)) (isPlaying (st w)) t w in
      v_currentTime (video w') = 0 /\ currentTime (st w') = 0) /\
   (forall key, key = "ArrowLeft" \/ key = "ArrowRight" ->
      v_currentTime (video (handle (KeyDown key) w)) = 0 /\
      currentTime (st (step (KeyDown key) w)) = 0)) /\
  (forall tr' e, e <> Media loadedmetadata ->
     duration (st (step e (run tr' (mount hs nh p)))) =
     duration (st (run tr' (mount hs nh p)))).
Proof.
  intros Hn. cbv zeta.
  destruct (durationUnknown_run tr (mount hs nh p) (mount_stable hs nh p) Hn
              (durationUnknown_mount hs nh p)) as [[Hd Hk] S].
  split; [exact Hd|]. split.
  - revert Hd Hk S. generalize (run tr (mount hs nh p)). intros w Hd Hk S.
    intros Hv.
    pose proof (Stable_videoRef _ S Hv) as Hm.
    split.
    + intros t. cbv zeta.
      destruct (seek_shape (duration (st w)) (isPlaying (st w)) t w Hv) as (A & B & _).
      rewrite A, B, Hd, clamp_zero. split; reflexivity.
    + intros key Hkey.
      destruct (Hk Hm) as (k & Ek & Ekd).
      destruct (step_cells (KeyDown key) w S) as [Ec _].
      assert (currentTime (st (step (KeyDown key) w))
              = currentTime (st (handle (KeyDown key) w))) as ->.
      { unfold cells, cellsOf in Ec. congruence. }
      simpl handle. rewrite Ek. unfold handleKeyDown. rewrite Hv. simpl negb. cbv iota.
      destruct Hkey as [-> | ->]; cbv iota beta;
        match goal with |- context [seek ?d ?ip ?t w] =>
          destruct (seek_shape d ip t w Hv) as (A & B & _)
        end; rewrite A, B, Ekd, clamp_zero; split; reflexivity.
  - intros tr' e Hne. apply step_duration; [|exact Hne].
    apply reachable_stable, reachable_run, reachable_mount.
Qed.

Lemma seek_before_metadata_witness :
  let w := run [Media play; Playback 5 None; Media timeupdate]
               (mount true false movieMp4) in
  duration (st w) = 0 /\
  currentTime (st w) = 5 /\
  currentTime (st (step (KeyDown "ArrowRight") w)) = 0.
Proof.
  assert (~ In (Media loadedmetadata)
            [Media play; Playback 5 None; Media timeupdate]) as Hn.
  { simpl. intros [H|[H|[H|[]]]]; discriminate H. }
  destruct (seek_before_metadata true false movieMp4 _ Hn) as (Hd & Hs & _).
  split; [exact Hd | split; [vm_compute; reflexivity|]].
  assert (videoRef (run [Media play; Playback 5 None; Media timeupdate]
                        (mount true false movieMp4)) = true) as Hv
    by (vm_compute; reflexivity).
  destruct (Hs Hv) as [_ Hkeys].
  exact (proj2 (Hkeys "ArrowRight" (or_intror eq_refl))).
Defined.

(** ** C7 and C8: the controls-visibility machine *)

(** The events whose handlers can hide the controls. *)
Definition canHide (e : Event) : bool :=
  match e with
  | MouseLeave | Tick _ => true
  | _ => false
  end.

Lemma handleKeyDown_showControls k key w :
  showControls (st (handleKeyDown k key w)) = showControls (st w).
Proof.
  pose proof (handleKeyDown_cases k key w) as H. simpl in H.
  repeat (destruct H as [H|H]; [rewrite <- H; clear H|]); try contradiction;
    unfold togglePlayPause, toggleMute, toggleFullscreen, seek, changeVolume,
      when, seq; cases; reflexivity.
Qed.

Lemma handle_keeps_visible e w :
  v_listeners (video w) = listenersOf (initCleanup w) ->
  canHide e = false ->
  showControls (st w) = true -> showControls (st (handle e w)) = true.
Proof.
  intros Hl Hc H.
  destruct e; try discriminate Hc; simpl handle;
    try (unfold markup; cases; [|exact H];
         unfold togglePlayPause, toggleMute, toggleFullscreen, changeVolume,
           changePlaybackRate, onProgressClick, onScrubChange, onScrubMouseUp,
           onScrubTouchEnd, onBackClick, onInfoClick, onSettingsClick,
           onSubtitlesClick, onAutoPlayNextClick, when, seq;
         cases; exact H).
  - rewrite (dispatchMedia_wired _ _ Hl).
    destruct (initCleanup w); [|exact H].
    destruct e; simpl;
      unfold handleLoadedMetadata, handleTimeUpdate, updateProgress,
        handleVolumeChange, handleError, handleEnded, when, seq;
      cases; exact H.
  - exact H.
  - exact H.
  - exact H.
  - unfold dispatchEngine, onHlsError, seq. destruct e; cases; exact H.
  - unfold dispatchContainer, handleMouseMove, showControlsWithTimeout,
      clearControlsTimeout, Dom.setTimeout, Dom.clearTimeout, seq.
    cases; solve [exact H | reflexivity].
  - unfold dispatchContainer, handleMouseEnter. cases; solve [exact H | reflexivity].
  - destruct (keydownListener w); [rewrite handleKeyDown_showControls|]; exact H.
  - unfold handleFullscreenChange, when, seq. cases; exact H.
  - unfold React.unmount, React.run_init_cleanup, React.run_controls_cleanup,
      videoInit_cleanup, controls_cleanup, clearControlsTimeout, hls_teardown, seq.
    cases; exact H.
Qed.

(** Timer callbacks hide the controls only if one of them closes over
    [isPlaying = true]. *)
Lemma callbacks_hide (l : list Timer) (w : World) :
  showControls (st w) = true ->
  showControls (st (each (fun t => hideControlsCallback (t_isPlaying t)) l w)) = false ->
  exists t, In t l /\ t_isPlaying t = true.
Proof.
  revert w. induction l as [|t r IH]; intros w Hs Hh; simpl in Hh.
  - unfold skip in Hh. congruence.
  - unfold seq in Hh. destruct (t_isPlaying t) eqn:Ip.
    + exists t. split; [left; reflexivity | exact Ip].
    + unfold hideControlsCallback, when, skip in Hh.
      destruct (IH w Hs Hh) as (t' & Hin & Ht').
      exists t'. split; [right; exact Hin | exact Ht'].
Qed.

(** The controls are hidden only while playing, by the pointer leaving or
    by a timer that has run its 3 seconds. *)
Lemma hide_cases e w :
  Stable w ->
  showControls (st w) = true -> showControls (st (step e w)) = false ->
  isPlaying (st w) = true /\
  (e = MouseLeave \/
   exists dt t, e = Tick dt /\ In t (timers w) /\
                (t_armedAt t + 3000 <= now w + dt)%nat).
Proof.
  intros S Hs Hh.
  destruct (step_cells e w S) as [Ec _].
  assert (showControls (st (handle e w)) = false) as Hh'.
  { unfold cells, cellsOf in Ec. congruence. }
  clear Hh Ec.
  assert (WiredInit (closureOf (props w) (st w)) w /\ WiredCtl (isPlaying (st w)) w)
    as [[Hl _ _] [Hc Ht]].
  { destruct S as [[P _]|U]; [split; apply P|].
    destruct U as [_ _ _ Ul Ui Uh Ut Uk _ _]. split.
    - split; try congruence. rewrite Ui. exact Ul.
    - apply WiredCtl_empty; assumption. }
  destruct (canHide e) eqn:Ce.
  - destruct e; try discriminate Ce; simpl handle in Hh'.
    + (* MouseLeave *)
      unfold dispatchContainer in Hh'.
      destruct (videoRef w); [|congruence].
      destruct (containerListeners w) as [b|] eqn:Ek; [|congruence].
      rewrite (Hc b eq_refl) in Hh'.
      unfold handleMouseLeave, when in Hh'.
      destruct (isPlaying (st w)); [|unfold skip in Hh'; congruence].
      split; [reflexivity | left; reflexivity].
    + (* Tick *)
      unfold seq, fireTimers in Hh'. unfold seq in Hh'.
      match type of Hh' with
      | showControls (st (each _ ?l ?w0)) = false =>
          destruct (callbacks_hide l w0 Hs Hh') as (t & Hin & Ip)
      end.
      apply filter_In in Hin. destruct Hin as [Hin Hdue].
      simpl in Hin, Hdue.
      destruct (Ht t Hin) as (Ep & Ed & _ & _).
      split; [congruence|]. right. exists dt, t.
      split; [reflexivity | split; [exact Hin|]].
      apply Nat.leb_le in Hdue. unfold t_deadline in Hdue. rewrite Ed in Hdue.
      exact Hdue.
  - rewrite (handle_keeps_visible e w Hl Ce Hs) in Hh'. discriminate.
Qed.

(** *** Who arms the hide timer *)

(** A command that arms no timer: every timer pending after it was pending
    before it. *)
Definition NoArm (c : Cmd) : Prop :=
  forall w t, In t (timers (c w)) -> In t (timers w).

Lemma NoArm_preserves c : Preserves timers c -> NoArm c.
Proof. intros H w t. rewrite H. exact (fun x => x). Qed.

Lemma NoArm_ctl c : Preserves wiringCtl c -> NoArm c.
Proof.
  intros H. apply NoArm_preserves. intros w.
  specialize (H w). unfold wiringCtl in H. congruence.
Qed.

Lemma NoArm_seq a b : NoArm a -> NoArm b -> NoArm (a ;; b).
Proof. intros Ha Hb w t H. apply Ha, Hb. exact H. Qed.

Lemma NoArm_when b c : NoArm c -> NoArm (when b c).
Proof. intros H. unfold when. destruct b; [exact H | intros w t X; exact X]. Qed.

Lemma NoArm_clearControlsTimeout : NoArm clearControlsTimeout.
Proof.
  intros w t. unfold clearControlsTimeout, Dom.clearTimeout, seq.
  destruct (controlsTimeoutRef w); simpl; [|exact (fun x => x)].
  intros H. apply filter_In in H. apply H.
Qed.

Lemma NoArm_run_controls_cleanup : NoArm React.run_controls_cleanup.
Proof.
  intros w t. unfold React.run_controls_cleanup.
  destruct (containerListeners w); [|exact (fun x => x)].
  unfold controls_cleanup, seq. simpl. apply NoArm_clearControlsTimeout.
Qed.

Lemma NoArm_controls s : NoArm (controls s).
Proof. intros w t. unfold controls. destruct (videoRef w); exact (fun x => x). Qed.

Lemma NoArm_sync_refs : NoArm React.sync_refs.
Proof.
  intros w t. unfold React.sync_refs, seq. cases; exact (fun x => x).
Qed.

Lemma NoArm_effect (c : Cmd) : Preserves wiring c -> NoArm c.
Proof.
  intros H. apply NoArm_preserves. intros w.
  specialize (H w). unfold wiring, wiringCtl in H. congruence.
Qed.

Lemma NoArm_same (c : Cmd) :
  (forall w, timers (c w) = timers w) -> NoArm c.
Proof. intros H. apply NoArm_preserves. exact H. Qed.

Ltac noarm :=
  lazymatch goal with
  | |- NoArm (seq _ _) => apply NoArm_seq; noarm
  | |- NoArm (when _ _) => apply NoArm_when; noarm
  | |- NoArm React.sync_refs => exact NoArm_sync_refs
  | |- NoArm React.run_controls_cleanup => exact NoArm_run_controls_cleanup
  | |- NoArm (controls _) => apply NoArm_controls
  | |- NoArm React.run_init_cleanup => exact (NoArm_ctl _ run_init_cleanup_ctl)
  | |- NoArm (videoInit _ _) => apply NoArm_ctl; apply videoInit_ctl
  | |- NoArm (volume_effect _) =>
      apply NoArm_effect; intros ?; apply wiring_volume_effect
  | |- NoArm (muted_effect _) =>
      apply NoArm_effect; intros ?; apply wiring_muted_effect
  | |- NoArm (playbackRate_effect _) =>
      apply NoArm_effect; intros ?; apply wiring_playbackRate_effect
  | |- NoArm (set_keydownListener _) => apply NoArm_same; reflexivity
  | |- NoArm (set_fullscreenListener _) => apply NoArm_same; reflexivity
  | |- NoArm (set_rendered _) => apply NoArm_same; reflexivity
  end.

Lemma NoArm_commit : NoArm React.commit.
Proof.
  intros w. unfold React.commit.
  destruct (negb (mounted w)); [exact (fun t x => x)|].
  match goal with |- forall t, In t (timers (?c w)) -> _ =>
    assert (NoArm c) as H
  end.
  { unfold React.mount_effects, React.update_effects.
    destruct (rendered w) as [[p0 s0]|]; noarm. }
  apply H.
Qed.

Lemma NoArm_flush : NoArm React.flush.
Proof. unfold React.flush. apply NoArm_seq; apply NoArm_commit. Qed.

Lemma NoArm_callbacks (l : list Timer) :
  NoArm (each (fun t => hideControlsCallback (t_isPlaying t)) l).
Proof.
  apply NoArm_effect. intros w.
  pose proof (each_callbacks_outside l w) as E.
  apply (f_equal (fun x => fst (fst (fst (fst (fst (fst (fst x)))))))) in E.
  exact E.
Qed.

Lemma NoArm_fireTimers : NoArm fireTimers.
Proof.
  intros w t H. unfold fireTimers, seq in H.
  apply NoArm_callbacks in H. simpl in H.
  apply filter_In in H. apply H.
Qed.

Lemma NoArm_unmount : NoArm React.unmount.
Proof.
  intros w. unfold React.unmount.
  destruct (negb (mounted w)); [exact (fun t x => x)|].
  match goal with |- forall t, In t (timers (?c w)) -> _ =>
    assert (NoArm c) as H
  end.
  { repeat (apply NoArm_seq; [|apply NoArm_same; reflexivity]).
    apply NoArm_seq;
      [exact (NoArm_ctl _ run_init_cleanup_ctl) | exact NoArm_run_controls_cleanup]. }
  apply H.
Qed.

(** Every handler but the pointer move's arms no timer. *)
Lemma NoArm_handle e w t :
  v_listeners (video w) = listenersOf (initCleanup w) ->
  e <> MouseMove ->
  In t (timers (handle e w)) -> In t (timers w).
Proof.
  intros Hl Ne.
  destruct (quietEvent e) eqn:Q.
  - pose proof (handle_frame e w Hl Q) as F.
    unfold frameOf, wiring, wiringCtl in F.
    assert (timers (handle e w) = timers w) as -> by congruence.
    exact (fun x => x).
  - destruct e; try discriminate Q.
    + contradiction Ne; reflexivity.
    + simpl handle. unfold seq. intros H. apply NoArm_fireTimers in H. exact H.
    + simpl handle. apply NoArm_unmount.
Qed.

Lemma Stable_listeners w :
  Stable w -> v_listeners (video w) = listenersOf (initCleanup w).
Proof.
  intros [[P _]|U].
  - apply P.
  - destruct U as [_ _ _ Ul Ui _ _ _ _ _]. rewrite Ui. exact Ul.
Qed.

Lemma NoArm_step e w t :
  Stable w -> e <> MouseMove ->
  In t (timers (step e w)) -> In t (timers w).
Proof.
  intros S Ne H. unfold step, seq in H.
  apply NoArm_flush in H.
  exact (NoArm_handle e w t (Stable_listeners w S) Ne H).
Qed.

Lemma NoArm_empty (c : Cmd) w : NoArm c -> timers w = [] -> timers (c w) = [].
Proof.
  intros H E. destruct (timers (c w)) as [|t r] eqn:Et; [reflexivity|].
  assert (In t (timers (c w))) as Hin by (rewrite Et; left; reflexivity).
  apply H in Hin. rewrite E in Hin. destruct Hin.
Qed.

Lemma mount_no_timer hs nh p : timers (mount hs nh p) = [].
Proof. exact (NoArm_empty React.flush (boot hs nh p) NoArm_flush eq_refl). Qed.

(** A pointer move that reaches the container shows the controls and leaves
    one timer, armed now. *)
Lemma handle_move w :
  Stable w -> videoRef w = true ->
  handle MouseMove w = showControlsWithTimeout (isPlaying (st w)) w /\
  timers (handle MouseMove w) =
    [{| t_id := nextTimerId w; t_armedAt := now w; t_delay := 3000;
        t_isPlaying := isPlaying (st w) |}].
Proof.
  intros S Hv.
  pose proof (Stable_mounted w S (Stable_videoRef w S Hv)) as [_ _ _ Hc Hk _].
  specialize (Hk Hv).
  assert (handle MouseMove w = showControlsWithTimeout (isPlaying (st w)) w) as E.
  { simpl handle. unfold dispatchContainer. rewrite Hv.
    destruct (containerListeners w) as [b|] eqn:Ek; [|contradiction Hk; reflexivity].
    destruct Hc as [Hb _]. rewrite (Hb b Ek). reflexivity. }
  split; [exact E|]. rewrite E.
  apply (showControlsWithTimeout_wired _ _ Hc Hk).
Qed.

Lemma step_move_timers w t :
  Stable w -> videoRef w = true ->
  In t (timers (step MouseMove w)) -> t_armedAt t = now w.
Proof.
  intros S Hv H. unfold step, seq in H. apply NoArm_flush in H.
  destruct (handle_move w S Hv) as [_ E]. rewrite E in H.
  destruct H as [<-|[]]. reflexivity.
Qed.

(** The time of the last pointer move delivered to the container along a
    trace; [m] is that time before the trace. *)
Fixpoint lastMove (tr : list Event) (m : option nat) (w : World) : option nat :=
  match tr with
  | [] => m
  | e :: r =>
      lastMove r
        match e with
        | MouseMove => if videoRef w then Some (now w) else m
        | _ => m
        end
        (step e w)
  end.

(** Every pending timer was armed by the last delivered pointer move. *)
Definition ArmedAt (m : option nat) (w : World) : Prop :=
  forall t, In t (timers w) -> m = Some (t_armedAt t).

Lemma ArmedAt_run tr : forall m w,
  Stable w -> ArmedAt m w -> ArmedAt (lastMove tr m w) (run tr w).
Proof.
  induction tr as [|e r IH]; intros m w S A; simpl.
  - exact A.
  - unfold seq. apply IH; [apply step_stable; exact S|].
    intros t Hin.
    assert (e = MouseMove \/ e <> MouseMove) as [->|Ne].
    { destruct e; (left; reflexivity) || (right; discriminate). }
    + destruct (videoRef w) eqn:Hv.
      * rewrite (step_move_timers w t S Hv Hin). reflexivity.
      * apply A. unfold step, seq in Hin. apply NoArm_flush in Hin.
        simpl handle in Hin. unfold dispatchContainer in Hin.
        rewrite Hv in Hin. exact Hin.
    + assert (match e with
              | MouseMove => if videoRef w then Some (now w) else m
              | _ => m
              end = m) as -> by (destruct e; try reflexivity; contradiction Ne; reflexivity).
      apply A. exact (NoArm_step e w t S Ne Hin).
Qed.

Lemma ArmedAt_mount hs nh p tr :
  ArmedAt (lastMove tr None (mount hs nh p)) (run tr (mount hs nh p)).
Proof.
  apply ArmedAt_run.
  - apply mount_stable.
  - intros t H. rewrite mount_no_timer in H. destruct H.
Qed.

Lemma step_move_shows w :
  Stable w -> videoRef w = true -> showControls (st (step MouseMove w)) = true.
Proof.
  intros S Hv. destruct (step_cells MouseMove w S) as [Ec _].
  assert (showControls (st (step MouseMove w)) = showControls (st (handle MouseMove w))) as ->
    by (unfold cells, cellsOf in Ec; congruence).
  destruct (handle_move w S Hv) as [-> _].
  unfold showControlsWithTimeout, Dom.setTimeout, clearControlsTimeout,
    Dom.clearTimeout, seq. cases; reflexivity.
Qed.

Lemma step_enter_shows w :
  Stable w -> videoRef w = true -> showControls (st (step MouseEnter w)) = true.
Proof.
  intros S Hv. destruct (step_cells MouseEnter w S) as [Ec _].
  assert (showControls (st (step MouseEnter w)) = showControls (st (handle MouseEnter w))) as ->
    by (unfold cells, cellsOf in Ec; congruence).
  pose proof (Stable_mounted w S (Stable_videoRef w S Hv)) as [_ _ _ _ Hk _].
  specialize (Hk Hv).
  simpl handle. unfold dispatchContainer. rewrite Hv.
  destruct (containerListeners w); [reflexivity | contradiction Hk; reflexivity].
Qed.

(** A viewer moves the pointer over a playing film and then rests it. *)
Definition watching : World :=
  run [Media play; MouseMove] (mount true false movieMp4).

(** C7, as stated, fails: a key press is no activity for the hide timer.
    The pointer moves at 0 ms, the viewer presses [m] at 2999 ms, and the
    controls are hidden 1 ms later; a further key press does not bring them
    back, and a pointer entering the player shows them without re-arming
    the timer. *)
Lemma key_press_does_not_reset_window :
  isPlaying (st (run [Tick 2999; KeyDown "m"] watching)) = true /\
  showControls (st (run [Tick 2999; KeyDown "m"] watching)) = true /\
  v_muted (video (run [Tick 2999; KeyDown "m"] watching)) = true /\
  now (run [Tick 2999; KeyDown "m"] watching) = 2999%nat /\
  showControls (st (run [Tick 2999; KeyDown "m"; Tick 1] watching)) = false /\
  showControls (st (run [Tick 2999; KeyDown "m"; Tick 1; KeyDown "m"] watching)) = false /\
  showControls (st (run [Tick 2999; MouseEnter; Tick 1] watching)) = false.
Proof. vm_compute. repeat split. Qed.

Lemma step_move_timer w :
  Stable w -> videoRef w = true ->
  timers (step MouseMove w) =
    [{| t_id := nextTimerId w; t_armedAt := now w; t_delay := 3000;
        t_isPlaying := isPlaying (st w) |}].
Proof.
  intros S Hv. destruct (handle_move w S Hv) as [E Et].
  assert (MouseMove <> Unmount) as Hu by discriminate.
  assert (depsOf (st (handle MouseMove w)) = depsOf (st w)) as Ed.
  { rewrite E.
    unfold showControlsWithTimeout, Dom.setTimeout, clearControlsTimeout,
      Dom.clearTimeout, seq. cases; reflexivity. }
  assert (props (handle MouseMove w) = props w) as Ep.
  { rewrite E.
    unfold showControlsWithTimeout, Dom.setTimeout, clearControlsTimeout,
      Dom.clearTimeout, seq. cases; reflexivity. }
  destruct (step_quiet MouseMove w S Hu Ed Ep) as (_ & _ & Ew & _).
  rewrite <- Et. unfold wiring, wiringCtl in Ew. congruence.
Qed.

Lemma step_enter_timers w : Stable w -> timers (step MouseEnter w) = timers w.
Proof.
  intros S.
  assert (MouseEnter <> Unmount) as Hu by discriminate.
  assert (depsOf (st (handle MouseEnter w)) = depsOf (st w) /\
          props (handle MouseEnter w) = props w /\
          timers (handle MouseEnter w) = timers w) as (Ed & Ep & Et).
  { simpl handle. unfold dispatchContainer, handleMouseEnter.
    cases; repeat split. }
  destruct (step_quiet MouseEnter w S Hu Ed Ep) as (_ & _ & Ew & _).
  rewrite <- Et. unfold wiring, wiringCtl in Ew. congruence.
Qed.

(** C7, amended.  Along every trace from the mount, the controls go from
    visible to hidden only while [isPlaying] is true, and only by the pointer
    leaving the player or by a tick that comes at least 3000 ms after the
    last pointer move delivered to the player.  While the player is rendered
    a pointer move shows the controls and leaves one timer, armed at that
    moment for 3000 ms; a pointer enter shows the controls and leaves the
    timers as they are. *)
Theorem hide_needs_playing_and_idle hs nh p tr e :
  (showControls (st (run tr (mount hs nh p))) = true ->
   showControls (st (step e (run tr (mount hs nh p)))) = false ->
   isPlaying (st (run tr (mount hs nh p))) = true /\
   (e = MouseLeave \/
    exists dt t0, e = Tick dt /\
      lastMove tr None (mount hs nh p) = Some t0 /\
      (t0 + 3000 <= now (run tr (mount hs nh p)) + dt)%nat)) /\
  (videoRef (run tr (mount hs nh p)) = true ->
   showControls (st (step MouseMove (run tr (mount hs nh p)))) = true /\
   timers (step MouseMove (run tr (mount hs nh p))) =
     [{| t_id := nextTimerId (run tr (mount hs nh p));
         t_armedAt := now (run tr (mount hs nh p)); t_delay := 3000;
         t_isPlaying := isPlaying (st (run tr (mount hs nh p))) |}] /\
   showControls (st (step MouseEnter (run tr (mount hs nh p)))) = true /\
   timers (step MouseEnter (run tr (mount hs nh p))) =
     timers (run tr (mount hs nh p))).
Proof.
  assert (Stable (run tr (mount hs nh p))) as S
    by (apply reachable_stable, reachable_run, reachable_mount).
  pose proof (ArmedAt_mount hs nh p tr) as A.
  revert S A. generalize (lastMove tr None (mount hs nh p)).
  generalize (run tr (mount hs nh p)). intros w m S A. split.
  - intros Hs Hh.
    destruct (hide_cases e _ S Hs Hh) as [Ip [L|(dt & t & E & Hin & Hle)]].
    + split; [exact Ip | left; exact L].
    + split; [exact Ip|]. right. exists dt, (t_armedAt t).
      split; [exact E|]. split; [|exact Hle].
      apply (A t Hin).
  - intros Hv.
    split; [apply (step_move_shows w S Hv)|].
    split; [apply (step_move_timer w S Hv)|].
    split; [apply (step_enter_shows w S Hv)|].
    apply (step_enter_timers w S).
Qed.

Lemma hide_needs_playing_and_idle_witness :
  showControls (st (run [Media play; MouseMove; Tick 1000] (mount true false movieMp4))) = true /\
  showControls (st (step (Tick 2000)
     (run [Media play; MouseMove; Tick 1000] (mount true false movieMp4)))) = false /\
  (isPlaying (st (run [Media play; MouseMove; Tick 1000] (mount true false movieMp4))) = true /\
   (Tick 2000 = MouseLeave \/
    exists dt t0, Tick 2000 = Tick dt /\
      lastMove [Media play; MouseMove; Tick 1000] None (mount true false movieMp4) = Some t0 /\
      (t0 + 3000 <= now (run [Media play; MouseMove; Tick 1000] (mount true false movieMp4)) + dt)%nat)) /\
  videoRef (run [Media play; MouseMove; Tick 1000] (mount true false movieMp4)) = true /\
  showControls (st (step MouseMove
     (run [Media play; MouseMove; Tick 1000] (mount true false movieMp4)))) = true.
Proof.
  assert (showControls (st (run [Media play; MouseMove; Tick 1000]
            (mount true false movieMp4))) = true) as A by (vm_compute; reflexivity).
  assert (showControls (st (step (Tick 2000)
     (run [Media play; MouseMove; Tick 1000] (mount true false movieMp4)))) = false) as B
    by (vm_compute; reflexivity).
  assert (videoRef (run [Media play; MouseMove; Tick 1000]
            (mount true false movieMp4)) = true) as V by (vm_compute; reflexivity).
  destruct (hide_needs_playing_and_idle true false movieMp4
              [Media play; MouseMove; Tick 1000] (Tick 2000)) as [H1 H2].
  split; [exact A|]. split; [exact B|]. split; [exact (H1 A B)|].
  split; [exact V|]. exact (proj1 (H2 V)).
Defined.

(** C8, as stated, fails: pausing does not show the controls.  The film
    plays, the pointer rests for 3 seconds and the controls hide; the
    element is then paused, and the state is paused with hidden controls.
    They stay hidden under a key press and a click on the video. *)
Lemma paused_with_hidden_controls :
  isPlaying (st (run [Tick 3000] watching)) = true /\
  showControls (st (run [Tick 3000] watching)) = false /\
  isPlaying (st (run [Tick 3000; Media pause] watching)) = false /\
  showControls (st (run [Tick 3000; Media pause] watching)) = false /\
  showControls (st (run [Tick 3000; Media pause; KeyDown "f"; Tick 5000] watching)) = false /\
  reachable (run [Tick 3000; Media pause] watching).
Proof.
  split; [vm_compute; reflexivity|].
  split; [vm_compute; reflexivity|].
  split; [vm_compute; reflexivity|].
  split; [vm_compute; reflexivity|].
  split; [vm_compute; reflexivity|].
  apply reachable_run. unfold watching. apply reachable_run. apply reachable_mount.
Qed.

Lemma step_pause_showControls w :
  Stable w ->
  showControls (st (step (Media pause) w)) = showControls (st w).
Proof.
  intros S. destruct (step_cells (Media pause) w S) as [Ec _].
  assert (showControls (st (step (Media pause) w)) =
          showControls (st (handle (Media pause) w))) as ->
    by (unfold cells, cellsOf in Ec; congruence).
  rewrite (handle_media pause w S).
  destruct (initCleanup w); reflexivity.
Qed.

(** C8, amended.  In every reachable state the pause event leaves the
    visibility of the controls as it is, and while [isPlaying] is false
    visible controls stay visible under every event: no timer and no
    pointer leave hides them. *)
Theorem paused_controls_stay_visible w e :
  reachable w ->
  showControls (st (step (Media pause) w)) = showControls (st w) /\
  (isPlaying (st w) = false -> showControls (st w) = true ->
   showControls (st (step e w)) = true).
Proof.
  intros R. apply reachable_stable in R. split.
  - apply (step_pause_showControls w R).
  - intros Ip Hs.
    destruct (showControls (st (step e w))) eqn:Hh; [reflexivity|].
    destruct (hide_cases e w R Hs Hh) as [Ip' _]. congruence.
Qed.

Lemma paused_controls_stay_visible_witness :
  reachable (run [Media pause] watching) /\
  showControls (st (step (Media pause) (run [Media pause] watching))) =
    showControls (st (run [Media pause] watching)) /\
  isPlaying (st (run [Media pause] watching)) = false /\
  showControls (st (run [Media pause] watching)) = true /\
  showControls (st (step (Tick 5000) (run [Media pause] watching))) = true.
Proof.
  assert (reachable (run [Media pause] watching)) as R.
  { apply reachable_run. unfold watching. apply reachable_run. apply reachable_mount. }
  assert (isPlaying (st (run [Media pause] watching)) = false) as A
    by (vm_compute; reflexivity).
  assert (showControls (st (run [Media pause] watching)) = true) as B
    by (vm_compute; reflexivity).
  destruct (paused_controls_stay_visible _ (Tick 5000) R) as [P Q].
  split; [exact R|]. split; [exact P|]. split; [exact A|]. split; [exact B|].
  exact (Q A B).
Defined.

(** ** C4: teardown on the exit paths of a session *)

(** The calls the cleanup of the video-init effect makes, given the cleanup
    registered and the engine held when it runs. *)
Definition teardownCalls (w : World) : list Call :=
  match initCleanup w with
  | Some _ =>
      (match hlsRef w with Some _ => [HlsDestroy] | None => [] end ++
       map VideoRemoveEventListener mediaEvents ++ [VideoSetSrc ""])%list
  | None => []
  end.

Definition isTeardownCall (c : Call) : bool :=
  match c with
  | HlsDestroy | VideoRemoveEventListener _ => true
  | VideoSetSrc s => String.eqb s ""
  | _ => false
  end.

Lemma log_removeEventListeners c (l : list MediaEvent) : forall w,
  log (each (Dom.removeEventListener c) l w) =
  (log w ++ map VideoRemoveEventListener l)%list.
Proof.
  induction l as [|e r IH]; intros w; simpl.
  - unfold skip. rewrite app_nil_r. reflexivity.
  - unfold seq at 1. rewrite IH.
    unfold Dom.removeEventListener, Dom.map_listeners, seq. simpl.
    rewrite <- app_assoc. reflexivity.
Qed.

Lemma log_hls_teardown w :
  log (hls_teardown w) =
  (log w ++ match hlsRef w with Some _ => [HlsDestroy] | None => [] end)%list.
Proof.
  unfold hls_teardown. destruct (hlsRef w); simpl.
  - reflexivity.
  - rewrite app_nil_r. reflexivity.
Qed.

(** The engine is released at most once: a second teardown finds the ref
    null. *)
Lemma hls_teardown_idempotent w : hls_teardown (hls_teardown w) = hls_teardown w.
Proof.
  unfold hls_teardown. destruct (hlsRef w) eqn:E.
  - reflexivity.
  - rewrite E. reflexivity.
Qed.

Lemma log_run_init_cleanup w :
  log (React.run_init_cleanup w) = (log w ++ teardownCalls w)%list.
Proof.
  unfold React.run_init_cleanup, teardownCalls.
  destruct (initCleanup w) as [c|]; [|rewrite app_nil_r; reflexivity].
  unfold videoInit_cleanup, seq.
  pose proof (log_removeEventListeners c mediaEvents (hls_teardown w)) as E1.
  rewrite log_hls_teardown in E1.
  revert E1. generalize (each (Dom.removeEventListener c) mediaEvents (hls_teardown w)).
  intros w2 E1.
  assert (log (set_initCleanup None (Dom.video_set_src "" w2)) =
          (log w2 ++ [VideoSetSrc ""])%list) as -> by reflexivity.
  rewrite E1, <- !app_assoc. reflexivity.
Qed.

(** A command that only appends calls satisfying [P] to the log. *)
Definition Emits (P : Call -> bool) (c : Cmd) : Prop :=
  forall w, exists l, log (c w) = (log w ++ l)%list /\ forallb P l = true.

Lemma Emits_skip P : Emits P skip.
Proof. intros w. exists []. rewrite app_nil_r. split; reflexivity. Qed.

Lemma Emits_silent P (c : Cmd) : (forall w, log (c w) = log w) -> Emits P c.
Proof. intros H w. exists []. rewrite app_nil_r. split; [apply H | reflexivity]. Qed.

Lemma Emits_call P c : P c = true -> Emits P (call c).
Proof. intros H w. exists [c]. split; [reflexivity | simpl; rewrite H; reflexivity]. Qed.

Lemma Emits_seq P a b : Emits P a -> Emits P b -> Emits P (a ;; b).
Proof.
  intros Ha Hb w. unfold seq.
  destruct (Ha w) as (l1 & E1 & F1). destruct (Hb (a w)) as (l2 & E2 & F2).
  exists (l1 ++ l2)%list. split.
  - rewrite E2, E1, app_assoc. reflexivity.
  - rewrite forallb_app, F1, F2. reflexivity.
Qed.

Lemma Emits_if P (b : bool) c d : Emits P c -> Emits P d -> Emits P (if b then c else d).
Proof. destruct b; auto. Qed.

Lemma Emits_each {A} P (f : A -> Cmd) (l : list A) :
  (forall x, Emits P (f x)) -> Emits P (each f l).
Proof.
  intros H. induction l as [|x r IH]; simpl.
  - apply Emits_skip.
  - apply Emits_seq; [apply H | exact IH].
Qed.

Ltac emits :=
  lazymatch goal with
  | |- Emits _ (seq _ _) => apply Emits_seq; emits
  | |- Emits _ (if _ then _ else _) => apply Emits_if; emits
  | |- Emits _ (each _ _) => apply Emits_each; intros ?; cbv beta; emits
  | |- Emits _ skip => apply Emits_skip
  | |- Emits _ (call _) => apply Emits_call; try reflexivity
  | |- Emits _ _ => apply Emits_silent; intros ?; reflexivity
  end.

(** The body of the video-init effect makes no teardown call. *)
Lemma videoInit_emits p s :
  Emits (fun c => negb (isTeardownCall c)) (videoInit p s).
Proof.
  intros w. unfold videoInit.
  destruct (String.eqb (streamUrl p) "") eqn:Eu;
    [rewrite Bool.orb_true_r; apply Emits_silent; reflexivity|].
  destruct (negb (videoRef w)); simpl orb; cbv iota;
    [apply Emits_silent; reflexivity|].
  match goal with |- exists l, log (?c w) = _ /\ _ =>
    assert (Emits (fun x => negb (isTeardownCall x)) c) as H
  end.
  { unfold setError, setIsBuffering, Dom.video_set_volume, Dom.video_set_muted,
      Dom.video_set_playbackRate, Dom.video_set_src, Dom.addEventListener,
      Dom.map_listeners, Engine.loadSource, Engine.attachMedia, Engine.on,
      put_v_volume, put_v_muted, put_v_playbackRate, put_v_src, Dom.load.
    emits; simpl; rewrite Eu; reflexivity. }
  apply H.
Qed.

(** *** After the unmount *)

Lemma handle_unmounted_st e w : Unmounted w -> st (handle e w) = st w.
Proof.
  intros U. pose proof U as [Hm Hr Hv Hl Hi Hh Ht Hk Hy Hf].
  destruct e; simpl handle;
    try (unfold markup; rewrite Hm; reflexivity).
  - unfold dispatchMedia. rewrite Hl. reflexivity.
  - reflexivity.
  - reflexivity.
  - reflexivity.
  - unfold dispatchEngine. rewrite Hh. reflexivity.
  - unfold dispatchContainer. rewrite Hv. reflexivity.
  - unfold dispatchContainer. rewrite Hv. reflexivity.
  - unfold dispatchContainer. rewrite Hv. reflexivity.
  - rewrite Hy. reflexivity.
  - rewrite Hf. reflexivity.
  - unfold fireTimers, seq.
    change (timers (set_now (now w + dt)%nat w)) with (timers w).
    rewrite Ht. reflexivity.
  - unfold React.unmount. rewrite Hm. reflexivity.
Qed.

(** No event reaches the state of an unmounted component. *)
Lemma run_unmounted tr : forall w, Unmounted w -> st (run tr w) = st w.
Proof.
  induction tr as [|e r IH]; intros w U; [reflexivity|].
  simpl. unfold seq.
  pose proof (handle_unmounted e w U) as U'.
  assert (step e w = handle e w) as E.
  { unfold step, seq. apply flush_unmounted. apply U'. }
  rewrite E. rewrite (IH _ U'). apply handle_unmounted_st. exact U.
Qed.

(** The calls the cleanup of the controls effect makes. *)
Definition clearCalls (w : World) : list Call :=
  match containerListeners w, controlsTimeoutRef w with
  | Some _, Some id => [ClearTimeout id]
  | _, _ => []
  end.

Lemma log_run_controls_cleanup w :
  log (React.run_controls_cleanup w) = (log w ++ clearCalls w)%list.
Proof.
  unfold React.run_controls_cleanup, clearCalls.
  destruct (containerListeners w); [|rewrite app_nil_r; reflexivity].
  unfold controls_cleanup, clearControlsTimeout, seq.
  change (controlsTimeoutRef (set_containerListeners None w)) with (controlsTimeoutRef w).
  destruct (controlsTimeoutRef w); [reflexivity | rewrite app_nil_r; reflexivity].
Qed.

Lemma log_unmount w :
  log (React.unmount w) =
  (log w ++ if mounted w then teardownCalls w ++ clearCalls w else [])%list.
Proof.
  unfold React.unmount. destruct (mounted w); simpl negb; cbv iota;
    [|rewrite app_nil_r; reflexivity].
  unfold seq.
  pose proof (log_run_init_cleanup w) as E1.
  pose proof (run_init_cleanup_ctl w) as Ec.
  revert E1 Ec. generalize (React.run_init_cleanup w). intros w1 E1 Ec.
  pose proof (log_run_controls_cleanup w1) as E2.
  assert (clearCalls w1 = clearCalls w) as Ek.
  { unfold clearCalls. unfold wiringCtl in Ec. injection Ec as _ -> ->. reflexivity. }
  revert E2. generalize (React.run_controls_cleanup w1). intros w2 E2.
  simpl. rewrite E2, E1, Ek, <- app_assoc. reflexivity.
Qed.

Lemma step_unmount_log w :
  Stable w ->
  log (step Unmount w) = (log w ++ teardownCalls w ++ clearCalls w)%list.
Proof.
  intros S. unfold step, seq. simpl handle.
  assert (Unmounted (React.unmount w)) as U.
  { destruct S as [[P _]|U]; [apply (unmount_unmounted _ _ _ P)|].
    apply (handle_unmounted Unmount w U). }
  rewrite flush_unmounted by apply U.
  rewrite log_unmount.
  destruct S as [[P _]|U0].
  - destruct P as [-> _ _ _ _ _]. reflexivity.
  - destruct U0 as [-> _ _ _ Ui _ _ Uc _ _].
    unfold teardownCalls, clearCalls. rewrite Ui, Uc. reflexivity.
Qed.

Lemma step_unmount_unmounted w : Stable w -> Unmounted (step Unmount w).
Proof.
  intros S. unfold step, seq. simpl handle.
  assert (Unmounted (React.unmount w)) as U.
  { destruct S as [[P _]|U]; [apply (unmount_unmounted _ _ _ P)|].
    apply (handle_unmounted Unmount w U). }
  rewrite flush_unmounted by apply U. exact U.
Qed.

(** *** A change of session *)

Lemma commit_switch p0 s0 w :
  mounted w = true -> rendered w = Some (p0, s0) ->
  videoRef w = true -> error (st w) = None ->
  depsOf s0 = depsOf (st w) ->
  InitClosure_eqb (closureOf p0 s0) (closureOf (props w) (st w)) = false ->
  React.commit w =
  set_rendered (Some (props w, st w))
    (videoInit (props w) (st w) (React.run_init_cleanup w)).
Proof.
  intros Hm Hr Hv He Ed Hi.
  unfold React.commit. rewrite Hm. simpl negb. cbv iota.
  unfold seq. rewrite Hr.
  assert (React.sync_refs w = w) as ->
    by (unfold React.sync_refs; rewrite He, Hv; reflexivity).
  unfold React.update_effects, React.init_changed, React.key_changed.
  rewrite Hi.
  unfold depsOf in Ed. injection Ed as E1 E2 E3 E4 E5 E6 E7 E8.
  rewrite E1, E2, E3, E4, E5, E6.
  rewrite !same_num_refl, !Bool.eqb_reflx. reflexivity.
Qed.

Lemma step_switch p' w :
  Stable w -> videoRef w = true ->
  InitClosure_eqb (closureOf (props w) (st w)) (closureOf p' (st w)) = false ->
  log (step (PropsChange p') w) =
    log (videoInit p' (st w) (React.run_init_cleanup (set_props p' w))) /\
  wiringCtl (step (PropsChange p') w) = wiringCtl w /\
  props (step (PropsChange p') w) = p'.
Proof.
  intros S Hv Hi.
  pose proof (Stable_mounted w S (Stable_videoRef w S Hv)) as P.
  assert (error (st w) = None) as He.
  { destruct S as [[_ E]|U]; [|destruct U; congruence].
    rewrite Hv in E. unfold errored in E. destruct (error (st w)); [discriminate|reflexivity]. }
  assert (PropsChange p' <> Unmount) as Hu by discriminate.
  pose proof (handle_pending (PropsChange p') w P Hu) as P1.
  pose proof P as [Hm Hr _ _ _ _].
  unfold step, seq. simpl handle in *. rewrite Hm in *.
  pose proof (commit_switch (props w) (st w) (set_props p' w) Hm Hr Hv He eq_refl Hi) as Ec.
  change (props (set_props p' w)) with p' in Ec.
  change (st (set_props p' w)) with (st w) in Ec.
  destruct (commit_first _ _ _ P1) as (P2 & Ecells & Ep & _).
  change (props (set_props p' w)) with p' in P2, Ep.
  change (st (set_props p' w)) with (st w) in P2.
  change (cells (set_props p' w)) with (cells w) in Ecells.
  assert (log (React.commit (set_props p' w)) =
          log (videoInit p' (st w) (React.run_init_cleanup (set_props p' w))) /\
          wiringCtl (React.commit (set_props p' w)) = wiringCtl w) as [El Ew].
  { rewrite Ec. split; [reflexivity|].
    change (wiringCtl (set_rendered ?r ?x)) with (wiringCtl x).
    rewrite videoInit_ctl, run_init_cleanup_ctl. reflexivity. }
  clear Ec. unfold React.flush, seq.
  revert P2 Ecells Ep El Ew. generalize (React.commit (set_props p' w)).
  intros w2 P2 Ecells Ep El Ew.
  rewrite <- Ep in P2.
  assert (depsOf (st w) = depsOf (st w2)) as Ed.
  { apply cells_deps. unfold cells in Ecells. congruence. }
  destruct (settle (st w) w2 P2 Ed) as (_ & _ & Ep2 & _ & _ & Ew2 & _ & El2 & _).
  split; [congruence|]. split; [|congruence].
  unfold wiring in Ew2. congruence.
Qed.

(** A fatal engine error runs no teardown in this player: the engine is
    kept, no teardown call is made, the 11 listeners stay attached, and a
    later engine event is still dispatched into the state. *)
Lemma fatal_error_skips_teardown :
  error (st (step (Engine ERROR networkFault) (mount true false liveHls)))
    = Some "Playback error: manifestLoadError" /\
  hlsRef (step (Engine ERROR networkFault) (mount true false liveHls))
    = Some (defaultEngine "http://tv.example/live/7.m3u8") /\
  filter isTeardownCall
    (log (step (Engine ERROR networkFault) (mount true false liveHls))) = [] /\
  List.length (v_listeners (video
    (step (Engine ERROR networkFault) (mount true false liveHls)))) = 11%nat /\
  error (st (run [Engine ERROR networkFault; Engine ERROR mediaFault]
                 (mount true false liveHls)))
    = Some "Playback error: bufferStalledError".
Proof. vm_compute. repeat split. Qed.

Definition isClearTimeout (c : Call) : bool :=
  match c with ClearTimeout _ => true | _ => false end.

(** C4, as stated, fails: a change of [streamUrl] clears no timer.  The
    hide-controls timeout armed in the old session is still pending when
    the new session is attached, no [clearTimeout] is called, and the
    timeout fires in the new session, where it hides the controls. *)
Lemma session_change_keeps_hide_timer :
  List.length (timers watching) = 1%nat /\
  streamUrl (props (step (PropsChange otherMp4) watching))
    = "http://tv.example/movie/13.mp4" /\
  timers (step (PropsChange otherMp4) watching) = timers watching /\
  filter isClearTimeout (log (step (PropsChange otherMp4) watching)) = [] /\
  showControls (st (step (PropsChange otherMp4) watching)) = true /\
  showControls (st (run [PropsChange otherMp4; Tick 3000] watching)) = false.
Proof. vm_compute. repeat split. Qed.

(** An episode is watched; then the page renders the player again with an
    equal, but new, [episodeData] object. *)
Definition watchingEpisode : World :=
  run [Media play; MouseMove] (mount true false (episodeMp4 (Some "4"))).

Definition episodeAgain : Props :=
  {| streamUrl := streamUrl (episodeMp4 (Some "4"));
     streamType := episode;
     streamInfo := Some "Pilot"; onBack := true;
     episodeData :=
       option_map (fun o => {| ref := 2%nat; target := target o |})
                  (episodeData (episodeMp4 (Some "4"))) |}.

(** C4, amended.  In every reachable state, the unmount runs the teardown
    (the engine, if one is held, is destroyed once, the 11 listeners are
    removed, the source is cleared) and clears the pending hide-controls
    timer, after which no listener, engine or timer is left and no event
    changes the state.  A change of session while the player is rendered (a
    render in which React finds a dependency of the video-init effect
    changed) makes exactly the teardown calls before any call of the new
    attach, and every listener attached afterwards belongs to the new
    session; the hide-controls timer is left as it was. *)
Theorem exit_paths_tear_down w p' tr :
  reachable w ->
  (Unmounted (step Unmount w) /\
   log (step Unmount w) = (log w ++ teardownCalls w ++ clearCalls w)%list /\
   st (run tr (step Unmount w)) = st (step Unmount w)) /\
  (videoRef w = true ->
   React.init_changed (props w) (st w) p' (st w) = true ->
   (exists attach,
      log (step (PropsChange p') w) = (log w ++ teardownCalls w ++ attach)%list /\
      forallb (fun c => negb (isTeardownCall c)) attach = true) /\
   (forall l, In l (v_listeners (video (step (PropsChange p') w))) ->
      snd l = closureOf p' (st (step (PropsChange p') w))) /\
   timers (step (PropsChange p') w) = timers w).
Proof.
  intros R. pose proof (reachable_stable w R) as S. split.
  - pose proof (step_unmount_unmounted w S) as U.
    split; [exact U|]. split; [apply (step_unmount_log w S)|].
    apply run_unmounted. exact U.
  - intros Hv Hi.
    unfold React.init_changed in Hi. apply Bool.negb_true_iff in Hi.
    destruct (step_switch p' w S Hv Hi) as (El & Ew & Ep).
    pose proof (step_stable (PropsChange p') w S) as S'.
    split; [|split].
    + destruct (videoInit_emits p' (st w) (React.run_init_cleanup (set_props p' w)))
        as (attach & Ea & Fa).
      exists attach. split; [|exact Fa].
      rewrite El, Ea, log_run_init_cleanup, <- app_assoc. reflexivity.
    + revert Ep S'. generalize (step (PropsChange p') w). intros w' Ep S' l Hin.
      assert (WiredInit (closureOf (props w') (st w')) w') as [Hl Hc _].
      { destruct S' as [[P _]|U]; [apply P|].
        destruct U as [_ _ _ Ul _ _ _ _ _ _]. rewrite Ul in Hin. destruct Hin. }
      rewrite Hl in Hin. destruct (initCleanup w') as [c|]; [|destruct Hin].
      rewrite <- Ep, <- (Hc c eq_refl).
      unfold listenersOf in Hin. apply in_map_iff in Hin. destruct Hin as (e & <- & _). reflexivity.
    + unfold wiringCtl in Ew. congruence.
Qed.

Lemma exit_paths_tear_down_witness :
  reachable watchingEpisode /\
  (Unmounted (step Unmount watchingEpisode) /\
   log (step Unmount watchingEpisode) =
     (log watchingEpisode ++ teardownCalls watchingEpisode ++
      clearCalls watchingEpisode)%list /\
   st (run [Media pause; MouseMove; Tick 3000] (step Unmount watchingEpisode)) =
     st (step Unmount watchingEpisode)) /\
  videoRef watchingEpisode = true /\
  React.init_changed (props watchingEpisode) (st watchingEpisode)
                     episodeAgain (st watchingEpisode) = true /\
  (exists attach,
      log (step (PropsChange episodeAgain) watchingEpisode) =
        (log watchingEpisode ++ teardownCalls watchingEpisode ++ attach)%list /\
      forallb (fun c => negb (isTeardownCall c)) attach = true) /\
  (forall l, In l (v_listeners (video (step (PropsChange episodeAgain) watchingEpisode))) ->
      snd l = closureOf episodeAgain
                (st (step (PropsChange episodeAgain) watchingEpisode))) /\
  timers (step (PropsChange episodeAgain) watchingEpisode) = timers watchingEpisode.
Proof.
  assert (reachable watchingEpisode) as R.
  { unfold watchingEpisode. apply reachable_run. apply reachable_mount. }
  assert (videoRef watchingEpisode = true) as Hv by (vm_compute; reflexivity).
  assert (React.init_changed (props watchingEpisode) (st watchingEpisode)
            episodeAgain (st watchingEpisode) = true) as Hi
    by (vm_compute; reflexivity).
  destruct (exit_paths_tear_down watchingEpisode episodeAgain
              [Media pause; MouseMove; Tick 3000] R) as [A B].
  split; [exact R|]. split; [exact A|]. split; [exact Hv|]. split; [exact Hi|].
  exact (B Hv Hi).
Defined.

(** * Further properties of the player *)

(** ** Listeners and timers *)

(** X1: in every reachable state the video element carries either no
    listener or exactly the 11 listeners of the current render, one per
    media event and in the order of attachment: listeners are never
    duplicated and never left over from an earlier render. *)
Theorem listeners_are_current w :
  reachable w ->
  v_listeners (video w) = [] \/
  v_listeners (video w) =
    map (fun e => (e, closureOf (props w) (st w))) mediaEvents.
Proof.
  intros R. apply reachable_stable in R.
  destruct R as [[P _]|U].
  - destruct P as [_ _ [Hl Hc _] _ _ _]. rewrite Hl.
    destruct (initCleanup w) as [c|]; [|left; reflexivity].
    right. rewrite (Hc c eq_refl). reflexivity.
  - left. apply U.
Qed.

Lemma listeners_are_current_witness :
  reachable watching /\
  (v_listeners (video watching) = [] \/
   v_listeners (video watching) =
     map (fun e => (e, closureOf (props watching) (st watching))) mediaEvents).
Proof.
  assert (reachable watching) as R.
  { unfold watching. apply reachable_run. apply reachable_mount. }
  split; [exact R|]. exact (listeners_are_current watching R).
Defined.

(** A command after which no more timers are pending than before. *)
Definition Shrinks (c : Cmd) : Prop :=
  forall w, (List.length (timers (c w)) <= List.length (timers w))%nat.

Lemma Shrinks_same (c : Cmd) : (forall w, timers (c w) = timers w) -> Shrinks c.
Proof. intros H w. rewrite H. apply Nat.le_refl. Qed.

Lemma Shrinks_ctl c : Preserves wiringCtl c -> Shrinks c.
Proof.
  intros H. apply Shrinks_same. intros w.
  specialize (H w). unfold wiringCtl in H. congruence.
Qed.

Lemma Shrinks_effect (c : Cmd) : Preserves wiring c -> Shrinks c.
Proof.
  intros H. apply Shrinks_same. intros w.
  specialize (H w). unfold wiring, wiringCtl in H. congruence.
Qed.

Lemma Shrinks_seq a b : Shrinks a -> Shrinks b -> Shrinks (a ;; b).
Proof.
  intros Ha Hb w. unfold seq.
  eapply Nat.le_trans; [apply Hb | apply Ha].
Qed.

Lemma Shrinks_when b c : Shrinks c -> Shrinks (when b c).
Proof.
  intros H. unfold when. destruct b; [exact H | intros w; apply Nat.le_refl].
Qed.

Lemma Shrinks_clearControlsTimeout : Shrinks clearControlsTimeout.
Proof.
  intros w. unfold clearControlsTimeout, Dom.clearTimeout, seq.
  destruct (controlsTimeoutRef w); simpl; [apply filter_length_le | apply Nat.le_refl].
Qed.

Lemma Shrinks_run_controls_cleanup : Shrinks React.run_controls_cleanup.
Proof.
  intros w. unfold React.run_controls_cleanup.
  destruct (containerListeners w); [|apply Nat.le_refl].
  unfold controls_cleanup, seq.
  apply (Shrinks_clearControlsTimeout (set_containerListeners None w)).
Qed.

Lemma Shrinks_controls s : Shrinks (controls s).
Proof. intros w. unfold controls. destruct (videoRef w); apply Nat.le_refl. Qed.

Lemma Shrinks_sync_refs : Shrinks React.sync_refs.
Proof. intros w. unfold React.sync_refs, seq. cases; apply Nat.le_refl. Qed.

Ltac shrinks :=
  lazymatch goal with
  | |- Shrinks (seq _ _) => apply Shrinks_seq; shrinks
  | |- Shrinks (when _ _) => apply Shrinks_when; shrinks
  | |- Shrinks React.sync_refs => exact Shrinks_sync_refs
  | |- Shrinks React.run_controls_cleanup => exact Shrinks_run_controls_cleanup
  | |- Shrinks (controls _) => apply Shrinks_controls
  | |- Shrinks React.run_init_cleanup => exact (Shrinks_ctl _ run_init_cleanup_ctl)
  | |- Shrinks (videoInit _ _) => apply Shrinks_ctl; apply videoInit_ctl
  | |- Shrinks (volume_effect _) =>
      apply Shrinks_effect; intros ?; apply wiring_volume_effect
  | |- Shrinks (muted_effect _) =>
      apply Shrinks_effect; intros ?; apply wiring_muted_effect
  | |- Shrinks (playbackRate_effect _) =>
      apply Shrinks_effect; intros ?; apply wiring_playbackRate_effect
  | |- Shrinks (set_keydownListener _) => apply Shrinks_same; reflexivity
  | |- Shrinks (set_fullscreenListener _) => apply Shrinks_same; reflexivity
  | |- Shrinks (set_rendered _) => apply Shrinks_same; reflexivity
  | |- Shrinks (set_videoRef _) => apply Shrinks_same; reflexivity
  | |- Shrinks (set_mounted _) => apply Shrinks_same; reflexivity
  end.

Lemma Shrinks_commit : Shrinks React.commit.
Proof.
  intros w. unfold React.commit.
  destruct (negb (mounted w)); [apply Nat.le_refl|].
  match goal with |- (List.length (timers (?c w)) <= _)%nat =>
    assert (Shrinks c) as H
  end.
  { unfold React.mount_effects, React.update_effects.
    destruct (rendered w) as [[p0 s0]|]; shrinks. }
  apply H.
Qed.

Lemma Shrinks_flush : Shrinks React.flush.
Proof. unfold React.flush. apply Shrinks_seq; apply Shrinks_commit. Qed.

Lemma Shrinks_unmount : Shrinks React.unmount.
Proof.
  intros w. unfold React.unmount.
  destruct (negb (mounted w)); [apply Nat.le_refl|].
  match goal with |- (List.length (timers (?c w)) <= _)%nat =>
    assert (Shrinks c) as H
  end.
  { shrinks. }
  apply H.
Qed.

Lemma Shrinks_callbacks (l : list Timer) :
  Shrinks (each (fun t => hideControlsCallback (t_isPlaying t)) l).
Proof.
  apply Shrinks_effect. intros w.
  pose proof (each_callbacks_outside l w) as E.
  apply (f_equal (fun x => fst (fst (fst (fst (fst (fst (fst x)))))))) in E.
  exact E.
Qed.

Lemma Shrinks_fireTimers : Shrinks fireTimers.
Proof.
  intros w. unfold fireTimers, seq.
  eapply Nat.le_trans; [apply Shrinks_callbacks|].
  simpl. apply filter_length_le.
Qed.

Lemma Shrinks_handle e w :
  v_listeners (video w) = listenersOf (initCleanup w) ->
  e <> MouseMove ->
  (List.length (timers (handle e w)) <= List.length (timers w))%nat.
Proof.
  intros Hl Ne.
  destruct (quietEvent e) eqn:Q.
  - pose proof (handle_frame e w Hl Q) as F.
    unfold frameOf, wiring, wiringCtl in F.
    assert (timers (handle e w) = timers w) as -> by congruence.
    apply Nat.le_refl.
  - destruct e; try discriminate Q.
    + contradiction Ne; reflexivity.
    + simpl handle. unfold seq.
      apply (Shrinks_fireTimers (set_now (now w + dt)%nat w)).
    + simpl handle. apply Shrinks_unmount.
Qed.

Lemma step_timers_bound e w :
  Stable w -> (List.length (timers w) <= 1)%nat ->
  (List.length (timers (step e w)) <= 1)%nat.
Proof.
  intros S H. unfold step, seq.
  eapply Nat.le_trans; [apply Shrinks_flush|].
  assert (e = MouseMove \/ e <> MouseMove) as [->|Ne].
  { destruct e; (left; reflexivity) || (right; discriminate). }
  - destruct (videoRef w) eqn:Hv.
    + destruct (handle_move w S Hv) as [_ ->]. apply Nat.le_refl.
    + simpl handle. unfold dispatchContainer. rewrite Hv. exact H.
  - eapply Nat.le_trans; [|exact H].
    apply Shrinks_handle; [apply Stable_listeners; exact S | exact Ne].
Qed.

Lemma reachable_timers_bound w : reachable w -> (List.length (timers w) <= 1)%nat.
Proof.
  induction 1 as [hs nh p | e w R IH].
  - rewrite mount_no_timer. apply Nat.le_0_l.
  - apply step_timers_bound; [apply reachable_stable; exact R | exact IH].
Qed.

(** X2: in every reachable state at most one hide-controls timer is pending;
    it runs for 3000 ms, it is the one [controlsTimeoutRef] names, and the
    [isPlaying] it closes over is the current one. *)
Theorem one_hide_timer w :
  reachable w ->
  (List.length (timers w) <= 1)%nat /\
  forall t, In t (timers w) ->
    t_delay t = 3000%nat /\ controlsTimeoutRef w = Some (t_id t) /\
    t_isPlaying t = isPlaying (st w).
Proof.
  intros R. split; [apply reachable_timers_bound; exact R|].
  intros t Hin. apply reachable_stable in R.
  destruct R as [[P _]|U].
  - destruct P as [_ _ _ [_ Ht] _ _].
    destruct (Ht t Hin) as (A & B & C & _). repeat split; assumption.
  - destruct U as [_ _ _ _ _ _ Ut _ _ _]. rewrite Ut in Hin. destruct Hin.
Qed.

Lemma one_hide_timer_witness :
  reachable watching /\
  (List.length (timers watching) <= 1)%nat /\
  forall t, In t (timers watching) ->
    t_delay t = 3000%nat /\ controlsTimeoutRef watching = Some (t_id t) /\
    t_isPlaying t = isPlaying (st watching).
Proof.
  assert (reachable watching) as R.
  { unfold watching. apply reachable_run. apply reachable_mount. }
  split; [exact R|]. exact (one_hide_timer watching R).
Defined.

(** ** The error screen *)

Lemma Stable_errored w : Stable w -> errored w = true -> videoRef w = false.
Proof.
  intros [[_ E]|U] He; [rewrite E, He; reflexivity | apply U].
Qed.

Lemma step_errored e w :
  Stable w -> errored w = true -> errored (step e w) = true.
Proof.
  intros S He. unfold step, seq.
  destruct S as [[P _]|U].
  - assert (e = Unmount \/ e <> Unmount) as [->|Hu].
    { destruct e; (left; reflexivity) || (right; discriminate). }
    + rewrite flush_unmounted by apply (unmount_unmounted _ _ _ P).
      simpl handle. unfold React.unmount.
      destruct (negb (mounted w)); [exact He|].
      unfold errored, seq in *. simpl.
      assert (st (React.run_controls_cleanup (React.run_init_cleanup w)) = st w) as ->; [|exact He].
      pose proof (run_controls_cleanup_rest (React.run_init_cleanup w)) as E1.
      pose proof (run_init_cleanup_rest w) as E2.
      assert (forall a b, rest a = rest b -> cells a = cells b) as Hc
        by (unfold rest; intros a b E; congruence).
      pose proof (run_controls_cleanup_st (React.run_init_cleanup w)) as E3.
      pose proof (run_init_cleanup_st w) as E4.
      congruence.
    + pose proof (handle_pending e w P Hu) as P'.
      pose proof (handle_errored e w (wired_listeners _ _ (pending_init _ _ _ P)) He) as He'.
      destruct (flush_stable _ _ _ P') as (_ & _ & _ & _ & Est).
      unfold errored in *. rewrite (Est He'). exact He'.
  - rewrite flush_unmounted by apply (handle_unmounted e w U).
    unfold errored in *. rewrite (handle_unmounted_st e w U). exact He.
Qed.

Lemma run_errored tr : forall w,
  Stable w -> errored w = true -> errored (run tr w) = true.
Proof.
  induction tr as [|e r IH]; intros w S He; [exact He|].
  simpl. unfold seq. apply IH; [apply step_stable; exact S|].
  apply step_errored; assumption.
Qed.

(** X3: the error screen is never left.  Once [error] is set in a reachable
    state, it stays set and the video element stays unrendered under every
    sequence of events, a change of [streamUrl] included. *)
Theorem error_is_absorbing w tr :
  reachable w -> errored w = true ->
  errored (run tr w) = true /\ videoRef (run tr w) = false.
Proof.
  intros R He.
  pose proof (reachable_stable w R) as S.
  pose proof (run_errored tr w S He) as He'.
  split; [exact He'|].
  apply Stable_errored; [|exact He'].
  apply reachable_stable, reachable_run, R.
Qed.

Lemma error_is_absorbing_witness :
  reachable (step (Engine ERROR networkFault) (mount true false liveHls)) /\
  errored (step (Engine ERROR networkFault) (mount true false liveHls)) = true /\
  errored (run [PropsChange movieMp4; Media canplay; VideoClick; Tick 5000]
             (step (Engine ERROR networkFault) (mount true false liveHls))) = true /\
  videoRef (run [PropsChange movieMp4; Media canplay; VideoClick; Tick 5000]
             (step (Engine ERROR networkFault) (mount true false liveHls))) = false.
Proof.
  assert (reachable (step (Engine ERROR networkFault) (mount true false liveHls))) as R
    by (apply reachable_step, reachable_mount).
  assert (errored (step (Engine ERROR networkFault) (mount true false liveHls)) = true) as E
    by (vm_compute; reflexivity).
  split; [exact R|]. split; [exact E|].
  exact (error_is_absorbing _ [PropsChange movieMp4; Media canplay; VideoClick; Tick 5000] R E).
Defined.

(** ** Who writes [isPlaying] *)

Definition playbackEvent (e : Event) : bool :=
  match e with
  | Media play | Media pause | Media ended => true
  | _ => false
  end.

Lemma handleKeyDown_isPlaying k key w :
  isPlaying (st (handleKeyDown k key w)) = isPlaying (st w).
Proof.
  pose proof (handleKeyDown_cases k key w) as H. simpl in H.
  repeat (destruct H as [H|H]; [rewrite <- H; clear H|]); try contradiction;
    unfold togglePlayPause, toggleMute, toggleFullscreen, seek, changeVolume,
      when, seq; cases; reflexivity.
Qed.

Lemma callbacks_isPlaying (l : list Timer) :
  Preserves (fun w => isPlaying (st w))
            (each (fun t => hideControlsCallback (t_isPlaying t)) l).
Proof.
  apply Preserves_each. intros t w.
  unfold hideControlsCallback, when. cases; reflexivity.
Qed.

Lemma handle_isPlaying e w :
  v_listeners (video w) = listenersOf (initCleanup w) ->
  playbackEvent e = false ->
  isPlaying (st (handle e w)) = isPlaying (st w).
Proof.
  intros Hl Hp.
  destruct e; simpl handle;
    try (unfold markup; cases; [|reflexivity];
         unfold togglePlayPause, toggleMute, toggleFullscreen, changeVolume,
           changePlaybackRate, onProgressClick, onScrubChange, onScrubMouseUp,
           onScrubTouchEnd, onBackClick, onInfoClick, onSettingsClick,
           onSubtitlesClick, onAutoPlayNextClick, when, seq;
         cases; solve [reflexivity | simpl; congruence]).
  - rewrite (dispatchMedia_wired _ _ Hl).
    destruct (initCleanup w); [|reflexivity].
    destruct e; try discriminate Hp; simpl;
      unfold handleLoadedMetadata, handleTimeUpdate, updateProgress,
        handleVolumeChange, handleError, when, seq;
      cases; reflexivity.
  - reflexivity.
  - reflexivity.
  - reflexivity.
  - unfold dispatchEngine, onHlsError, seq. destruct e; cases; reflexivity.
  - unfold dispatchContainer, handleMouseMove, showControlsWithTimeout,
      clearControlsTimeout, Dom.setTimeout, Dom.clearTimeout, seq.
    cases; reflexivity.
  - unfold dispatchContainer, handleMouseEnter. cases; reflexivity.
  - unfold dispatchContainer, handleMouseLeave, when. cases; reflexivity.
  - destruct (keydownListener w); [apply handleKeyDown_isPlaying | reflexivity].
  - unfold handleFullscreenChange, when, seq. cases; reflexivity.
  - unfold seq, fireTimers. unfold seq. rewrite callbacks_isPlaying. reflexivity.
  - unfold React.unmount, React.run_init_cleanup, React.run_controls_cleanup,
      videoInit_cleanup, controls_cleanup, clearControlsTimeout, hls_teardown, seq.
    cases; reflexivity.
Qed.

(** X4: the playing flag follows the element and nothing else.  In every
    reachable state, an event other than the element's [play], [pause] and
    [ended] leaves [isPlaying] as it is: the play button, the keyboard and
    the clicks on the video only ask the element to play or pause. *)
Theorem isPlaying_follows_element w e :
  reachable w -> playbackEvent e = false ->
  isPlaying (st (step e w)) = isPlaying (st w).
Proof.
  intros R Hp. apply reachable_stable in R.
  destruct (step_cells e w R) as [Ec _].
  rewrite <- (handle_isPlaying e w (Stable_listeners w R) Hp).
  unfold cells, cellsOf in Ec. congruence.
Qed.

Lemma isPlaying_follows_element_witness :
  reachable watching /\ playbackEvent VideoClick = false /\
  isPlaying (st (step VideoClick watching)) = isPlaying (st watching).
Proof.
  assert (reachable watching) as R.
  { unfold watching. apply reachable_run. apply reachable_mount. }
  split; [exact R|]. split; [reflexivity|].
  exact (isPlaying_follows_element watching VideoClick R eq_refl).
Defined.

(** ** The engine's life cycle *)

Definition isEngineCall (c : Call) : bool :=
  match c with
  | HlsNew _ | HlsDestroy => true
  | _ => false
  end.

(** Replays the constructions and destructions of a log: [b] tells whether
    an engine is alive; the result is [None] if an engine is constructed
    while one is alive, or destroyed while none is. *)
Fixpoint liveEngine (l : list Call) (b : bool) : option bool :=
  match l with
  | [] => Some b
  | HlsNew _ :: r => if b then None else liveEngine r true
  | HlsDestroy :: r => if b then liveEngine r false else None
  | _ :: r => liveEngine r b
  end.

Definition holdsEngine (w : World) : bool :=
  match hlsRef w with Some _ => true | None => false end.

Definition engineCalls (w : World) : list Call := filter isEngineCall (log w).

Lemma liveEngine_filter (l : list Call) : forall b,
  liveEngine l b = liveEngine (filter isEngineCall l) b.
Proof.
  induction l as [|c r IH]; intros b; [reflexivity|].
  destruct c; simpl; rewrite ?IH; try reflexivity; destruct b; reflexivity.
Qed.

Lemma liveEngine_app (l l' : list Call) : forall b,
  liveEngine (l ++ l') b =
  match liveEngine l b with
  | Some b' => liveEngine l' b'
  | None => None
  end.
Proof.
  induction l as [|c r IH]; intros b; [reflexivity|].
  destruct c; simpl; rewrite ?IH; try reflexivity; destruct b; reflexivity.
Qed.

(** What the engine bookkeeping reads. *)
Definition engineOf (w : World) := (engineCalls w, hlsRef w).

Ltac engine_fin :=
  unfold skip; simpl; rewrite ?filter_app; simpl; rewrite ?app_nil_r;
  first [reflexivity | congruence].

Ltac engine_quiet :=
  let w := fresh "w" in
  intros w; unfold engineOf, engineCalls; cases; engine_fin.

Lemma engineOf_sync_refs : Preserves engineOf React.sync_refs.
Proof. unfold React.sync_refs, seq. engine_quiet. Qed.

Lemma engineOf_volume_effect s : Preserves engineOf (volume_effect s).
Proof. unfold volume_effect, Dom.video_set_volume, seq. engine_quiet. Qed.

Lemma engineOf_muted_effect s : Preserves engineOf (muted_effect s).
Proof. unfold muted_effect, Dom.video_set_muted, seq. engine_quiet. Qed.

Lemma engineOf_playbackRate_effect s : Preserves engineOf (playbackRate_effect s).
Proof. unfold playbackRate_effect, Dom.video_set_playbackRate, seq. engine_quiet. Qed.

Lemma engineOf_run_controls_cleanup : Preserves engineOf React.run_controls_cleanup.
Proof.
  unfold React.run_controls_cleanup, controls_cleanup, clearControlsTimeout,
    Dom.clearTimeout, seq.
  engine_quiet.
Qed.

Lemma engineOf_controls s : Preserves engineOf (controls s).
Proof. unfold controls. engine_quiet. Qed.

Lemma engineOf_set_keydownListener k : Preserves engineOf (set_keydownListener k).
Proof. engine_quiet. Qed.

Lemma engineOf_set_fullscreenListener b : Preserves engineOf (set_fullscreenListener b).
Proof. engine_quiet. Qed.

Lemma engineOf_set_rendered r : Preserves engineOf (set_rendered r).
Proof. engine_quiet. Qed.

Lemma seq_apply (a b : Cmd) w : (a ;; b) w = b (a w).
Proof. reflexivity. Qed.

Lemma hlsRef_set_initCleanup x w : hlsRef (set_initCleanup x w) = hlsRef w.
Proof. reflexivity. Qed.

Lemma run_init_cleanup_hlsRef w :
  (initCleanup w = None -> hlsRef w = None) ->
  hlsRef (React.run_init_cleanup w) = None.
Proof.
  intros Hn. unfold React.run_init_cleanup.
  destruct (initCleanup w) as [c|].
  - rewrite seq_apply, hlsRef_set_initCleanup. apply videoInit_cleanup_hlsRef.
  - apply Hn. reflexivity.
Qed.

Lemma filter_teardownCalls w :
  (initCleanup w = None -> hlsRef w = None) ->
  filter isEngineCall (teardownCalls w) = if holdsEngine w then [HlsDestroy] else [].
Proof.
  intros Hn. unfold teardownCalls, holdsEngine.
  destruct (initCleanup w).
  - destruct (hlsRef w); reflexivity.
  - rewrite (Hn eq_refl). reflexivity.
Qed.

(** The cleanup destroys the engine it finds. *)
Lemma run_init_cleanup_engine w :
  (initCleanup w = None -> hlsRef w = None) ->
  engineCalls (React.run_init_cleanup w) =
    (engineCalls w ++ if holdsEngine w then [HlsDestroy] else [])%list /\
  initCleanup (React.run_init_cleanup w) = None /\
  hlsRef (React.run_init_cleanup w) = None.
Proof.
  intros Hn. split; [|split].
  - unfold engineCalls. rewrite log_run_init_cleanup, filter_app.
    rewrite (filter_teardownCalls w Hn). reflexivity.
  - apply run_init_cleanup_none.
  - apply (run_init_cleanup_hlsRef w Hn).
Qed.

(** The effect body constructs an engine only for an [.m3u8] URL where the
    library is supported, and nowhere else. *)
Definition attachesEngine (p : Props) (w : World) : bool :=
  videoRef w && negb (String.eqb (streamUrl p) "")
  && Js.endsWith (streamUrl p) ".m3u8" && hlsSupported w.

Lemma engineOf_call c : isEngineCall c = false -> Preserves engineOf (call c).
Proof.
  intros H w. unfold engineOf, engineCalls. simpl. rewrite filter_app. simpl.
  rewrite H, app_nil_r. reflexivity.
Qed.

Ltac engine_leaf _ :=
  lazymatch goal with
  | |- Preserves _ (call _) => apply engineOf_call; reflexivity
  | |- Preserves _ (with_st _) => intros ?; reflexivity
  | |- Preserves _ (with_video _) => intros ?; reflexivity
  | |- Preserves _ (set_initCleanup _) => intros ?; reflexivity
  end.

Lemma videoInit_engineCalls p s w :
  hlsRef w = None ->
  engineCalls (videoInit p s w) =
    (engineCalls w ++ if attachesEngine p w then [HlsNew []] else [])%list /\
  holdsEngine (videoInit p s w) = attachesEngine p w.
Proof.
  intros Hn.
  assert (attachesEngine p w = false ->
          engineOf (videoInit p s w) = engineOf w) as Hq.
  { unfold attachesEngine, videoInit. intros Ha.
    destruct (videoRef w) eqn:Hv; [|reflexivity].
    destruct (String.eqb (streamUrl p) "") eqn:Eu; [reflexivity|].
    simpl in Ha. simpl orb. cbv iota.
    match goal with |- engineOf (?c w) = _ =>
      assert (Preserves engineOf c) as H
    end.
    { unfold setError, setIsBuffering, Dom.video_set_volume, Dom.video_set_muted,
        Dom.video_set_playbackRate, Dom.video_set_src, Dom.addEventListener,
        Dom.map_listeners, put_v_volume, put_v_muted, put_v_playbackRate,
        put_v_src, Dom.load.
      destruct (Js.endsWith (streamUrl p) ".m3u8");
        [destruct (hlsSupported w); [discriminate Ha|]|];
        descend engine_leaf. }
    apply H. }
  destruct (attachesEngine p w) eqn:Ha.
  - unfold attachesEngine in Ha.
    apply andb_prop in Ha. destruct Ha as [Ha Hs].
    apply andb_prop in Ha. destruct Ha as [Ha Ee].
    apply andb_prop in Ha. destruct Ha as [Hv _].
    destruct (videoInit_engine p s w Hv Hs Ee) as [Eh El].
    unfold holdsEngine, engineCalls. rewrite Eh, El, filter_app.
    split; reflexivity.
  - specialize (Hq eq_refl). unfold engineOf in Hq.
    apply pair_equal_spec in Hq. destruct Hq as [E1 E2].
    unfold holdsEngine. rewrite E1, E2, Hn, app_nil_r. split; reflexivity.
Qed.

(** In a balanced world the log, replayed from no engine, ends with an
    engine alive exactly when the ref holds one. *)
Definition Balanced (w : World) : Prop :=
  liveEngine (log w) false = Some (holdsEngine w).

Lemma Balanced_calls w :
  Balanced w <-> liveEngine (engineCalls w) false = Some (holdsEngine w).
Proof. unfold Balanced, engineCalls. rewrite <- liveEngine_filter. reflexivity. Qed.

Lemma holdsEngine_frame w w' : engineOf w' = engineOf w -> holdsEngine w' = holdsEngine w.
Proof.
  unfold engineOf, holdsEngine. intros E.
  apply pair_equal_spec in E. destruct E as [_ ->]. reflexivity.
Qed.

Lemma Balanced_frame w w' : engineOf w' = engineOf w -> Balanced w -> Balanced w'.
Proof.
  intros E. rewrite !Balanced_calls, (holdsEngine_frame _ _ E).
  unfold engineOf in E. apply pair_equal_spec in E. destruct E as [-> _].
  exact (fun x => x).
Qed.

Definition Idle (w : World) : Prop := Balanced w /\ hlsRef w = None.

Definition Tidy (w : World) : Prop :=
  Balanced w /\ (initCleanup w = None -> hlsRef w = None).

Lemma Idle_frame w w' : engineOf w' = engineOf w -> Idle w -> Idle w'.
Proof.
  intros E [B H]. split; [exact (Balanced_frame _ _ E B)|].
  unfold engineOf in E. apply pair_equal_spec in E. destruct E as [_ ->]. exact H.
Qed.

Definition Triple (P Q : World -> Prop) (c : Cmd) : Prop :=
  forall w, P w -> Q (c w).

Lemma Triple_seq (P Q R : World -> Prop) (a b : Cmd) :
  Triple P Q a -> Triple Q R b -> Triple P R (a ;; b).
Proof. intros Ha Hb w H. rewrite seq_apply. apply Hb, Ha, H. Qed.

Lemma Idle_neutral c : Preserves engineOf c -> Triple Idle Idle c.
Proof. intros H w. apply Idle_frame, H. Qed.

Lemma Balanced_neutral c : Preserves engineOf c -> Triple Balanced Balanced c.
Proof. intros H w. apply Balanced_frame, H. Qed.

Lemma run_init_cleanup_idle : Triple Tidy Idle React.run_init_cleanup.
Proof.
  intros w [B Hn].
  destruct (run_init_cleanup_engine w Hn) as (Ec & _ & Eh).
  split; [|exact Eh].
  apply Balanced_calls. apply Balanced_calls in B.
  assert (holdsEngine (React.run_init_cleanup w) = false) as ->
    by (unfold holdsEngine; rewrite Eh; reflexivity).
  rewrite Ec, liveEngine_app, B.
  destruct (holdsEngine w); reflexivity.
Qed.

Lemma videoInit_balanced p s : Triple Idle Balanced (videoInit p s).
Proof.
  intros w [B Hn].
  destruct (videoInit_engineCalls p s w Hn) as (Ec & Eh).
  apply Balanced_calls. apply Balanced_calls in B.
  assert (holdsEngine w = false) as E0
    by (unfold holdsEngine; rewrite Hn; reflexivity).
  rewrite Ec, liveEngine_app, B, Eh, E0.
  destruct (attachesEngine p w); reflexivity.
Qed.

Lemma when_true (c : Cmd) : when true c = c.
Proof. reflexivity. Qed.

Lemma when_false (c : Cmd) : when false c = skip.
Proof. reflexivity. Qed.

Ltac neutral :=
  lazymatch goal with
  | |- Preserves _ (when _ _) => apply Preserves_when; neutral
  | |- Preserves _ skip => apply Preserves_skip
  | |- Preserves _ React.run_controls_cleanup => exact engineOf_run_controls_cleanup
  | |- Preserves _ (controls _) => apply engineOf_controls
  | |- Preserves _ (volume_effect _) => apply engineOf_volume_effect
  | |- Preserves _ (muted_effect _) => apply engineOf_muted_effect
  | |- Preserves _ (playbackRate_effect _) => apply engineOf_playbackRate_effect
  | |- Preserves _ (set_keydownListener _) => apply engineOf_set_keydownListener
  | |- Preserves _ (set_fullscreenListener _) => apply engineOf_set_fullscreenListener
  | |- Preserves _ (set_rendered _) => apply engineOf_set_rendered
  | |- Preserves _ React.sync_refs => exact engineOf_sync_refs
  end.

Lemma update_effects_balanced p0 s0 p s :
  Triple Tidy Balanced (React.update_effects p0 s0 p s).
Proof.
  unfold React.update_effects.
  destruct (React.init_changed p0 s0 p s).
  - rewrite !when_true.
    apply (Triple_seq Tidy Idle); [exact run_init_cleanup_idle|].
    do 5 (apply (Triple_seq Idle Idle); [apply Idle_neutral; neutral|]).
    apply (Triple_seq Idle Balanced); [apply videoInit_balanced|].
    apply (Triple_seq Balanced Balanced); apply Balanced_neutral; neutral.
  - rewrite !when_false.
    intros w [B _]. revert w B. change (Triple Balanced Balanced
      (skip ;;
       when (negb (Bool.eqb (isPlaying s0) (isPlaying s))) React.run_controls_cleanup ;;
       when (React.key_changed s0 s) (set_keydownListener None) ;;
       when (negb (Js.same_num (volume s0) (volume s))) (volume_effect s) ;;
       when (negb (Bool.eqb (isMuted s0) (isMuted s))) (muted_effect s) ;;
       when (negb (Js.same_num (playbackRate s0) (playbackRate s)))
         (playbackRate_effect s) ;;
       skip ;;
       when (negb (Bool.eqb (isPlaying s0) (isPlaying s))) (controls s) ;;
       when (React.key_changed s0 s) (set_keydownListener (Some (keyClosureOf s))))).
    do 8 (apply (Triple_seq Balanced Balanced); [apply Balanced_neutral; neutral|]).
    apply Balanced_neutral; neutral.
Qed.

Lemma mount_effects_balanced p s : Triple Idle Balanced (React.mount_effects p s).
Proof.
  unfold React.mount_effects.
  do 3 (apply (Triple_seq Idle Idle); [apply Idle_neutral; neutral|]).
  apply (Triple_seq Idle Balanced); [apply videoInit_balanced|].
  do 2 (apply (Triple_seq Balanced Balanced); [apply Balanced_neutral; neutral|]).
  apply Balanced_neutral; neutral.
Qed.

Lemma Tidy_frame w w' :
  engineOf w' = engineOf w -> initCleanup w' = initCleanup w -> Tidy w -> Tidy w'.
Proof.
  intros E Ei [B H]. split; [exact (Balanced_frame _ _ E B)|].
  unfold engineOf in E. apply pair_equal_spec in E. destruct E as [_ ->].
  rewrite Ei. exact H.
Qed.

Lemma initCleanup_sync_refs w : initCleanup (React.sync_refs w) = initCleanup w.
Proof. unfold React.sync_refs, seq. cases; reflexivity. Qed.

Lemma commit_balanced w :
  Tidy w -> rendered w <> None -> Balanced (React.commit w).
Proof.
  intros T Hr. unfold React.commit.
  destruct (negb (mounted w)); [apply T|].
  destruct (rendered w) as [[p0 s0]|]; [|contradiction Hr; reflexivity].
  rewrite seq_apply, seq_apply.
  apply (Balanced_frame _ _ (engineOf_set_rendered _ _)).
  apply update_effects_balanced.
  apply (Tidy_frame w); [apply engineOf_sync_refs | apply initCleanup_sync_refs | exact T].
Qed.

Lemma mount_balanced hs nh p : Balanced (mount hs nh p).
Proof.
  destruct (mount_first_commit hs nh p) as (_ & El & Ew & _).
  cbv zeta in El, Ew.
  assert (Balanced (React.mount_effects p initialState (React.sync_refs (boot hs nh p)))) as B.
  { apply mount_effects_balanced.
    apply (Idle_frame (boot hs nh p)); [apply engineOf_sync_refs|].
    split; reflexivity. }
  revert B El Ew.
  generalize (React.mount_effects p initialState (React.sync_refs (boot hs nh p))).
  generalize (mount hs nh p). intros w w1 B El Ew.
  apply (Balanced_frame w1); [|exact B].
  unfold engineOf, engineCalls. rewrite El.
  unfold wiring, wiringInit in Ew. f_equal. congruence.
Qed.

Lemma handleKeyDown_engineOf k key w :
  engineOf (handleKeyDown k key w) = engineOf w.
Proof.
  pose proof (handleKeyDown_cases k key w) as H. simpl in H.
  repeat (destruct H as [H|H]; [rewrite <- H; clear H|]); try contradiction;
    unfold engineOf, engineCalls, togglePlayPause, toggleMute, toggleFullscreen,
      seek, changeVolume, Dom.video_play, Dom.video_pause, Dom.video_set_muted,
      Dom.video_set_volume, Dom.video_set_currentTime, when, seq;
    cases; engine_fin.
Qed.

Lemma callbacks_engineOf (l : list Timer) :
  Preserves engineOf (each (fun t => hideControlsCallback (t_isPlaying t)) l).
Proof.
  apply Preserves_each. intros t w.
  unfold hideControlsCallback, when. cases; reflexivity.
Qed.

(** No handler but the unmount's constructs or destroys an engine. *)
Lemma handle_engineOf e w :
  v_listeners (video w) = listenersOf (initCleanup w) ->
  e <> Unmount ->
  engineOf (handle e w) = engineOf w /\ initCleanup (handle e w) = initCleanup w.
Proof.
  intros Hl Hu.
  destruct e; simpl handle;
    try (unfold markup; cases; [|split; reflexivity];
         unfold engineOf, engineCalls,
           togglePlayPause, toggleMute, toggleFullscreen, changeVolume,
           changePlaybackRate, onProgressClick, onScrubChange, onScrubMouseUp,
           onScrubTouchEnd, onBackClick, onInfoClick, onSettingsClick,
           onSubtitlesClick, onAutoPlayNextClick,
           Dom.video_play, Dom.video_pause, Dom.video_set_muted,
           Dom.video_set_volume, Dom.video_set_currentTime,
           Dom.video_set_playbackRate, when, seq;
         cases; split; engine_fin).
  - rewrite (dispatchMedia_wired _ _ Hl).
    destruct (initCleanup w) eqn:Ei; [|split; [reflexivity | exact Ei]].
    destruct e; simpl;
      unfold engineOf, engineCalls, handleLoadedMetadata, handleTimeUpdate,
        updateProgress, handleVolumeChange, handleError, handleEnded, when, seq;
      cases; split; engine_fin.
  - split; reflexivity.
  - split; reflexivity.
  - split; reflexivity.
  - unfold dispatchEngine, onHlsError, engineOf, engineCalls, seq.
    destruct e; cases; split; engine_fin.
  - unfold dispatchContainer, handleMouseMove, showControlsWithTimeout,
      clearControlsTimeout, Dom.setTimeout, Dom.clearTimeout,
      engineOf, engineCalls, seq.
    cases; split; engine_fin.
  - unfold dispatchContainer, handleMouseEnter. cases; split; reflexivity.
  - unfold dispatchContainer, handleMouseLeave, when. cases; split; reflexivity.
  - destruct (keydownListener w); [|split; reflexivity].
    split; [apply handleKeyDown_engineOf|].
    pose proof (handleKeyDown_frame k key w) as F.
    unfold frameOf, wiring, wiringInit in F. congruence.
  - unfold handleFullscreenChange, when, seq. cases; split; reflexivity.
  - unfold seq, fireTimers. unfold seq. split.
    + rewrite callbacks_engineOf. reflexivity.
    + match goal with |- initCleanup (each ?f ?l ?w0) = _ =>
        pose proof (each_callbacks_outside l w0) as E
      end.
      apply (f_equal (fun x => fst (fst (fst (fst (fst (fst (fst x)))))))) in E.
      cbv beta in E. unfold wiring, wiringInit in E.
      apply pair_equal_spec in E. destruct E as [E _].
      apply pair_equal_spec in E. destruct E as [E _].
      apply pair_equal_spec in E. destruct E as [_ E]. exact E.
  - contradiction Hu; reflexivity.
Qed.

Lemma unmount_balanced : Triple Tidy Balanced React.unmount.
Proof.
  intros w T. unfold React.unmount.
  destruct (negb (mounted w)); [apply T|].
  revert w T.
  match goal with |- forall w, Tidy w -> Balanced (?c w) =>
    change (Triple Tidy Balanced c)
  end.
  apply (Triple_seq Tidy Idle); [exact run_init_cleanup_idle|].
  intros w [B _]. revert w B.
  match goal with |- forall w, Balanced w -> Balanced (?c w) =>
    change (Triple Balanced Balanced c)
  end.
  apply (Triple_seq Balanced Balanced); [apply Balanced_neutral; neutral|].
  do 4 (apply (Triple_seq Balanced Balanced);
        [apply Balanced_neutral; intros ?; reflexivity|]).
  apply Balanced_neutral; intros ?; reflexivity.
Qed.

Lemma Stable_tidy w : Stable w -> initCleanup w = None -> hlsRef w = None.
Proof.
  intros [[P _]|U] Hn; [|apply U].
  destruct P as [_ _ [_ _ Hh] _ _ _]. apply Hh, Hn.
Qed.

Lemma step_balanced e w : Stable w -> Balanced w -> Balanced (step e w).
Proof.
  intros S B. unfold step. rewrite seq_apply.
  assert (e = Unmount \/ e <> Unmount) as [->|Hu].
  { destruct e; (left; reflexivity) || (right; discriminate). }
  - assert (Unmounted (React.unmount w)) as U.
    { destruct S as [[P _]|U]; [apply (unmount_unmounted _ _ _ P)|].
      apply (handle_unmounted Unmount w U). }
    simpl handle. rewrite flush_unmounted by apply U.
    apply unmount_balanced. split; [exact B | apply Stable_tidy; exact S].
  - destruct (handle_engineOf e w (Stable_listeners w S) Hu) as [Ee Ei].
    pose proof (Balanced_frame _ _ Ee B) as B1.
    destruct S as [[P _]|U].
    + pose proof (handle_pending e w P Hu) as P1.
      revert B1 P1. generalize (handle e w). intros w1 B1 P1.
      unfold React.flush. rewrite seq_apply.
      destruct (commit_first _ _ _ P1) as (P2 & _).
      assert (Balanced (React.commit w1)) as B2.
      { apply commit_balanced.
        - split; [exact B1|]. destruct P1 as [_ _ [_ _ Hh] _ _ _]. exact Hh.
        - destruct P1 as [_ Hr _ _ _ _]. rewrite Hr. discriminate. }
      revert B2 P2. generalize (React.commit w1). intros w2 B2 P2.
      apply commit_balanced.
      * split; [exact B2|]. destruct P2 as [_ _ [_ _ Hh] _ _ _]. exact Hh.
      * destruct P2 as [_ Hr _ _ _ _]. rewrite Hr. discriminate.
    + rewrite flush_unmounted by apply (handle_unmounted e w U). exact B1.
Qed.

(** X5: at most one engine is alive at any time.  Replaying the log of a
    reachable state, an engine is only ever constructed when none is alive
    and only destroyed when one is, and at the end one is alive exactly when
    [hlsRef] holds it: no instance is leaked and none is destroyed twice. *)
Theorem one_live_engine w :
  reachable w -> liveEngine (log w) false = Some (holdsEngine w).
Proof.
  induction 1 as [hs nh p | e w R IH].
  - apply mount_balanced.
  - apply step_balanced; [apply reachable_stable; exact R | exact IH].
Qed.

Lemma one_live_engine_witness :
  reachable (run [Media play; PropsChange movieHls; ScrubChange 5; Unmount]
                 (mount true false liveHls)) /\
  liveEngine (log (run [Media play; PropsChange movieHls; ScrubChange 5; Unmount]
                       (mount true false liveHls))) false =
  Some (holdsEngine (run [Media play; PropsChange movieHls; ScrubChange 5; Unmount]
                         (mount true false liveHls))).
Proof.
  assert (reachable (run [Media play; PropsChange movieHls; ScrubChange 5; Unmount]
                         (mount true false liveHls))) as R
    by (apply reachable_run, reachable_mount).
  split; [exact R|]. exact (one_live_engine _ R).
Defined.

(** ** Re-running the video-init effect *)

(** The calls of one run of the effect body. *)
Definition attachCalls (p : Props) (s : State) (w : World) : list Call :=
  if negb (videoRef w) || String.eqb (streamUrl p) "" then []
  else
    ([VideoSetVolume (volume s); VideoSetMuted (isMuted s);
      VideoSetPlaybackRate (playbackRate s)] ++
     (if Js.endsWith (streamUrl p) ".m3u8" then
        if hlsSupported w then
          [HlsNew []; HlsLoadSource (streamUrl p); HlsAttachMedia; HlsOn ERROR]
        else if nativeHls w then [VideoSetSrc (streamUrl p)]
        else []
      else [VideoSetSrc (streamUrl p)]) ++
     map VideoAddEventListener mediaEvents)%list.

(** A command that appends exactly the calls [l] to the log. *)
Definition Logs (l : list Call) (c : Cmd) : Prop :=
  forall w, log (c w) = (log w ++ l)%list.

Lemma Logs_silent (c : Cmd) : (forall w, log (c w) = log w) -> Logs [] c.
Proof. intros H w. rewrite app_nil_r. apply H. Qed.

Lemma Logs_call c : Logs [c] (call c).
Proof. intros w. reflexivity. Qed.

Lemma Logs_seq l1 l2 a b : Logs l1 a -> Logs l2 b -> Logs (l1 ++ l2) (a ;; b).
Proof.
  intros Ha Hb w. rewrite seq_apply, Hb, Ha, app_assoc. reflexivity.
Qed.

Lemma Logs_addEventListeners c (l : list MediaEvent) :
  Logs (map VideoAddEventListener l) (each (Dom.addEventListener c) l).
Proof.
  induction l as [|e r IH].
  - apply Logs_silent. reflexivity.
  - simpl each. apply (Logs_seq [VideoAddEventListener e] _ _ _); [|exact IH].
    unfold Dom.addEventListener.
    apply (Logs_seq [] [_]); [apply Logs_silent; reflexivity | apply Logs_call].
Qed.

Ltac logs :=
  lazymatch goal with
  | |- Logs _ (seq _ _) => eapply Logs_seq; logs
  | |- Logs _ (call _) => apply Logs_call
  | |- Logs _ (each (Dom.addEventListener _) _) => apply Logs_addEventListeners
  | |- Logs _ _ => apply Logs_silent; intros ?; reflexivity
  end.

Lemma Logs_eq l l' c : Logs l c -> l = l' -> Logs l' c.
Proof. intros H <-. exact H. Qed.

Lemma log_videoInit p s w :
  log (videoInit p s w) = (log w ++ attachCalls p s w)%list.
Proof.
  unfold videoInit, attachCalls.
  destruct (negb (videoRef w) || String.eqb (streamUrl p) "");
    [rewrite app_nil_r; reflexivity|].
  match goal with |- log (?c w) = (log w ++ ?l)%list =>
    assert (Logs l c) as H
  end.
  { unfold setError, setIsBuffering, Dom.video_set_volume, Dom.video_set_muted,
      Dom.video_set_playbackRate, Dom.video_set_src,
      Engine.loadSource, Engine.attachMedia, Engine.on,
      put_v_volume, put_v_muted, put_v_playbackRate, put_v_src, Dom.load.
    destruct (Js.endsWith (streamUrl p) ".m3u8");
      [destruct (hlsSupported w); [|destruct (nativeHls w)]|];
      (eapply Logs_eq; [logs | reflexivity]). }
  apply H.
Qed.

Lemma attachCalls_rest p s w w' : rest w' = rest w -> attachCalls p s w' = attachCalls p s w.
Proof.
  unfold rest, attachCalls. intros E.
  assert (videoRef w' = videoRef w) as -> by congruence.
  assert (hlsSupported w' = hlsSupported w) as -> by congruence.
  assert (nativeHls w' = nativeHls w) as -> by congruence.
  reflexivity.
Qed.

(** A commit in which no dependency changed but those of the video-init
    and keyboard effects: if the closure of the video-init effect changed,
    its cleanup runs, then its body; the keyboard effect logs nothing. *)
Lemma commit_init_only p0 s0 w :
  mounted w = true -> rendered w = Some (p0, s0) ->
  videoRef w = true -> error (st w) = None ->
  (isPlaying s0, volume s0, isMuted s0, playbackRate s0) =
    (isPlaying (st w), volume (st w), isMuted (st w), playbackRate (st w)) ->
  log (React.commit w) =
    (log w ++ if React.init_changed p0 s0 (props w) (st w)
              then teardownCalls w ++ attachCalls (props w) (st w) w
              else [])%list /\
  wiringCtl (React.commit w) = wiringCtl w.
Proof.
  intros Hm Hr Hv He Ed.
  unfold React.commit. rewrite Hm. simpl negb. cbv iota.
  rewrite !seq_apply, Hr.
  assert (React.sync_refs w = w) as ->
    by (unfold React.sync_refs; rewrite He, Hv; reflexivity).
  unfold React.update_effects.
  injection Ed as E1 E2 E3 E4.
  rewrite E1, E2, E3, E4.
  rewrite !same_num_refl, !Bool.eqb_reflx. simpl negb.
  generalize (React.key_changed s0 (st w)). intros k.
  destruct (React.init_changed p0 s0 (props w) (st w)).
  - rewrite !when_true, !when_false.
    rewrite !seq_apply. unfold skip.
    pose proof (log_run_init_cleanup w) as L1.
    pose proof (run_init_cleanup_rest w) as R1.
    pose proof (run_init_cleanup_ctl w) as C1.
    revert L1 R1 C1. generalize (React.run_init_cleanup w). intros w1 L1 R1 C1.
    assert (log (when k (set_keydownListener None) w1) = log w1 /\
            rest (when k (set_keydownListener None) w1) = rest w1 /\
            wiringCtl (when k (set_keydownListener None) w1) = wiringCtl w1)
      as (L2 & R2 & C2) by (destruct k; repeat split).
    revert L2 R2 C2. generalize (when k (set_keydownListener None) w1).
    intros w2 L2 R2 C2.
    pose proof (log_videoInit (props w) (st w) w2) as L3.
    pose proof (videoInit_ctl (props w) (st w) w2) as C3.
    revert L3 C3. generalize (videoInit (props w) (st w) w2). intros w3 L3 C3.
    assert (log (set_rendered (Some (props w, st w))
              (when k (set_keydownListener (Some (keyClosureOf (st w)))) w3)) = log w3 /\
            wiringCtl (set_rendered (Some (props w, st w))
              (when k (set_keydownListener (Some (keyClosureOf (st w)))) w3)) = wiringCtl w3)
      as (L4 & C4) by (destruct k; repeat split).
    rewrite L4, C4, L3, C3, L2, C2, L1, C1.
    rewrite (attachCalls_rest _ _ w w2) by congruence.
    rewrite <- app_assoc. split; reflexivity.
  - rewrite !when_false. rewrite !seq_apply. unfold skip.
    rewrite app_nil_r. destruct k; split; reflexivity.
Qed.

(** The same for a whole step, when the handler leaves the video rendered. *)
Lemma step_init_only e w :
  Stable w -> e <> Unmount ->
  videoRef (handle e w) = true -> error (st (handle e w)) = None ->
  (isPlaying (st w), volume (st w), isMuted (st w), playbackRate (st w)) =
    (isPlaying (st (handle e w)), volume (st (handle e w)),
     isMuted (st (handle e w)), playbackRate (st (handle e w))) ->
  log (step e w) =
    (log (handle e w) ++
     if React.init_changed (props w) (st w) (props (handle e w)) (st (handle e w))
     then teardownCalls (handle e w) ++
          attachCalls (props (handle e w)) (st (handle e w)) (handle e w)
     else [])%list /\
  wiringCtl (step e w) = wiringCtl (handle e w).
Proof.
  intros S Hu Hv He Ed.
  assert (mounted w = true) as Hm.
  { destruct S as [[P _]|U]; [apply P|].
    pose proof (handle_unmounted e w U) as U'. destruct U' as [_ _ Uv _ _ _ _ _ _ _].
    congruence. }
  pose proof (Stable_mounted w S Hm) as P.
  pose proof (handle_pending e w P Hu) as P1.
  unfold step. rewrite seq_apply.
  revert Hv He Ed P1. generalize (handle e w). intros w1 Hv He Ed P1.
  pose proof P1 as [Hm1 Hr1 _ _ _ _].
  destruct (commit_init_only _ _ w1 Hm1 Hr1 Hv He Ed) as [El Ew].
  destruct (commit_first _ _ _ P1) as (P2 & Ecells & Ep & _).
  unfold React.flush. rewrite seq_apply.
  revert El Ew P2 Ecells Ep. generalize (React.commit w1).
  intros w2 El Ew P2 Ecells Ep.
  rewrite <- Ep in P2.
  assert (depsOf (st w1) = depsOf (st w2)) as Ed2.
  { apply cells_deps. unfold cells in Ecells. congruence. }
  destruct (settle (st w1) w2 P2 Ed2) as (_ & _ & _ & _ & _ & Ew2 & _ & El2 & _).
  split; [congruence|].
  unfold wiring in Ew2. congruence.
Qed.

Lemma Stable_rendered w :
  Stable w -> videoRef w = true -> mounted w = true /\ error (st w) = None.
Proof.
  intros S Hv. split; [apply (Stable_videoRef w S Hv)|].
  destruct S as [[_ E]|U]; [|destruct U; congruence].
  rewrite Hv in E. unfold errored in E.
  destruct (error (st w)); [discriminate | reflexivity].
Qed.

(** X6: a drag of the scrubber restarts the stream twice.  With the player
    rendered, the first move of a drag writes the dragged time to the element
    and then, because [isDragging] changed, runs the teardown and a fresh
    attach of the same stream; the moves that follow only write the time;
    the release asks for [play()] if playing and runs teardown and attach
    once more. *)
Theorem scrub_reattaches_stream w t :
  reachable w -> videoRef w = true ->
  log (step (ScrubChange t) w) =
    (log w ++ [VideoSetCurrentTime t] ++
     if isDragging (st w) then []
     else teardownCalls w ++ attachCalls (props w) (st w) w)%list /\
  log (step ScrubMouseUp w) =
    (log w ++ (if isPlaying (st w) then [VideoPlay] else []) ++
     if isDragging (st w)
     then teardownCalls w ++ attachCalls (props w) (st w) w
     else [])%list.
Proof.
  intros R Hv. apply reachable_stable in R.
  destruct (Stable_rendered w R Hv) as [Hm He].
  split.
  - assert (ScrubChange t <> Unmount) as Hu by discriminate.
    assert (handle (ScrubChange t) w =
            Dom.video_set_currentTime t (setCurrentTime t (setIsDragging true w))) as Eh.
    { simpl handle. unfold markup, always, onScrubChange. rewrite Hm, Hv. reflexivity. }
    pose proof (step_init_only (ScrubChange t) w R Hu) as H.
    rewrite Eh in H.
    destruct (H Hv He eq_refl) as [El _]. clear H.
    rewrite El. clear El.
    unfold React.init_changed, closureOf, InitClosure_eqb. simpl.
    rewrite String.eqb_refl, StreamType_eqb_refl,
      (same_opt_refl _ same_object_refl), Bool.eqb_reflx.
    unfold teardownCalls, attachCalls. simpl. rewrite Hv.
    destruct (isDragging (st w)); simpl; rewrite <- ?app_assoc; reflexivity.
  - assert (ScrubMouseUp <> Unmount) as Hu by discriminate.
    assert (handle ScrubMouseUp w =
            if isPlaying (st w) then Dom.video_play (setIsDragging false w)
            else setIsDragging false w) as Eh.
    { simpl handle. unfold markup, always, onScrubMouseUp.
      rewrite Hm, Hv. cbn [andb]. rewrite Bool.andb_true_r.
      destruct (isPlaying (st w)); reflexivity. }
    pose proof (step_init_only ScrubMouseUp w R Hu) as H.
    rewrite Eh in H. clear Eh.
    destruct (isPlaying (st w)) eqn:Ip;
      (destruct (H Hv He) as [El _];
       [simpl; rewrite Ip; reflexivity|]; clear H;
       rewrite El; clear El;
       unfold React.init_changed, closureOf, InitClosure_eqb; simpl;
       rewrite String.eqb_refl, StreamType_eqb_refl,
         (same_opt_refl _ same_object_refl), Bool.eqb_reflx;
       unfold teardownCalls, attachCalls; simpl; rewrite Hv;
       destruct (isDragging (st w)); simpl; rewrite <- ?app_assoc, ?app_nil_r;
       reflexivity).
Qed.

Lemma scrub_reattaches_stream_witness :
  reachable watching /\ videoRef watching = true /\
  log (step (ScrubChange 30) watching) =
    (log watching ++ [VideoSetCurrentTime 30] ++
     if isDragging (st watching) then []
     else teardownCalls watching ++
          attachCalls (props watching) (st watching) watching)%list /\
  log (step ScrubMouseUp watching) =
    (log watching ++ (if isPlaying (st watching) then [VideoPlay] else []) ++
     if isDragging (st watching)
     then teardownCalls watching ++
          attachCalls (props watching) (st watching) watching
     else [])%list.
Proof.
  assert (reachable watching) as R.
  { unfold watching. apply reachable_run. apply reachable_mount. }
  assert (videoRef watching = true) as Hv by (vm_compute; reflexivity).
  split; [exact R|]. split; [exact Hv|].
  exact (scrub_reattaches_stream watching 30 R Hv).
Defined.

(** X7: toggling "Auto-play Next" restarts the stream.  The toggle is
    bound for an episode with the settings panel open; it flips
    [autoPlayNext], which is a dependency of the video-init effect, so the
    step runs the teardown and a fresh attach of the same stream. *)
Theorem autoPlayNext_toggle_reattaches w :
  reachable w -> videoRef w = true ->
  showSettings (st w) = true -> streamType (props w) = episode ->
  autoPlayNext (st (step AutoPlayNextClick w)) = negb (autoPlayNext (st w)) /\
  log (step AutoPlayNextClick w) =
    (log w ++ teardownCalls w ++ attachCalls (props w) (st w) w)%list.
Proof.
  intros R Hv Hs Ht. apply reachable_stable in R.
  destruct (Stable_rendered w R Hv) as [Hm He].
  assert (AutoPlayNextClick <> Unmount) as Hu by discriminate.
  assert (handle AutoPlayNextClick w =
          setAutoPlayNext (negb (autoPlayNext (st w))) w) as Eh.
  { simpl handle. unfold markup, onAutoPlayNextClick.
    rewrite Hm, Hv, Hs, Ht. reflexivity. }
  split.
  - destruct (step_cells AutoPlayNextClick w R) as [Ec _].
    rewrite Eh in Ec. unfold cells, cellsOf in Ec. simpl in Ec. congruence.
  - pose proof (step_init_only AutoPlayNextClick w R Hu) as H.
    rewrite Eh in H.
    destruct (H Hv He eq_refl) as [El _]. clear H.
    rewrite El. clear El.
    unfold React.init_changed, closureOf, InitClosure_eqb. simpl.
    rewrite String.eqb_refl, StreamType_eqb_refl,
      (same_opt_refl _ same_object_refl), Bool.eqb_reflx.
    unfold teardownCalls, attachCalls. simpl. rewrite Hv.
    destruct (autoPlayNext (st w)); reflexivity.
Qed.

Lemma autoPlayNext_toggle_reattaches_witness :
  reachable (run [SettingsClick] (mount true false (episodeMp4 (Some "4")))) /\
  videoRef (run [SettingsClick] (mount true false (episodeMp4 (Some "4")))) = true /\
  showSettings (st (run [SettingsClick] (mount true false (episodeMp4 (Some "4"))))) = true /\
  streamType (props (run [SettingsClick] (mount true false (episodeMp4 (Some "4"))))) = episode /\
  autoPlayNext (st (step AutoPlayNextClick
     (run [SettingsClick] (mount true false (episodeMp4 (Some "4")))))) =
    negb (autoPlayNext (st (run [SettingsClick] (mount true false (episodeMp4 (Some "4")))))) /\
  log (step AutoPlayNextClick
     (run [SettingsClick] (mount true false (episodeMp4 (Some "4"))))) =
    (log (run [SettingsClick] (mount true false (episodeMp4 (Some "4")))) ++
     teardownCalls (run [SettingsClick] (mount true false (episodeMp4 (Some "4")))) ++
     attachCalls (props (run [SettingsClick] (mount true false (episodeMp4 (Some "4")))))
       (st (run [SettingsClick] (mount true false (episodeMp4 (Some "4")))))
       (run [SettingsClick] (mount true false (episodeMp4 (Some "4")))))%list.
Proof.
  assert (reachable (run [SettingsClick] (mount true false (episodeMp4 (Some "4"))))) as R
    by (apply reachable_run, reachable_mount).
  assert (videoRef (run [SettingsClick] (mount true false (episodeMp4 (Some "4")))) = true)
    as Hv by (vm_compute; reflexivity).
  assert (showSettings (st (run [SettingsClick]
            (mount true false (episodeMp4 (Some "4"))))) = true)
    as Hs by (vm_compute; reflexivity).
  assert (streamType (props (run [SettingsClick]
            (mount true false (episodeMp4 (Some "4"))))) = episode)
    as Ht by (vm_compute; reflexivity).
  split; [exact R|]. split; [exact Hv|]. split; [exact Hs|]. split; [exact Ht|].
  exact (autoPlayNext_toggle_reattaches _ R Hv Hs Ht).
Defined.

(** ** Events that leave the engine alone *)

(** The events whose handlers change a dependency of the video-init effect,
    and the unmount. *)
Definition reattaching (e : Event) : bool :=
  match e with
  | PropsChange _ | Unmount | ScrubChange _ | ScrubMouseUp | ScrubTouchEnd
  | AutoPlayNextClick => true
  | _ => false
  end.

Definition initDeps (w : World) := (props w, isDragging (st w), autoPlayNext (st w)).

Lemma initDeps_closureOf w w' :
  initDeps w' = initDeps w -> closureOf (props w') (st w') = closureOf (props w) (st w).
Proof. unfold initDeps, closureOf. intros E. injection E as -> -> ->. reflexivity. Qed.

Lemma handleKeyDown_initDeps k key w :
  initDeps (handleKeyDown k key w) = initDeps w.
Proof.
  pose proof (handleKeyDown_cases k key w) as H. simpl in H.
  repeat (destruct H as [H|H]; [rewrite <- H; clear H|]); try contradiction;
    unfold togglePlayPause, toggleMute, toggleFullscreen, seek, changeVolume,
      when, seq; cases; reflexivity.
Qed.

Lemma callbacks_initDeps (l : list Timer) :
  Preserves initDeps (each (fun t => hideControlsCallback (t_isPlaying t)) l).
Proof.
  apply Preserves_each. intros t w.
  unfold hideControlsCallback, when. cases; reflexivity.
Qed.

Lemma handle_initDeps e w :
  v_listeners (video w) = listenersOf (initCleanup w) ->
  reattaching e = false ->
  initDeps (handle e w) = initDeps w.
Proof.
  intros Hl Hp.
  destruct e; try discriminate Hp; simpl handle;
    try (unfold markup; cases; [|reflexivity];
         unfold togglePlayPause, toggleMute, toggleFullscreen, changeVolume,
           changePlaybackRate, onProgressClick, onBackClick, onInfoClick,
           onSettingsClick, onSubtitlesClick, when, seq;
         cases; reflexivity).
  - rewrite (dispatchMedia_wired _ _ Hl).
    destruct (initCleanup w); [|reflexivity].
    destruct e; simpl;
      unfold handleLoadedMetadata, handleTimeUpdate, updateProgress,
        handleVolumeChange, handleError, handleEnded, when, seq;
      cases; reflexivity.
  - reflexivity.
  - reflexivity.
  - reflexivity.
  - unfold dispatchEngine, onHlsError, seq. destruct e; cases; reflexivity.
  - unfold dispatchContainer, handleMouseMove, showControlsWithTimeout,
      clearControlsTimeout, Dom.setTimeout, Dom.clearTimeout, seq.
    cases; reflexivity.
  - unfold dispatchContainer, handleMouseEnter. cases; reflexivity.
  - unfold dispatchContainer, handleMouseLeave, when. cases; reflexivity.
  - destruct (keydownListener w); [apply handleKeyDown_initDeps | reflexivity].
  - unfold handleFullscreenChange, when, seq. cases; reflexivity.
  - unfold seq, fireTimers. unfold seq. rewrite callbacks_initDeps. reflexivity.
Qed.

Lemma update_effects_neutral p0 s0 p s :
  React.init_changed p0 s0 p s = false ->
  Preserves engineOf (React.update_effects p0 s0 p s).
Proof.
  intros Hi. unfold React.update_effects. rewrite Hi, !when_false.
  repeat (apply Preserves_seq; [neutral|]). neutral.
Qed.

Lemma commit_neutral p0 s0 w :
  rendered w = Some (p0, s0) ->
  closureOf p0 s0 = closureOf (props w) (st w) ->
  engineOf (React.commit w) = engineOf w.
Proof.
  intros Hr Ec. unfold React.commit.
  destruct (negb (mounted w)); [reflexivity|].
  rewrite Hr, !seq_apply.
  rewrite engineOf_set_rendered, update_effects_neutral, engineOf_sync_refs;
    [reflexivity|].
  unfold React.init_changed. rewrite Ec, InitClosure_eqb_refl. reflexivity.
Qed.

(** X8: only a change of props, a drag of the scrubber, the auto-play-next
    toggle and the unmount touch the engine.  Under every other event, in
    every reachable state, no engine is constructed or destroyed and
    [hlsRef] holds what it held. *)
Theorem engine_untouched w e :
  reachable w -> reattaching e = false ->
  filter isEngineCall (log (step e w)) = filter isEngineCall (log w) /\
  hlsRef (step e w) = hlsRef w.
Proof.
  intros R Hq. apply reachable_stable in R.
  assert (e <> Unmount) as Hu by (intros ->; discriminate Hq).
  assert (engineOf (step e w) = engineOf w) as E.
  { unfold step. rewrite seq_apply.
    destruct (handle_engineOf e w (Stable_listeners w R) Hu) as [Ee _].
    pose proof (handle_initDeps e w (Stable_listeners w R) Hq) as Ed.
    destruct R as [[P _]|U].
    - pose proof (handle_pending e w P Hu) as P1.
      apply initDeps_closureOf in Ed.
      revert Ee Ed P1. generalize (handle e w). intros w1 Ee Ed P1.
      rewrite <- Ee. clear Ee.
      unfold React.flush. rewrite seq_apply.
      destruct (commit_first _ _ _ P1) as (P2 & Ecells & Ep & _).
      pose proof P1 as [_ Hr1 _ _ _ _].
      rewrite <- (commit_neutral _ _ w1 Hr1 (eq_sym Ed)).
      revert P2 Ecells Ep. generalize (React.commit w1). intros w2 P2 Ecells Ep.
      pose proof P2 as [_ Hr2 _ _ _ _].
      apply (commit_neutral _ _ w2 Hr2).
      rewrite Ep. apply cells_closureOf. unfold cells in Ecells. congruence.
    - rewrite flush_unmounted by apply (handle_unmounted e w U). exact Ee. }
  unfold engineOf, engineCalls in E.
  apply pair_equal_spec in E. exact E.
Qed.

Lemma engine_untouched_witness :
  reachable (mount true false liveHls) /\ reattaching (Media play) = false /\
  filter isEngineCall (log (step (Media play) (mount true false liveHls))) =
    filter isEngineCall (log (mount true false liveHls)) /\
  hlsRef (step (Media play) (mount true false liveHls)) =
    hlsRef (mount true false liveHls).
Proof.
  split; [apply reachable_mount|]. split; [reflexivity|].
  exact (engine_untouched _ (Media play) (reachable_mount true false liveHls) eq_refl).
Defined.

(** ** What a mount attaches *)

(** The world in which the video-init effect of the first commit runs: the
    element is rendered and the three mirroring effects have run. *)
Definition beforeAttach (hs nh : bool) (p : Props) : World :=
  playbackRate_effect initialState
    (muted_effect initialState
       (volume_effect initialState (React.sync_refs (boot hs nh p)))).

Definition mirrorCalls : list Call :=
  [VideoSetVolume (8 # 10); VideoSetMuted false; VideoSetPlaybackRate 1].

Lemma mount_effects_apply p s w :
  React.mount_effects p s w =
  set_keydownListener (Some (keyClosureOf s))
    (set_fullscreenListener true
       (controls s
          (videoInit p s
             (playbackRate_effect s (muted_effect s (volume_effect s w)))))).
Proof. reflexivity. Qed.

Lemma mount_attach hs nh p :
  st (mount hs nh p) = st (videoInit p initialState (beforeAttach hs nh p)) /\
  log (mount hs nh p) = log (videoInit p initialState (beforeAttach hs nh p)) /\
  wiringInit (mount hs nh p) =
    wiringInit (videoInit p initialState (beforeAttach hs nh p)) /\
  video (mount hs nh p) = video (videoInit p initialState (beforeAttach hs nh p)).
Proof.
  destruct (mount_first_commit hs nh p) as (Es & El & Ew & Ev & _).
  cbv zeta in Es, El, Ew, Ev.
  rewrite mount_effects_apply in Es, El, Ew, Ev.
  unfold beforeAttach.
  revert Es El Ew Ev.
  generalize (videoInit p initialState
    (playbackRate_effect initialState
       (muted_effect initialState
          (volume_effect initialState (React.sync_refs (boot hs nh p)))))).
  generalize (mount hs nh p). intros w w1 Es El Ew Ev.
  pose proof (controls_st initialState w1) as C1.
  pose proof (controls_init initialState w1) as C2.
  assert (log (controls initialState w1) = log w1 /\
          video (controls initialState w1) = video w1) as [C3 C4]
    by (unfold controls; cases; split; reflexivity).
  revert Es El Ew Ev C1 C2 C3 C4. generalize (controls initialState w1).
  intros w2 Es El Ew Ev C1 C2 C3 C4.
  simpl in Es, El, Ev. unfold wiring in Ew.
  apply pair_equal_spec in Ew. destruct Ew as [Ew _].
  assert (wiringInit (set_keydownListener (Some (keyClosureOf initialState))
            (set_fullscreenListener true w2)) = wiringInit w2) as Ex by reflexivity.
  rewrite Ex in Ew.
  repeat split; congruence.
Qed.

Lemma beforeAttach_facts hs nh p :
  videoRef (beforeAttach hs nh p) = true /\
  hlsSupported (beforeAttach hs nh p) = hs /\
  nativeHls (beforeAttach hs nh p) = nh /\
  st (beforeAttach hs nh p) = initialState /\
  log (beforeAttach hs nh p) = mirrorCalls /\
  wiringInit (beforeAttach hs nh p) = ([], None, None) /\
  v_src (video (beforeAttach hs nh p)) = "".
Proof. repeat split. Qed.

(** X9: a mount with an empty [streamUrl] attaches nothing.  The three
    mirroring effects write volume, mute and rate to the element, and that
    is all: no listener, no engine, no source, no spinner, no error; the
    media events of the element are then lost on the component. *)
Theorem mount_without_url hs nh p :
  streamUrl p = "" ->
  st (mount hs nh p) = initialState /\
  log (mount hs nh p) = mirrorCalls /\
  v_listeners (video (mount hs nh p)) = [] /\
  hlsRef (mount hs nh p) = None /\
  forall e, st (step (Media e) (mount hs nh p)) = initialState.
Proof.
  intros Hu.
  destruct (mount_attach hs nh p) as (Es & El & Ew & _).
  assert (videoInit p initialState (beforeAttach hs nh p) =
          set_initCleanup None (beforeAttach hs nh p)) as E.
  { unfold videoInit. rewrite Hu. simpl String.eqb. rewrite Bool.orb_true_r.
    reflexivity. }
  rewrite E in Es, El, Ew. clear E.
  pose proof (mount_stable hs nh p) as S.
  revert Es El Ew S. generalize (mount hs nh p). intros w Es El Ew S.
  simpl in Es, El. unfold wiringInit in Ew. simpl in Ew.
  injection Ew as E1 E2 E3.
  repeat split; try assumption.
  intros e.
  assert (handle (Media e) w = w) as Eh.
  { rewrite (handle_media e w S), E2. reflexivity. }
  assert (Media e <> Unmount) as Hne by discriminate.
  destruct (step_quiet (Media e) w S Hne) as (A & _);
    rewrite ?Eh; try reflexivity.
  rewrite A, Eh. exact Es.
Qed.

Lemma mount_without_url_witness :
  streamUrl {| streamUrl := ""; streamType := movie; streamInfo := None;
               onBack := false; episodeData := None |} = "" /\
  st (mount true true {| streamUrl := ""; streamType := movie; streamInfo := None;
                         onBack := false; episodeData := None |}) = initialState /\
  log (mount true true {| streamUrl := ""; streamType := movie; streamInfo := None;
                          onBack := false; episodeData := None |}) = mirrorCalls.
Proof.
  split; [reflexivity|].
  destruct (mount_without_url true true
              {| streamUrl := ""; streamType := movie; streamInfo := None;
                 onBack := false; episodeData := None |} eq_refl) as (A & B & _).
  split; [exact A | exact B].
Defined.

Lemma st_addEventListeners c (l : list MediaEvent) :
  Preserves st (each (Dom.addEventListener c) l).
Proof. apply Preserves_each. intros e w. reflexivity. Qed.

Lemma st_set_initCleanup x w : st (set_initCleanup x w) = st w.
Proof. reflexivity. Qed.

Lemma videoInit_unsupported p s w :
  videoRef w = true -> hlsSupported w = false -> nativeHls w = false ->
  Js.endsWith (streamUrl p) ".m3u8" = true ->
  error (st (videoInit p s w)) =
    Some "HLS playback is not supported in this browser." /\
  isBuffering (st (videoInit p s w)) = false.
Proof.
  intros Hv Hs Hn He. unfold videoInit.
  rewrite Hv, (endsWith_nonempty _ He), He, Hs, Hn. simpl orb. cbv iota.
  rewrite !seq_apply, st_set_initCleanup, st_addEventListeners.
  split; reflexivity.
Qed.

(** X10: in a browser with neither hls.js support nor native HLS, the mount
    of an [.m3u8] stream ends on the error screen: [error] holds the
    "not supported" message, the spinner is off, the video element is no
    longer rendered, no engine and no source were set; the 11 listeners were
    attached all the same. *)
Theorem mount_unsupported_hls p :
  Js.endsWith (streamUrl p) ".m3u8" = true ->
  error (st (mount false false p)) =
    Some "HLS playback is not supported in this browser." /\
  isBuffering (st (mount false false p)) = false /\
  videoRef (mount false false p) = false /\
  hlsRef (mount false false p) = None /\
  log (mount false false p) =
    (mirrorCalls ++ mirrorCalls ++ map VideoAddEventListener mediaEvents)%list.
Proof.
  intros He.
  destruct (mount_attach false false p) as (Es & El & Ew & _).
  destruct (beforeAttach_facts false false p) as (Hv & Hs & Hn & Hst & Hl & Hw & _).
  pose proof (mount_stable false false p) as S.
  destruct (videoInit_unsupported p initialState _ Hv Hs Hn He) as [A B].
  pose proof (log_videoInit p initialState (beforeAttach false false p)) as L.
  assert (hlsRef (beforeAttach false false p) = None) as Hh
    by (unfold wiringInit in Hw; congruence).
  destruct (videoInit_engineCalls p initialState _ Hh) as [_ Eh].
  assert (attachesEngine p (beforeAttach false false p) = false) as Ea
    by (unfold attachesEngine; rewrite Hs; apply Bool.andb_false_r).
  assert (attachCalls p initialState (beforeAttach false false p) =
          (mirrorCalls ++ map VideoAddEventListener mediaEvents)%list) as Ec.
  { unfold attachCalls. rewrite Hv, (endsWith_nonempty _ He), He, Hs, Hn. reflexivity. }
  rewrite Ea in Eh. rewrite Ec, Hl in L. clear Ea Ec Hv Hs Hn Hst Hl Hw Hh.
  revert Es El Ew A B L Eh.
  generalize (videoInit p initialState (beforeAttach false false p)).
  revert S. generalize (mount false false p).
  intros w S w1 Es El Ew A B L Eh.
  rewrite <- Es in A, B. rewrite <- El in L.
  split; [exact A|]. split; [exact B|]. split; [|split].
  - apply (Stable_errored w S). unfold errored. rewrite A. reflexivity.
  - unfold wiringInit in Ew. unfold holdsEngine in Eh.
    assert (hlsRef w = hlsRef w1) as -> by congruence.
    destruct (hlsRef w1); [discriminate | reflexivity].
  - exact L.
Qed.

Lemma mount_unsupported_hls_witness :
  Js.endsWith (streamUrl liveHls) ".m3u8" = true /\
  error (st (mount false false liveHls)) =
    Some "HLS playback is not supported in this browser." /\
  videoRef (mount false false liveHls) = false.
Proof.
  split; [reflexivity|].
  destruct (mount_unsupported_hls liveHls eq_refl) as (A & _ & B & _).
  split; [exact A | exact B].
Defined.

(** The message [handleError] shows for the element's error. *)
Definition videoErrorText (m : option string) : string :=
  "Video error: " ++
  match m with
  | Some m => if String.eqb m "" then "Unknown error" else m
  | None => "Unknown error"
  end.

(** X11: the element's [error] event is shown only when no engine is
    attached.  In a reachable state with the listeners attached, the event
    turns the spinner off; with hls.js attached it leaves [error] as it is,
    otherwise it sets "Video error: " followed by the element's message, or
    by "Unknown error" when the message is missing or empty. *)
Theorem media_error_needs_no_engine w c :
  reachable w -> initCleanup w = Some c ->
  isBuffering (st (step (Media error_ev) w)) = false /\
  error (st (step (Media error_ev) w)) =
    match hlsRef w with
    | Some _ => error (st w)
    | None => Some (videoErrorText (v_errorMessage (video w)))
    end.
Proof.
  intros R Hc. apply reachable_stable in R.
  assert (Media error_ev <> Unmount) as Hu by discriminate.
  assert (handle (Media error_ev) w = handleError w) as Eh.
  { rewrite (handle_media error_ev w R), Hc. reflexivity. }
  destruct (step_quiet (Media error_ev) w R Hu) as (A & _).
  - rewrite Eh. unfold handleError, seq. destruct (hlsRef w); reflexivity.
  - rewrite Eh. unfold handleError, seq. destruct (hlsRef w); reflexivity.
  - rewrite A, Eh. unfold handleError, videoErrorText, seq.
    destruct (hlsRef w); split; reflexivity.
Qed.

Lemma media_error_needs_no_engine_witness :
  reachable (run [Failure None] (mount true false movieMp4)) /\
  initCleanup (run [Failure None] (mount true false movieMp4)) =
    Some (closureOf movieMp4 initialState) /\
  error (st (step (Media error_ev) (run [Failure None] (mount true false movieMp4)))) =
    Some "Video error: Unknown error".
Proof.
  assert (reachable (run [Failure None] (mount true false movieMp4))) as R
    by (apply reachable_run, reachable_mount).
  assert (initCleanup (run [Failure None] (mount true false movieMp4)) =
          Some (closureOf movieMp4 initialState)) as Hc by (vm_compute; reflexivity).
  split; [exact R|]. split; [exact Hc|].
  destruct (media_error_needs_no_engine _ _ R Hc) as [_ E].
  rewrite E. vm_compute. reflexivity.
Defined.

(** * The time display *)

From Stdlib Require Import ZArith Qround DecimalString DecimalZ.

(** [Math.floor] and the remainder operator [%] (whose result has the sign
    of the dividend) on numbers, [toString] on an integral number and
    [padStart] with a one-character filler. *)
Definition Math_floor (x : Q) : Z := Qfloor x.

Definition Math_trunc (x : Q) : Z :=
  if Qle_bool 0 x then Qfloor x else Qceiling x.

Definition Number_rem (x : Q) (y : Z) : Q :=
  x - inject_Z y * inject_Z (Math_trunc (x / inject_Z y)).

Definition Number_toString (z : Z) : string :=
  NilZero.string_of_int (Z.to_int z).

Fixpoint replicate (k : nat) (c : ascii) : string :=
  match k with
  | O => EmptyString
  | S k => String c (replicate k c)
  end.

Definition padStart (n : nat) (c : ascii) (s : string) : string :=
  replicate (n - String.length s) c ++ s.

(** [formatTime]; [None] is [NaN]. *)
Definition formatTime (seconds : option Q) : string :=
  match seconds with
  | None => "00:00"
  | Some seconds =>
      let h := Math_floor (seconds / 3600) in
      let m := Math_floor (Number_rem seconds 3600 / 60) in
      let s := Math_floor (Number_rem seconds 60) in
      if (0 <? h)%Z then
        Number_toString h ++ ":" ++ padStart 2 "0" (Number_toString m) ++ ":" ++
        padStart 2 "0" (Number_toString s)
      else
        Number_toString m ++ ":" ++ padStart 2 "0" (Number_toString s)
  end.

Lemma Qfloor_unique (x : Q) (z : Z) :
  inject_Z z <= x -> x < inject_Z (z + 1) -> Qfloor x = z.
Proof.
  intros H1 H2.
  pose proof (Qfloor_le x) as F1. pose proof (Qlt_floor x) as F2.
  assert (inject_Z z < inject_Z (Qfloor x + 1)) as A by (eapply Qle_lt_trans; eassumption).
  assert (inject_Z (Qfloor x) < inject_Z (z + 1)) as B by (eapply Qle_lt_trans; eassumption).
  rewrite <- Zlt_Qlt in A, B. lia.
Qed.

Lemma Qfloor_minus_Z (x : Q) (z : Z) : Qfloor (x - inject_Z z) = (Qfloor x - z)%Z.
Proof.
  apply Qfloor_unique.
  - pose proof (Qfloor_le x) as F.
    unfold Z.sub. rewrite inject_Z_plus, inject_Z_opp.
    unfold Qminus. apply Qplus_le_compat; [exact F | apply Qle_refl].
  - pose proof (Qlt_floor x) as F.
    replace (Qfloor x - z + 1)%Z with ((Qfloor x + 1) + - z)%Z by lia.
    rewrite inject_Z_plus, inject_Z_opp.
    unfold Qminus. apply Qplus_lt_le_compat; [exact F | apply Qle_refl].
Qed.

Lemma Qfloor_div_pos (x : Q) (k : positive) :
  Qfloor (x / inject_Z (Zpos k)) = (Qfloor x / Zpos k)%Z.
Proof.
  destruct x as [a b]. unfold Qdiv, Qinv, inject_Z, Qmult, Qfloor. simpl.
  rewrite Z.mul_1_r, Pos2Z.inj_mul.
  rewrite Z.div_div; [reflexivity | discriminate | reflexivity].
Qed.

Lemma Math_trunc_nonneg (x : Q) : 0 <= x -> Math_trunc x = Qfloor x.
Proof.
  intros H. unfold Math_trunc.
  apply Qle_bool_iff in H. rewrite H. reflexivity.
Qed.

Lemma Qdiv_pos_nonneg (x : Q) (k : positive) : 0 <= x -> 0 <= x / inject_Z (Zpos k).
Proof.
  intros H. unfold Qdiv. apply Qmult_le_0_compat; [exact H|].
  apply Qinv_le_0_compat. discriminate.
Qed.

(** On a non-negative number the remainder is taken from the whole part. *)
Lemma Qfloor_rem (x : Q) (k : positive) :
  0 <= x ->
  Qfloor (Number_rem x (Zpos k)) = (Qfloor x mod Zpos k)%Z.
Proof.
  intros H. unfold Number_rem.
  rewrite (Math_trunc_nonneg _ (Qdiv_pos_nonneg x k H)), Qfloor_div_pos.
  rewrite <- inject_Z_mult, Qfloor_minus_Z.
  rewrite Z.mod_eq by discriminate. reflexivity.
Qed.

Lemma Number_rem_nonneg (x : Q) (k : positive) : 0 <= x -> 0 <= Number_rem x (Zpos k).
Proof.
  intros H. unfold Number_rem.
  rewrite (Math_trunc_nonneg _ (Qdiv_pos_nonneg x k H)), Qfloor_div_pos.
  rewrite <- inject_Z_mult.
  assert (inject_Z (Zpos k * (Qfloor x / Zpos k)) <= x) as A.
  { eapply Qle_trans; [|apply Qfloor_le].
    rewrite <- Zle_Qle. apply Z.mul_div_le. reflexivity. }
  unfold Qminus. rewrite <- (Qplus_opp_r (inject_Z (Zpos k * (Qfloor x / Zpos k)))).
  apply Qplus_le_compat; [exact A | apply Qle_refl].
Qed.

Lemma Qfloor_rem_div (x : Q) (k j : positive) :
  0 <= x ->
  Qfloor (Number_rem x (Zpos k) / inject_Z (Zpos j)) =
  ((Qfloor x mod Zpos k) / Zpos j)%Z.
Proof.
  intros H. rewrite Qfloor_div_pos, (Qfloor_rem x k H). reflexivity.
Qed.

(** The display of a whole number of seconds. *)
Definition clock (n : Z) : string :=
  let h := (n / 3600)%Z in
  let m := ((n mod 3600) / 60)%Z in
  let s := (n mod 60)%Z in
  if (0 <? h)%Z then
    Number_toString h ++ ":" ++ padStart 2 "0" (Number_toString m) ++ ":" ++
    padStart 2 "0" (Number_toString s)
  else
    Number_toString m ++ ":" ++ padStart 2 "0" (Number_toString s).

Lemma formatTime_clock (x : Q) : 0 <= x -> formatTime (Some x) = clock (Qfloor x).
Proof.
  intros H. unfold formatTime, clock, Math_floor. cbv zeta.
  change 3600 with (inject_Z 3600). change 60 with (inject_Z 60).
  rewrite (Qfloor_div_pos x 3600), (Qfloor_rem_div x 3600 60 H), (Qfloor_rem x 60 H).
  reflexivity.
Qed.

(** *** Reading the display back *)

Fixpoint colons (s : string) : nat :=
  match s with
  | EmptyString => O
  | String c r => ((if Ascii.eqb c ":" then 1 else 0) + colons r)%nat
  end.

Lemma colons_app (a b : string) : colons (a ++ b) = (colons a + colons b)%nat.
Proof. induction a as [|c r IH]; simpl; [reflexivity|]. rewrite IH. lia. Qed.

Lemma colons_uint (d : Decimal.uint) : colons (NilEmpty.string_of_uint d) = O.
Proof. induction d; simpl; trivial. Qed.

Lemma colons_toString (z : Z) : colons (Number_toString z) = O.
Proof.
  unfold Number_toString, NilZero.string_of_int, NilZero.string_of_uint.
  destruct z as [|p|p]; simpl; [reflexivity| |];
    destruct (Pos.to_uint p) eqn:E; try reflexivity;
    rewrite <- E; simpl; apply colons_uint.
Qed.

Lemma colons_replicate k : colons (replicate k "0") = O.
Proof. induction k; simpl; trivial. Qed.

Lemma colons_pad (s : string) : colons (padStart 2 "0" s) = colons s.
Proof. unfold padStart. rewrite colons_app, colons_replicate. reflexivity. Qed.

(** Two strings that agree split alike at their first colon. *)
Lemma split_at_colon (a b r1 r2 : string) :
  colons a = O -> colons b = O ->
  a ++ ":" ++ r1 = b ++ ":" ++ r2 -> a = b /\ r1 = r2.
Proof.
  revert b. induction a as [|c a IH]; intros b Ha Hb E.
  - destruct b as [|d b]; simpl in *.
    + injection E as E. split; [reflexivity | exact E].
    + injection E as E1 E2. subst d. simpl in Hb. discriminate.
  - destruct b as [|d b]; simpl in *.
    + injection E as E1 E2. subst c. simpl in Ha. discriminate.
    + injection E as E1 E2. subst d.
      destruct (Ascii.eqb c ":"); [discriminate|]. simpl in Ha, Hb.
      destruct (IH b Ha Hb E2) as [-> ->]. split; reflexivity.
Qed.

Lemma Number_toString_inj (a b : Z) : Number_toString a = Number_toString b -> a = b.
Proof.
  unfold Number_toString. intros E.
  assert (forall z, Z.to_int z <> Decimal.Pos Decimal.Nil /\
                    Z.to_int z <> Decimal.Neg Decimal.Nil) as N.
  { intros [|p|p]; simpl; split; try discriminate;
      intros H; injection H as H; exact (DecimalPos.Unsigned.to_uint_nonnil p H). }
  apply DecimalZ.to_int_inj.
  pose proof (NilZero.isi (Z.to_int a) (proj1 (N a)) (proj2 (N a))) as A.
  pose proof (NilZero.isi (Z.to_int b) (proj1 (N b)) (proj2 (N b))) as B.
  rewrite E in A. congruence.
Qed.

Definition pad2 (k : nat) : string := padStart 2 "0" (Number_toString (Z.of_nat k)).

Definition pad2_table_ok : bool :=
  forallb (fun i =>
    Nat.eqb (String.length (pad2 i)) 2 &&
    forallb (fun j => implb (String.eqb (pad2 i) (pad2 j)) (Nat.eqb i j))
            (List.seq 0 60))
    (List.seq 0 60).

Lemma pad2_table : pad2_table_ok = true.
Proof. vm_compute. reflexivity. Qed.

Lemma pad2_facts (a b : Z) :
  (0 <= a < 60)%Z -> (0 <= b < 60)%Z ->
  String.length (padStart 2 "0" (Number_toString a)) = 2%nat /\
  (padStart 2 "0" (Number_toString a) = padStart 2 "0" (Number_toString b) -> a = b).
Proof.
  intros Ha Hb.
  pose proof pad2_table as T. unfold pad2_table_ok in T.
  rewrite forallb_forall in T.
  assert (In (Z.to_nat a) (List.seq 0 60)) as Ia by (apply in_seq; lia).
  assert (In (Z.to_nat b) (List.seq 0 60)) as Ib by (apply in_seq; lia).
  specialize (T _ Ia). apply andb_prop in T. destruct T as [T1 T2].
  rewrite forallb_forall in T2. specialize (T2 _ Ib).
  unfold pad2 in T1, T2.
  rewrite (Z2Nat.id a) in T1, T2 by lia. rewrite (Z2Nat.id b) in T2 by lia.
  split; [apply Nat.eqb_eq; exact T1|].
  intros E. apply String.eqb_eq in E. rewrite E in T2. simpl in T2.
  apply Nat.eqb_eq in T2. lia.
Qed.

Lemma clock_parts (n : Z) :
  (0 <= n)%Z ->
  (0 <= n / 3600 /\ 0 <= (n mod 3600) / 60 < 60 /\ 0 <= n mod 60 < 60 /\
   n = (n / 3600) * 3600 + ((n mod 3600) / 60) * 60 + n mod 60)%Z.
Proof.
  intros H.
  pose proof (Z.mod_pos_bound n 3600 eq_refl) as B1.
  pose proof (Z.mod_pos_bound n 60 eq_refl) as B2.
  pose proof (Z.div_mod n 3600) as D1.
  pose proof (Z.div_mod (n mod 3600) 60) as D2.
  assert ((n mod 3600) mod 60 = n mod 60)%Z as M.
  { apply Z.mod_mod_divide. exists 60%Z. reflexivity. }
  assert (0 <= n / 3600)%Z by (apply Z.div_pos; lia).
  assert (0 <= (n mod 3600) / 60 < 60)%Z.
  { split; [apply Z.div_pos; lia|]. apply Z.div_lt_upper_bound; lia. }
  lia.
Qed.

Lemma clock_inj (a b : Z) : (0 <= a)%Z -> (0 <= b)%Z -> clock a = clock b -> a = b.
Proof.
  intros Ha Hb E.
  destruct (clock_parts a Ha) as (A1 & A2 & A3 & A4).
  destruct (clock_parts b Hb) as (B1 & B2 & B3 & B4).
  unfold clock in E. cbv zeta in E.
  revert A1 A2 A3 A4 B1 B2 B3 B4 E.
  generalize (a / 3600)%Z ((a mod 3600) / 60)%Z (a mod 60)%Z
             (b / 3600)%Z ((b mod 3600) / 60)%Z (b mod 60)%Z.
  intros ha ma sa hb mb sb A1 A2 A3 A4 B1 B2 B3 B4 E.
  assert (forall h m s : Z,
    colons (Number_toString m ++ ":" ++ padStart 2 "0" (Number_toString s)) = 1%nat /\
    colons (Number_toString h ++ ":" ++ padStart 2 "0" (Number_toString m) ++ ":" ++
            padStart 2 "0" (Number_toString s)) = 2%nat) as C.
  { intros h m s. rewrite !colons_app, !colons_pad, !colons_toString. split; reflexivity. }
  destruct (0 <? ha)%Z eqn:Pa; destruct (0 <? hb)%Z eqn:Pb.
  - apply split_at_colon in E; try apply colons_toString.
    destruct E as [Eh E]. apply Number_toString_inj in Eh.
    apply split_at_colon in E; try (rewrite colons_pad; apply colons_toString).
    destruct E as [Em Es].
    apply (proj2 (pad2_facts ma mb A2 B2)) in Em.
    apply (proj2 (pad2_facts sa sb A3 B3)) in Es. lia.
  - apply (f_equal colons) in E.
    rewrite (proj2 (C ha ma sa)), (proj1 (C hb mb sb)) in E. discriminate.
  - apply (f_equal colons) in E.
    rewrite (proj1 (C ha ma sa)), (proj2 (C hb mb sb)) in E. discriminate.
  - apply split_at_colon in E; try apply colons_toString.
    destruct E as [Em Es]. apply Number_toString_inj in Em.
    apply (proj2 (pad2_facts sa sb A3 B3)) in Es.
    apply Z.ltb_ge in Pa, Pb. lia.
Qed.

(** X12: the display shows the whole part of a non-negative time, split
    into hours, minutes below 60 and seconds below 60; the hours are shown
    only when positive, the seconds always two characters wide, and so are
    the minutes after an hour field.  The fraction of a second never shows. *)
Theorem formatTime_fields (x : Q) :
  0 <= x ->
  exists h m s : Z,
    (0 <= h /\ 0 <= m < 60 /\ 0 <= s < 60 /\
     Qfloor x = h * 3600 + m * 60 + s)%Z /\
    formatTime (Some x) =
      (if (0 <? h)%Z then
         Number_toString h ++ ":" ++ padStart 2 "0" (Number_toString m) ++ ":" ++
         padStart 2 "0" (Number_toString s)
       else Number_toString m ++ ":" ++ padStart 2 "0" (Number_toString s)) /\
    String.length (padStart 2 "0" (Number_toString m)) = 2%nat /\
    String.length (padStart 2 "0" (Number_toString s)) = 2%nat.
Proof.
  intros H.
  assert (0 <= Qfloor x)%Z as Hn.
  { change 0%Z with (Qfloor 0). apply Qfloor_resp_le. exact H. }
  destruct (clock_parts _ Hn) as (A1 & A2 & A3 & A4).
  exists (Qfloor x / 3600)%Z, ((Qfloor x mod 3600) / 60)%Z, (Qfloor x mod 60)%Z.
  split; [repeat split; try apply A2; try apply A3; assumption|].
  split; [apply (formatTime_clock x H)|].
  split; [apply (pad2_facts _ _ A2 A2) | apply (pad2_facts _ _ A3 A3)].
Qed.

Lemma formatTime_fields_witness :
  0 <= 3725 # 1 /\
  exists h m s : Z,
    (0 <= h /\ 0 <= m < 60 /\ 0 <= s < 60 /\
     Qfloor (3725 # 1) = h * 3600 + m * 60 + s)%Z /\
    formatTime (Some (3725 # 1)) =
      (if (0 <? h)%Z then
         Number_toString h ++ ":" ++ padStart 2 "0" (Number_toString m) ++ ":" ++
         padStart 2 "0" (Number_toString s)
       else Number_toString m ++ ":" ++ padStart 2 "0" (Number_toString s)) /\
    String.length (padStart 2 "0" (Number_toString m)) = 2%nat /\
    String.length (padStart 2 "0" (Number_toString s)) = 2%nat.
Proof.
  assert (0 <= 3725 # 1) as H by (unfold Qle; simpl; lia).
  split; [exact H|]. exact (formatTime_fields (3725 # 1) H).
Defined.

(** X13: two non-negative times are displayed alike exactly when they fall
    in the same second. *)
Theorem formatTime_same_second (x y : Q) :
  0 <= x -> 0 <= y ->
  (formatTime (Some x) = formatTime (Some y) <-> Qfloor x = Qfloor y).
Proof.
  intros Hx Hy. rewrite (formatTime_clock x Hx), (formatTime_clock y Hy).
  split.
  - apply clock_inj; change 0%Z with (Qfloor 0); apply Qfloor_resp_le; assumption.
  - intros ->. reflexivity.
Qed.

Lemma formatTime_same_second_witness :
  0 <= 125 # 2 /\ 0 <= 62 # 1 /\
  (formatTime (Some (125 # 2)) = formatTime (Some (62 # 1)) <->
   Qfloor (125 # 2) = Qfloor (62 # 1)).
Proof.
  assert (0 <= 125 # 2) as Hx by (unfold Qle; simpl; lia).
  assert (0 <= 62 # 1) as Hy by (unfold Qle; simpl; lia).
  split; [exact Hx|]. split; [exact Hy|].
  exact (formatTime_same_second (125 # 2) (62 # 1) Hx Hy).
Defined.

(** ** The caller's callback *)

Ltac caller_fin :=
  unfold skip; simpl; rewrite ?filter_app; simpl; rewrite ?app_nil_r;
  first [reflexivity | congruence].

Lemma handleKeyDown_callerCalls k key w :
  callerCalls (handleKeyDown k key w) = callerCalls w.
Proof.
  pose proof (handleKeyDown_cases k key w) as H. simpl in H.
  repeat (destruct H as [H|H]; [rewrite <- H; clear H|]); try contradiction;
    unfold callerCalls, togglePlayPause, toggleMute, toggleFullscreen,
      seek, changeVolume, Dom.video_play, Dom.video_pause, Dom.video_set_muted,
      Dom.video_set_volume, Dom.video_set_currentTime, when, seq;
    cases; caller_fin.
Qed.

Lemma callbacks_callerCalls (l : list Timer) :
  Preserves callerCalls (each (fun t => hideControlsCallback (t_isPlaying t)) l).
Proof.
  apply Preserves_each. intros t w.
  unfold hideControlsCallback, when. cases; reflexivity.
Qed.

Definition isBackClick (e : Event) : bool :=
  match e with BackClick => true | _ => false end.

Lemma handle_callerCalls e w :
  v_listeners (video w) = listenersOf (initCleanup w) ->
  isBackClick e = false ->
  callerCalls (handle e w) = callerCalls w.
Proof.
  intros Hl Hb.
  destruct e; try discriminate Hb; simpl handle;
    try (unfold markup; cases; [|reflexivity];
         unfold callerCalls,
           togglePlayPause, toggleMute, toggleFullscreen, changeVolume,
           changePlaybackRate, onProgressClick, onScrubChange, onScrubMouseUp,
           onScrubTouchEnd, onInfoClick, onSettingsClick,
           onSubtitlesClick, onAutoPlayNextClick,
           Dom.video_play, Dom.video_pause, Dom.video_set_muted,
           Dom.video_set_volume, Dom.video_set_currentTime,
           Dom.video_set_playbackRate, when, seq;
         cases; caller_fin).
  - rewrite (dispatchMedia_wired _ _ Hl).
    destruct (initCleanup w); [|reflexivity].
    destruct e; simpl;
      unfold callerCalls, handleLoadedMetadata, handleTimeUpdate,
        updateProgress, handleVolumeChange, handleError, handleEnded, when, seq;
      cases; caller_fin.
  - reflexivity.
  - reflexivity.
  - reflexivity.
  - unfold dispatchEngine, onHlsError, callerCalls, seq.
    destruct e; cases; caller_fin.
  - unfold dispatchContainer, handleMouseMove, showControlsWithTimeout,
      clearControlsTimeout, Dom.setTimeout, Dom.clearTimeout, callerCalls, seq.
    cases; caller_fin.
  - unfold dispatchContainer, handleMouseEnter. cases; reflexivity.
  - unfold dispatchContainer, handleMouseLeave, when. cases; reflexivity.
  - destruct (keydownListener w); [apply handleKeyDown_callerCalls | reflexivity].
  - unfold handleFullscreenChange, when, seq. cases; reflexivity.
  - unfold seq, fireTimers. unfold seq. rewrite callbacks_callerCalls. reflexivity.
  - unfold React.unmount.
    destruct (negb (mounted w)); [reflexivity|].
    rewrite !seq_apply.
    change (callerCalls (set_mounted false (set_rendered None (set_videoRef false
              (set_keydownListener None (set_fullscreenListener false ?x))))))
      with (callerCalls x).
    rewrite callerCalls_run_controls_cleanup, callerCalls_run_init_cleanup.
    reflexivity.
Qed.

(** X14: [onBack] is called by the back button and by nothing else.  In
    every reachable state, a click on the back button calls the caller's
    [onBack] once if the player is rendered and the prop was given; no other
    event, and no effect, ever calls it. *)
Theorem onBack_only_from_back_button w e :
  reachable w ->
  callerCalls (step e w) =
    (callerCalls w ++
     if isBackClick e && videoRef w && onBack (props w)
     then [PropsOnBack] else [])%list.
Proof.
  intros R. apply reachable_stable in R.
  unfold step. rewrite seq_apply, callerCalls_flush.
  destruct (isBackClick e) eqn:Eb.
  - destruct e; try discriminate Eb. simpl handle. unfold markup, always.
    destruct (videoRef w) eqn:Hv.
    + rewrite (Stable_videoRef w R Hv). simpl andb.
      unfold onBackClick, callerCalls.
      destruct (onBack (props w)); simpl;
        rewrite ?filter_app, ?app_nil_r; reflexivity.
    + rewrite Bool.andb_false_r. simpl. rewrite app_nil_r. reflexivity.
  - rewrite (handle_callerCalls e w (Stable_listeners w R) Eb).
    simpl. rewrite app_nil_r. reflexivity.
Qed.

Lemma onBack_only_from_back_button_witness :
  reachable watching /\
  callerCalls (step BackClick watching) =
    (callerCalls watching ++
     if isBackClick BackClick && videoRef watching && onBack (props watching)
     then [PropsOnBack] else [])%list.
Proof.
  assert (reachable watching) as R.
  { unfold watching. apply reachable_run. apply reachable_mount. }
  split; [exact R|]. exact (onBack_only_from_back_button watching BackClick R).
Defined.

(** ** Volume *)

Definition inUnit (x : Q) : Prop := 0 <= x /\ x <= 1.

(** The volume cell and the element's volume. *)
Definition audioOf (w : World) := (volume (st w), v_volume (video w)).

(** The volume cell and the element's volume lie in [[0, 1]]. *)
Definition Audio (w : World) : Prop :=
  inUnit (volume (st w)) /\ inUnit (v_volume (video w)).

Lemma Audio_frame w w' : audioOf w' = audioOf w -> Audio w -> Audio w'.
Proof.
  unfold audioOf, Audio. intros E. injection E as -> ->. exact (fun x => x).
Qed.

Lemma inUnit_clamp (x : Q) : inUnit (Js.Math_max 0 (Js.Math_min 1 x)).
Proof. apply (clamp_bounds 1 x). discriminate. Qed.

Lemma Audio_changeVolume v w : Audio w -> Audio (changeVolume v w).
Proof.
  intros (A & B). unfold changeVolume.
  destruct (negb (videoRef w)); [exact (conj A B)|].
  split; [exact A | apply inUnit_clamp].
Qed.

Lemma handleKeyDown_audio k key w : Audio w -> Audio (handleKeyDown k key w).
Proof.
  intros A.
  pose proof (handleKeyDown_cases k key w) as H. simpl in H.
  repeat (destruct H as [H|H]; [rewrite <- H; clear H|]); try contradiction;
    try (apply Audio_changeVolume; exact A);
    (apply (Audio_frame w); [|exact A]);
    unfold togglePlayPause, toggleMute, toggleFullscreen, seek, when, seq;
    cases; reflexivity.
Qed.

Lemma callbacks_audioOf (l : list Timer) :
  Preserves audioOf (each (fun t => hideControlsCallback (t_isPlaying t)) l).
Proof.
  apply Preserves_each. intros t w.
  unfold hideControlsCallback, when. cases; reflexivity.
Qed.

Lemma audioOf_run_init_cleanup : Preserves audioOf React.run_init_cleanup.
Proof.
  intros w. unfold React.run_init_cleanup.
  destruct (initCleanup w) as [c|]; [|reflexivity].
  unfold videoInit_cleanup. rewrite !seq_apply.
  assert (forall x, audioOf (set_initCleanup None (Dom.video_set_src "" x)) = audioOf x)
    as -> by reflexivity.
  assert (Preserves audioOf (each (Dom.removeEventListener c) mediaEvents)) as ->
    by (apply Preserves_each; intros e x; reflexivity).
  unfold hls_teardown. destruct (hlsRef w); reflexivity.
Qed.

Lemma audioOf_run_controls_cleanup : Preserves audioOf React.run_controls_cleanup.
Proof.
  intros w.
  unfold React.run_controls_cleanup, controls_cleanup, clearControlsTimeout,
    Dom.clearTimeout, seq.
  cases; reflexivity.
Qed.

Lemma handle_audio e w :
  v_listeners (video w) = listenersOf (initCleanup w) ->
  Audio w -> Audio (handle e w).
Proof.
  intros Hl A.
  destruct e; simpl handle;
    try (unfold markup; cases; [|exact A];
         first
           [ apply Audio_changeVolume; exact A
           | apply (Audio_frame w); [|exact A];
             unfold togglePlayPause, toggleMute, toggleFullscreen,
               onProgressClick, onScrubChange, onScrubMouseUp,
               onScrubTouchEnd, onBackClick, onInfoClick, onSettingsClick,
               onSubtitlesClick, onAutoPlayNextClick, changePlaybackRate,
               when, seq;
             cases; reflexivity ]).
  - rewrite (dispatchMedia_wired _ _ Hl).
    destruct (initCleanup w); [|exact A].
    destruct e; simpl;
      try (apply (Audio_frame w); [|exact A];
           unfold handleLoadedMetadata, handleTimeUpdate, updateProgress,
             handleError, handleEnded, when, seq;
           cases; reflexivity).
    destruct A as (A & B). unfold handleVolumeChange, seq.
    exact (conj B B).
  - apply (Audio_frame w); [reflexivity | exact A].
  - apply (Audio_frame w); [reflexivity | exact A].
  - apply (Audio_frame w); [reflexivity | exact A].
  - apply (Audio_frame w); [|exact A].
    unfold dispatchEngine, onHlsError, seq. destruct e; cases; reflexivity.
  - apply (Audio_frame w); [|exact A].
    unfold dispatchContainer, handleMouseMove, showControlsWithTimeout,
      clearControlsTimeout, Dom.setTimeout, Dom.clearTimeout, seq.
    cases; reflexivity.
  - apply (Audio_frame w); [|exact A].
    unfold dispatchContainer, handleMouseEnter. cases; reflexivity.
  - apply (Audio_frame w); [|exact A].
    unfold dispatchContainer, handleMouseLeave, when. cases; reflexivity.
  - destruct (keydownListener w); [apply handleKeyDown_audio|]; exact A.
  - apply (Audio_frame w); [|exact A].
    unfold handleFullscreenChange, when, seq. cases; reflexivity.
  - apply (Audio_frame w); [|exact A].
    unfold seq, fireTimers. unfold seq. rewrite callbacks_audioOf. reflexivity.
  - apply (Audio_frame w); [|exact A].
    unfold React.unmount. destruct (negb (mounted w)); [reflexivity|].
    rewrite !seq_apply.
    assert (forall x, audioOf (set_mounted false (set_rendered None (set_videoRef false
              (set_keydownListener None (set_fullscreenListener false x))))) = audioOf x)
      as -> by reflexivity.
    rewrite audioOf_run_controls_cleanup, audioOf_run_init_cleanup. reflexivity.
Qed.

Definition AudioAt (v : Q) (w : World) : Prop := Audio w /\ volume (st w) = v.

Lemma AudioAt_frame v w w' : audioOf w' = audioOf w -> AudioAt v w -> AudioAt v w'.
Proof.
  intros E (A & B). split; [exact (Audio_frame _ _ E A)|].
  unfold audioOf in E. injection E as E1 _. congruence.
Qed.

Lemma AudioAt_neutral v c :
  Preserves audioOf c -> Triple (AudioAt v) (AudioAt v) c.
Proof. intros H w. apply AudioAt_frame, H. Qed.

Lemma Triple_when (P : World -> Prop) b c : Triple P P c -> Triple P P (when b c).
Proof. intros H. destruct b; [exact H | exact (fun w x => x)]. Qed.

Lemma AudioAt_set v w w' :
  volume (st w') = volume (st w) ->
  (v_volume (video w') = v \/ v_volume (video w') = v_volume (video w)) ->
  AudioAt v w -> AudioAt v w'.
Proof.
  intros E1 E3 ((A & B) & D).
  unfold AudioAt, Audio. rewrite E1.
  split; [|exact D]. split; [exact A|].
  destruct E3 as [->| ->]; [rewrite <- D; exact A | exact B].
Qed.

Lemma volume_effect_audio s :
  Triple (AudioAt (volume s)) (AudioAt (volume s)) (volume_effect s).
Proof.
  intros w. unfold volume_effect.
  destruct (videoRef w); [|exact (fun x => x)].
  apply AudioAt_set; [reflexivity | left; reflexivity].
Qed.

Lemma audioOf_playbackRate_effect s : Preserves audioOf (playbackRate_effect s).
Proof. intros w. unfold playbackRate_effect. cases; reflexivity. Qed.

Lemma audioOf_muted_effect s : Preserves audioOf (muted_effect s).
Proof. intros w. unfold muted_effect. cases; reflexivity. Qed.

Lemma audioOf_controls s : Preserves audioOf (controls s).
Proof. intros w. unfold controls. cases; reflexivity. Qed.

Ltac audio_leaf _ :=
  lazymatch goal with
  | |- Preserves _ (call _) => intros ?; reflexivity
  | |- Preserves _ (with_st _) => intros ?; reflexivity
  | |- Preserves _ (with_video _) => intros ?; reflexivity
  | |- Preserves _ (set_hlsRef _) => intros ?; reflexivity
  | |- Preserves _ (Engine.with_hls _) => intros ?; reflexivity
  | |- Preserves _ (set_initCleanup _) => intros ?; reflexivity
  end.

Lemma videoInit_audio p s :
  Triple (AudioAt (volume s)) (AudioAt (volume s)) (videoInit p s).
Proof.
  intros w. unfold videoInit.
  destruct (negb (videoRef w) || String.eqb (streamUrl p) "");
    [exact (fun x => x)|].
  rewrite !seq_apply.
  match goal with
  | |- _ -> AudioAt _ (set_initCleanup ?c (each ?f ?l (?b ?x))) =>
      assert (audioOf (set_initCleanup c (each f l (b x))) = audioOf x) as E
  end.
  { assert (forall c x, audioOf (set_initCleanup c x) = audioOf x) as -> by reflexivity.
    assert (forall c l, Preserves audioOf (each (Dom.addEventListener c) l)) as ->
      by (intros c l; apply Preserves_each; intros e x; reflexivity).
    match goal with |- audioOf (?b ?x) = _ => assert (Preserves audioOf b) as H end.
    { unfold setError, setIsBuffering, Dom.video_set_src,
        Engine.loadSource, Engine.attachMedia, Engine.on, put_v_src, Dom.load.
      destruct (Js.endsWith (streamUrl p) ".m3u8");
        [destruct (hlsSupported w); [|destruct (nativeHls w)]|];
        descend audio_leaf. }
    apply H. }
  intros A. apply (AudioAt_frame _ _ _ E). revert A.
  apply AudioAt_set; [reflexivity | left; reflexivity].
Qed.

Lemma update_effects_audio p0 s0 p s :
  Triple (AudioAt (volume s)) (AudioAt (volume s))
         (React.update_effects p0 s0 p s).
Proof.
  unfold React.update_effects.
  repeat (apply Triple_seq with (Q := AudioAt (volume s));
          [apply Triple_when|]);
    try apply Triple_when;
    first
      [ apply volume_effect_audio
      | apply videoInit_audio
      | apply AudioAt_neutral;
        first [ exact audioOf_run_init_cleanup
              | exact audioOf_run_controls_cleanup
              | apply audioOf_muted_effect
              | apply audioOf_playbackRate_effect
              | apply audioOf_controls
              | intros ?; reflexivity ] ].
Qed.

Lemma commit_audio p0 s0 w : PendingAt p0 s0 w -> Audio w -> Audio (React.commit w).
Proof.
  intros [Hm Hr _ _ _ He] A. unfold React.commit. rewrite Hm, Hr. simpl negb. cbv iota.
  rewrite !seq_apply.
  assert (audioOf (React.sync_refs w) = audioOf w) as E.
  { unfold React.sync_refs, errored in *. destruct (error (st w)); [reflexivity|].
    destruct (videoRef w); [reflexivity|]. specialize (He eq_refl). discriminate. }
  assert (AudioAt (volume (st w)) (React.sync_refs w)) as A1.
  { apply (AudioAt_frame _ w); [exact E|]. split; [exact A | reflexivity]. }
  apply update_effects_audio with (p0 := p0) (s0 := s0) (p := props w) in A1.
  revert A1.
  generalize (React.update_effects p0 s0 (props w) (st w) (React.sync_refs w)).
  intros w1 [A1 _]. exact A1.
Qed.

Lemma flush_audio p0 s0 w : PendingAt p0 s0 w -> Audio w -> Audio (React.flush w).
Proof.
  intros P A. unfold React.flush. rewrite seq_apply.
  destruct (commit_first _ _ _ P) as (P1 & _).
  pose proof (commit_audio _ _ _ P A) as A1.
  revert P1 A1. generalize (React.commit w). intros w1 P1 A1.
  exact (commit_audio _ _ _ P1 A1).
Qed.

Lemma step_audio e w : Stable w -> Audio w -> Audio (step e w).
Proof.
  intros S A. unfold step. rewrite seq_apply.
  pose proof (handle_audio e w (Stable_listeners w S) A) as A1.
  destruct S as [[P _]|U].
  - assert (e = Unmount \/ e <> Unmount) as [->|Hu].
    { destruct e; (left; reflexivity) || (right; discriminate). }
    + rewrite flush_unmounted by apply (unmount_unmounted _ _ _ P). exact A1.
    + exact (flush_audio _ _ _ (handle_pending e w P Hu) A1).
  - rewrite flush_unmounted by apply (handle_unmounted e w U). exact A1.
Qed.

Lemma mount_audio hs nh p : Audio (mount hs nh p).
Proof.
  destruct (mount_attach hs nh p) as (Es & _ & _ & Ev).
  assert (AudioAt (volume initialState) (beforeAttach hs nh p)) as A.
  { repeat split; simpl; discriminate. }
  apply videoInit_audio with (p := p) in A. destruct A as [A _].
  revert Es Ev A. generalize (videoInit p initialState (beforeAttach hs nh p)).
  generalize (mount hs nh p). intros w w1 Es Ev A.
  unfold Audio. rewrite Es, Ev. exact A.
Qed.

(** X15: the volume never leaves [[0, 1]].  In every reachable state the
    volume cell and the element's volume lie between 0 and 1, whatever
    value the slider or the arrow keys ask for. *)
Theorem volume_stays_in_range w :
  reachable w ->
  0 <= volume (st w) <= 1 /\ 0 <= v_volume (video w) <= 1.
Proof.
  induction 1 as [hs nh p | e w R IH].
  - apply mount_audio.
  - apply step_audio; [apply reachable_stable; exact R | exact IH].
Qed.

Lemma volume_stays_in_range_witness :
  reachable (run [VolumeInput 7; KeyDown "ArrowUp"; Media volumechange]
                 (mount true false movieMp4)) /\
  0 <= volume (st (run [VolumeInput 7; KeyDown "ArrowUp"; Media volumechange]
                       (mount true false movieMp4))) <= 1.
Proof.
  assert (reachable (run [VolumeInput 7; KeyDown "ArrowUp"; Media volumechange]
                         (mount true false movieMp4))) as R
    by (apply reachable_run, reachable_mount).
  split; [exact R|]. exact (proj1 (volume_stays_in_range _ R)).
Defined.

(** ** The controls do hide *)

Lemma step_move_now w :
  Stable w -> videoRef w = true -> now (step MouseMove w) = now w.
Proof.
  intros S Hv. destruct (handle_move w S Hv) as [E _].
  assert (MouseMove <> Unmount) as Hu by discriminate.
  assert (depsOf (st (handle MouseMove w)) = depsOf (st w) /\
          props (handle MouseMove w) = props w /\
          now (handle MouseMove w) = now w) as (Ed & Ep & En).
  { rewrite E.
    unfold showControlsWithTimeout, Dom.setTimeout, clearControlsTimeout,
      Dom.clearTimeout, seq. cases; repeat split. }
  destruct (step_quiet MouseMove w S Hu Ed Ep) as (_ & _ & _ & _ & _ & F).
  congruence.
Qed.

Lemma fireTimers_due t w :
  timers w = [t] -> (t_deadline t <= now w)%nat -> t_isPlaying t = true ->
  showControls (st (fireTimers w)) = false.
Proof.
  intros Et Hd Ip. unfold fireTimers. rewrite Et. simpl filter.
  apply Nat.leb_le in Hd. rewrite Hd. simpl.
  rewrite !seq_apply. unfold skip. rewrite Ip. reflexivity.
Qed.

(** X16: after a pointer move during playback, 3 seconds without another
    event hide the controls.  In every reachable state with the player
    rendered and [isPlaying] set, a pointer move followed by a tick of at
    least 3000 ms leaves the controls hidden. *)
Theorem controls_hide_after_idle w dt :
  reachable w -> videoRef w = true -> isPlaying (st w) = true ->
  (3000 <= dt)%nat ->
  showControls (st (step MouseMove w)) = true /\
  showControls (st (step (Tick dt) (step MouseMove w))) = false.
Proof.
  intros R Hv Ip Hd. apply reachable_stable in R.
  split; [apply (step_move_shows w R Hv)|].
  pose proof (step_move_timer w R Hv) as Et.
  pose proof (step_move_now w R Hv) as En.
  pose proof (step_stable MouseMove w R) as S1.
  rewrite Ip in Et.
  revert Et En S1. generalize (step MouseMove w). intros w1 Et En S1.
  destruct (step_cells (Tick dt) w1 S1) as [Ec _].
  assert (showControls (st (step (Tick dt) w1)) =
          showControls (st (handle (Tick dt) w1))) as ->
    by (unfold cells, cellsOf in Ec; congruence).
  simpl handle. rewrite seq_apply.
  eapply fireTimers_due; [exact Et | | reflexivity].
  unfold t_deadline. simpl. lia.
Qed.

Lemma controls_hide_after_idle_witness :
  reachable (run [Media play] (mount true false movieMp4)) /\
  videoRef (run [Media play] (mount true false movieMp4)) = true /\
  isPlaying (st (run [Media play] (mount true false movieMp4))) = true /\
  (3000 <= 3000)%nat /\
  showControls (st (step (Tick 3000)
    (step MouseMove (run [Media play] (mount true false movieMp4))))) = false.
Proof.
  assert (reachable (run [Media play] (mount true false movieMp4))) as R
    by (apply reachable_run, reachable_mount).
  assert (videoRef (run [Media play] (mount true false movieMp4)) = true) as Hv
    by (vm_compute; reflexivity).
  assert (isPlaying (st (run [Media play] (mount true false movieMp4))) = true) as Ip
    by (vm_compute; reflexivity).
  split; [exact R|]. split; [exact Hv|]. split; [exact Ip|].
  split; [apply Nat.le_refl|].
  exact (proj2 (controls_hide_after_idle _ 3000 R Hv Ip (Nat.le_refl 3000))).
Defined.

(** ** The keyboard handler's closure *)

(** The dependencies of the keyboard effect, as the closure [k] has them
    and as the state [s] has them. *)
Definition keyFresh (k : KeyClosure) (s : State) : bool :=
  Js.same_num (k_currentTime k) (currentTime s)
  && Js.same_num (k_volume k) (volume s)
  && Bool.eqb (k_isFullscreen k) (isFullscreen s).

Lemma key_changed_fresh s0 s :
  React.key_changed s0 s = negb (keyFresh (keyClosureOf s0) s).
Proof. reflexivity. Qed.

Lemma keyFresh_refl s : keyFresh (keyClosureOf s) s = true.
Proof.
  unfold keyFresh. simpl. rewrite !same_num_refl, Bool.eqb_reflx. reflexivity.
Qed.

Lemma keyFresh_trans k s0 s :
  keyFresh k s0 = true -> keyFresh (keyClosureOf s0) s = true -> keyFresh k s = true.
Proof.
  unfold keyFresh, Js.same_num. simpl. intros H1 H2.
  apply andb_prop in H1. destruct H1 as [H1 F1].
  apply andb_prop in H1. destruct H1 as [C1 V1].
  apply andb_prop in H2. destruct H2 as [H2 F2].
  apply andb_prop in H2. destruct H2 as [C2 V2].
  rewrite (Qeq_bool_trans _ _ _ C1 C2), (Qeq_bool_trans _ _ _ V1 V2).
  apply Bool.eqb_prop in F1, F2. rewrite F1, F2, Bool.eqb_reflx. reflexivity.
Qed.

Lemma keyFresh_cells k s s' : cellsOf s = cellsOf s' -> keyFresh k s = keyFresh k s'.
Proof.
  unfold cellsOf, keyFresh. intros E.
  assert (currentTime s = currentTime s') as -> by congruence.
  assert (volume s = volume s') as -> by congruence.
  assert (isFullscreen s = isFullscreen s') as -> by congruence.
  reflexivity.
Qed.

Lemma update_effects_keydown p0 s0 p s w :
  keydownListener (React.update_effects p0 s0 p s w) =
  if React.key_changed s0 s then Some (keyClosureOf s) else keydownListener w.
Proof.
  unfold React.update_effects.
  destruct (React.key_changed s0 s).
  - unfold seq. reflexivity.
  - match goal with |- keydownListener (?c w) = _ =>
      assert (Preserves keydownListener c) as H
    end.
    { unfold when. cbv iota. descend key_leaf. }
    apply H.
Qed.

(** The closure of the keyboard handler is fresh for the state [s0]. *)
Definition KeyAt (s0 : State) (w : World) : Prop :=
  forall k, keydownListener w = Some k -> keyFresh k s0 = true.

Lemma commit_keyAt p0 s0 w :
  PendingAt p0 s0 w -> KeyAt s0 w -> KeyAt (st w) (React.commit w).
Proof.
  intros P K. pose proof P as [Hm Hr _ _ _ _].
  destruct (sync_refs_spec _ _ _ P) as (_ & _ & _ & Eo).
  assert (keydownListener (React.sync_refs w) = keydownListener w) as Ek by congruence.
  unfold React.commit. rewrite Hm, Hr. simpl negb. cbv iota.
  rewrite !seq_apply.
  intros k.
  assert (forall r x, keydownListener (set_rendered r x) = keydownListener x) as ->
    by reflexivity.
  rewrite update_effects_keydown, Ek, key_changed_fresh.
  destruct (keyFresh (keyClosureOf s0) (st w)) eqn:F; simpl.
  - intros E. apply (keyFresh_trans k s0); [apply K; exact E | exact F].
  - intros E. injection E as <-. apply keyFresh_refl.
Qed.

Lemma flush_keyAt p0 s0 w :
  PendingAt p0 s0 w -> KeyAt s0 w -> KeyAt (st (React.flush w)) (React.flush w).
Proof.
  intros P K. unfold React.flush. rewrite seq_apply.
  destruct (commit_first _ _ _ P) as (P1 & Ec1 & _).
  pose proof (commit_keyAt _ _ _ P K) as K1.
  revert P1 Ec1 K1. generalize (React.commit w). intros w1 P1 Ec1 K1.
  pose proof (commit_keyAt _ _ _ P1 K1) as K2.
  destruct (commit_first _ _ _ P1) as (_ & Ec2 & _).
  revert K2 Ec2. generalize (React.commit w1). intros w2 K2 Ec2.
  intros k E. rewrite (keyFresh_cells k (st w2) (st w1)); [apply K2; exact E|].
  exact Ec2.
Qed.

Lemma handle_keydownListener e w :
  v_listeners (video w) = listenersOf (initCleanup w) ->
  e <> Unmount -> keydownListener (handle e w) = keydownListener w.
Proof.
  intros Hl Hu.
  destruct (quietEvent e) eqn:Q.
  - pose proof (handle_frame e w Hl Q) as F. unfold frameOf in F. congruence.
  - destruct e; try discriminate Q.
    + simpl handle. unfold dispatchContainer, handleMouseMove.
      destruct (videoRef w); [|reflexivity].
      destruct (containerListeners w) as [b|]; [|reflexivity].
      pose proof (showControlsWithTimeout_outside b w) as E. cbv beta in E. congruence.
    + pose proof (tick_outside dt w) as E. cbv beta in E. congruence.
    + contradiction Hu; reflexivity.
Qed.

Lemma step_keyAt e w :
  Stable w -> KeyAt (st w) w -> KeyAt (st (step e w)) (step e w).
Proof.
  intros S K. unfold step. rewrite seq_apply.
  assert (e = Unmount \/ e <> Unmount) as [->|Hu].
  { destruct e; (left; reflexivity) || (right; discriminate). }
  - assert (Unmounted (React.unmount w)) as U.
    { destruct S as [[P _]|U]; [apply (unmount_unmounted _ _ _ P)|].
      apply (handle_unmounted Unmount w U). }
    simpl handle. rewrite flush_unmounted by apply U.
    intros k E. destruct U as [_ _ _ _ _ _ _ _ Uk _]. congruence.
  - pose proof (handle_keydownListener e w (Stable_listeners w S) Hu) as Ek.
    destruct S as [[P _]|U].
    + apply (flush_keyAt (props w) (st w)); [apply handle_pending; assumption|].
      intros k E. apply K. congruence.
    + pose proof (handle_unmounted e w U) as U'.
      rewrite flush_unmounted by apply U'.
      intros k E. destruct U' as [_ _ _ _ _ _ _ _ Uk _]. congruence.
Qed.

Lemma mount_keyAt hs nh p : KeyAt (st (mount hs nh p)) (mount hs nh p).
Proof.
  destruct (mount_first_commit hs nh p) as (_ & _ & _ & _ & Ec & Ek).
  revert Ec Ek. generalize (mount hs nh p). intros w Ec Ek k E.
  rewrite (keyFresh_cells k (st w) initialState) by exact Ec.
  rewrite Ek in E. injection E as <-. apply keyFresh_refl.
Qed.

Lemma reachable_keyAt w : reachable w -> KeyAt (st w) w.
Proof.
  induction 1 as [hs nh p | e w R IH].
  - apply mount_keyAt.
  - apply step_keyAt; [apply reachable_stable; exact R | exact IH].
Qed.

(** X17: the keyboard handler never works on a stale time or volume.  In
    every reachable state the closure of the registered [keydown] handler
    holds the current [currentTime], [volume] and [isFullscreen], as
    numbers; its [isPlaying] and [duration] may be older. *)
Theorem keyboard_closure_is_fresh w k :
  reachable w -> keydownListener w = Some k ->
  k_currentTime k == currentTime (st w) /\
  k_volume k == volume (st w) /\
  k_isFullscreen k = isFullscreen (st w).
Proof.
  intros R E. pose proof (reachable_keyAt w R k E) as F.
  unfold keyFresh, Js.same_num in F.
  apply andb_prop in F. destruct F as [F F3].
  apply andb_prop in F. destruct F as [F1 F2].
  split; [apply Qeq_bool_eq; exact F1|].
  split; [apply Qeq_bool_eq; exact F2 | apply Bool.eqb_prop; exact F3].
Qed.

Lemma keyboard_closure_is_fresh_witness :
  reachable (run [Playback 5 None; Media timeupdate; VolumeInput (1 # 2);
                  Media volumechange] (mount true false movieMp4)) /\
  keydownListener (run [Playback 5 None; Media timeupdate; VolumeInput (1 # 2);
                        Media volumechange] (mount true false movieMp4)) =
    Some {| k_currentTime := 5; k_volume := 1 # 2; k_isFullscreen := false;
            k_isPlaying := false; k_duration := 0 |} /\
  5 == currentTime (st (run [Playback 5 None; Media timeupdate; VolumeInput (1 # 2);
                             Media volumechange] (mount true false movieMp4))).
Proof.
  assert (reachable (run [Playback 5 None; Media timeupdate; VolumeInput (1 # 2);
                          Media volumechange] (mount true false movieMp4))) as R
    by (apply reachable_run, reachable_mount).
  assert (keydownListener (run [Playback 5 None; Media timeupdate; VolumeInput (1 # 2);
                                Media volumechange] (mount true false movieMp4)) =
          Some {| k_currentTime := 5; k_volume := 1 # 2; k_isFullscreen := false;
                  k_isPlaying := false; k_duration := 0 |}) as E
    by (vm_compute; reflexivity).
  split; [exact R|]. split; [exact E|].
  exact (proj1 (keyboard_closure_is_fresh _ _ R E)).
Defined.

(** ** A step that leaves the video-init effect alone *)

Lemma st_sync_refs : Preserves st React.sync_refs.
Proof. intros w. unfold React.sync_refs, seq. cases; reflexivity. Qed.

Ltac st_neutral :=
  lazymatch goal with
  | |- Preserves _ (seq _ _) => apply Preserves_seq; st_neutral
  | |- Preserves _ (when _ _) => apply Preserves_when; st_neutral
  | |- Preserves _ skip => apply Preserves_skip
  | |- Preserves _ React.run_controls_cleanup => exact run_controls_cleanup_st
  | |- Preserves _ (controls _) => apply controls_st
  | |- Preserves _ (volume_effect _) =>
      intros ?; unfold volume_effect; cases; reflexivity
  | |- Preserves _ (muted_effect _) =>
      intros ?; unfold muted_effect; cases; reflexivity
  | |- Preserves _ (playbackRate_effect _) =>
      intros ?; unfold playbackRate_effect; cases; reflexivity
  | |- Preserves _ (set_keydownListener _) => intros ?; reflexivity
  end.

Lemma update_effects_st p0 s0 p s :
  React.init_changed p0 s0 p s = false ->
  Preserves st (React.update_effects p0 s0 p s).
Proof.
  intros Hi. unfold React.update_effects. rewrite Hi, !when_false. st_neutral.
Qed.

Lemma commit_st p0 s0 w :
  rendered w = Some (p0, s0) ->
  closureOf p0 s0 = closureOf (props w) (st w) ->
  st (React.commit w) = st w.
Proof.
  intros Hr Ec. unfold React.commit.
  destruct (negb (mounted w)); [reflexivity|].
  rewrite Hr, !seq_apply.
  assert (forall r x, st (set_rendered r x) = st x) as -> by reflexivity.
  rewrite update_effects_st, st_sync_refs; [reflexivity|].
  unfold React.init_changed. rewrite Ec, InitClosure_eqb_refl. reflexivity.
Qed.

(** Under an event that changes no dependency of the video-init effect, the
    state after the step is the state the handler left. *)
Lemma step_st e w :
  Stable w -> reattaching e = false -> st (step e w) = st (handle e w).
Proof.
  intros S Hq.
  assert (e <> Unmount) as Hu by (intros ->; discriminate Hq).
  unfold step. rewrite seq_apply.
  pose proof (handle_initDeps e w (Stable_listeners w S) Hq) as Ed.
  destruct S as [[P _]|U].
  - pose proof (handle_pending e w P Hu) as P1.
    apply initDeps_closureOf in Ed.
    revert Ed P1. generalize (handle e w). intros w1 Ed P1.
    unfold React.flush. rewrite seq_apply.
    destruct (commit_first _ _ _ P1) as (P2 & Ecells & Ep & _).
    pose proof P1 as [_ Hr1 _ _ _ _].
    rewrite <- (commit_st _ _ w1 Hr1 (eq_sym Ed)).
    revert P2 Ecells Ep. generalize (React.commit w1). intros w2 P2 Ecells Ep.
    pose proof P2 as [_ Hr2 _ _ _ _].
    apply (commit_st _ _ w2 Hr2).
    rewrite Ep. apply cells_closureOf. unfold cells in Ecells. congruence.
  - rewrite flush_unmounted by apply (handle_unmounted e w U). reflexivity.
Qed.

Lemma flush_keydown_same p0 s0 w :
  PendingAt p0 s0 w -> keyFresh (keyClosureOf s0) (st w) = true ->
  keydownListener (React.flush w) = keydownListener w.
Proof.
  intros P F.
  assert (forall p1 s1 x, PendingAt p1 s1 x ->
            keyFresh (keyClosureOf s1) (st x) = true ->
            keydownListener (React.commit x) = keydownListener x) as C.
  { intros p1 s1 x Px Fx. pose proof Px as [Hm Hr _ _ _ _].
    destruct (sync_refs_spec _ _ _ Px) as (_ & _ & _ & Eo).
    unfold React.commit. rewrite Hm, Hr. simpl negb. cbv iota.
    rewrite !seq_apply.
    assert (forall r y, keydownListener (set_rendered r y) = keydownListener y) as ->
      by reflexivity.
    rewrite update_effects_keydown, key_changed_fresh, Fx. simpl. congruence. }
  unfold React.flush. rewrite seq_apply.
  destruct (commit_first _ _ _ P) as (P1 & Ec1 & _).
  rewrite <- (C _ _ _ P F).
  revert P1 Ec1. generalize (React.commit w). intros w1 P1 Ec1.
  apply (C _ _ _ P1).
  rewrite (keyFresh_cells _ (st w1) (st w)) by exact Ec1.
  apply keyFresh_refl.
Qed.

(** X18: the space key can act on an old [isPlaying].  When the keyboard
    closure was made while paused and the element then starts to play, the
    [play] event sets [isPlaying] but does not renew the closure, so in the
    state that follows the space key calls [play()] again instead
    of [pause()]. *)
Theorem space_key_after_play w k c :
  reachable w -> videoRef w = true ->
  initCleanup w = Some c -> keydownListener w = Some k -> k_isPlaying k = false ->
  isPlaying (st (step (Media play) w)) = true /\
  log (step (KeyDown " ") (step (Media play) w)) =
    (log (step (Media play) w) ++ [VideoPlay])%list.
Proof.
  intros R Hv Hc Hk Hp. apply reachable_stable in R.
  destruct (Stable_rendered w R Hv) as [Hm He].
  pose proof (Stable_mounted w R Hm) as P.
  assert (Media play <> Unmount) as Hu by discriminate.
  assert (handle (Media play) w = handlePlay w) as Eh.
  { rewrite (handle_media play w R), Hc. reflexivity. }
  pose proof (step_st (Media play) w R eq_refl) as Est.
  assert (keydownListener (step (Media play) w) = Some k) as Ek.
  { unfold step. rewrite seq_apply.
    rewrite (flush_keydown_same (props w) (st w)).
    - rewrite Eh. exact Hk.
    - apply handle_pending; assumption.
    - rewrite Eh. unfold keyFresh. simpl.
      rewrite !same_num_refl, Bool.eqb_reflx. reflexivity. }
  pose proof (step_stable (Media play) w R) as S1.
  rewrite Eh in Est.
  assert (error (st (step (Media play) w)) = None) as He1 by (rewrite Est; exact He).
  assert (isPlaying (st (step (Media play) w)) = true) as Ip1 by (rewrite Est; reflexivity).
  split; [exact Ip1|]. clear Est Eh.
  revert S1 Ek He1 Ip1. generalize (step (Media play) w). intros w1 S1 Ek He1 Ip1.
  assert (videoRef w1 = true) as Hv1.
  { destruct S1 as [[_ E]|U]; [|destruct U; congruence].
    rewrite E. unfold errored. rewrite He1. reflexivity. }
  assert (handle (KeyDown " ") w1 = Dom.video_play w1) as Eh1.
  { simpl handle. rewrite Ek. unfold handleKeyDown. rewrite Hv1. simpl.
    unfold togglePlayPause. rewrite Hv1, Hp. reflexivity. }
  assert (KeyDown " " <> Unmount) as Hu1 by discriminate.
  destruct (step_quiet (KeyDown " ") w1 S1 Hu1) as (_ & El & _);
    rewrite ?Eh1; try reflexivity.
  rewrite El, Eh1. reflexivity.
Qed.

Lemma space_key_after_play_witness :
  reachable (mount true false movieMp4) /\
  videoRef (mount true false movieMp4) = true /\
  initCleanup (mount true false movieMp4) = Some (closureOf movieMp4 initialState) /\
  keydownListener (mount true false movieMp4) = Some (keyClosureOf initialState) /\
  k_isPlaying (keyClosureOf initialState) = false /\
  isPlaying (st (step (Media play) (mount true false movieMp4))) = true /\
  log (step (KeyDown " ") (step (Media play) (mount true false movieMp4))) =
    (log (step (Media play) (mount true false movieMp4)) ++ [VideoPlay])%list.
Proof.
  assert (videoRef (mount true false movieMp4) = true) as Hv by (vm_compute; reflexivity).
  assert (initCleanup (mount true false movieMp4) =
          Some (closureOf movieMp4 initialState)) as Hc by (vm_compute; reflexivity).
  assert (keydownListener (mount true false movieMp4) =
          Some (keyClosureOf initialState)) as Hk by (vm_compute; reflexivity).
  split; [apply reachable_mount|]. split; [exact Hv|]. split; [exact Hc|].
  split; [exact Hk|]. split; [reflexivity|].
  exact (space_key_after_play _ _ _ (reachable_mount true false movieMp4)
           Hv Hc Hk eq_refl).
Defined.

(** ** Pointer leave, progress and progress-bar clicks *)

(** X19: the pointer leaving the player hides the controls at once while
    playing and does nothing while paused. *)
Theorem pointer_leave_hides_while_playing w :
  reachable w -> videoRef w = true ->
  showControls (st (step MouseLeave w)) =
    if isPlaying (st w) then false else showControls (st w).
Proof.
  intros R Hv. apply reachable_stable in R.
  destruct (step_cells MouseLeave w R) as [Ec _].
  assert (showControls (st (step MouseLeave w)) =
          showControls (st (handle MouseLeave w))) as ->
    by (unfold cells, cellsOf in Ec; congruence).
  pose proof (Stable_mounted w R (Stable_videoRef w R Hv)) as [_ _ _ [Hb _] Hk _].
  specialize (Hk Hv).
  simpl handle. unfold dispatchContainer. rewrite Hv.
  destruct (containerListeners w) as [b|] eqn:Ek; [|contradiction Hk; reflexivity].
  rewrite (Hb b eq_refl). unfold handleMouseLeave, when.
  destruct (isPlaying (st w)); reflexivity.
Qed.

Lemma pointer_leave_hides_while_playing_witness :
  reachable watching /\ videoRef watching = true /\
  showControls (st (step MouseLeave watching)) =
    if isPlaying (st watching) then false else showControls (st watching).
Proof.
  assert (reachable watching) as R.
  { unfold watching. apply reachable_run. apply reachable_mount. }
  assert (videoRef watching = true) as Hv by (vm_compute; reflexivity).
  split; [exact R|]. split; [exact Hv|].
  exact (pointer_leave_hides_while_playing watching R Hv).
Defined.

(** X20: outside a drag the progress follows the element.  With the
    listeners attached and [isDragging] clear, a [timeupdate] event copies
    the element's time into [currentTime], and the end of the last buffered
    range into [bufferedTime]; when nothing is buffered [bufferedTime] keeps
    its value. *)
Theorem progress_follows_element w c :
  reachable w -> videoRef w = true -> initCleanup w = Some c ->
  isDragging (st w) = false ->
  currentTime (st (step (Media timeupdate) w)) = v_currentTime (video w) /\
  bufferedTime (st (step (Media timeupdate) w)) =
    match v_bufferedEnd (video w) with
    | Some b => b
    | None => bufferedTime (st w)
    end.
Proof.
  intros R Hv Hc Hd. apply reachable_stable in R.
  destruct (step_cells (Media timeupdate) w R) as [Ec _].
  assert (currentTime (st (step (Media timeupdate) w)) =
            currentTime (st (handle (Media timeupdate) w)) /\
          bufferedTime (st (step (Media timeupdate) w)) =
            bufferedTime (st (handle (Media timeupdate) w))) as [-> ->]
    by (unfold cells, cellsOf in Ec; split; congruence).
  rewrite (handle_media timeupdate w R), Hc.
  simpl mediaHandler. unfold handleTimeUpdate, updateProgress, closureOf. simpl.
  rewrite Hv, Hd. simpl. unfold seq.
  destruct (v_bufferedEnd (video w)); split; reflexivity.
Qed.

Lemma progress_follows_element_witness :
  reachable (run [Playback 12 None] (mount true false movieMp4)) /\
  videoRef (run [Playback 12 None] (mount true false movieMp4)) = true /\
  initCleanup (run [Playback 12 None] (mount true false movieMp4)) =
    Some (closureOf movieMp4 initialState) /\
  isDragging (st (run [Playback 12 None] (mount true false movieMp4))) = false /\
  currentTime (st (step (Media timeupdate)
    (run [Playback 12 None] (mount true false movieMp4)))) =
    v_currentTime (video (run [Playback 12 None] (mount true false movieMp4))).
Proof.
  assert (reachable (run [Playback 12 None] (mount true false movieMp4))) as R
    by (apply reachable_run, reachable_mount).
  assert (videoRef (run [Playback 12 None] (mount true false movieMp4)) = true) as Hv
    by (vm_compute; reflexivity).
  assert (initCleanup (run [Playback 12 None] (mount true false movieMp4)) =
          Some (closureOf movieMp4 initialState)) as Hc by (vm_compute; reflexivity).
  assert (isDragging (st (run [Playback 12 None] (mount true false movieMp4))) = false)
    as Hd by (vm_compute; reflexivity).
  split; [exact R|]. split; [exact Hv|]. split; [exact Hc|]. split; [exact Hd|].
  exact (proj1 (progress_follows_element _ _ R Hv Hc Hd)).
Defined.

(** X21: a click on the progress bar at the fraction [pos] of its width
    writes [pos * duration] to the element and to [currentTime], without
    clamping, and calls [play()] when playing; for a fraction in [[0, 1]]
    the time lies in [[0, duration]]. *)
Theorem progress_click_sets_fraction w pos :
  reachable w -> videoRef w = true ->
  currentTime (st (step (ProgressClick pos) w)) = pos * duration (st w) /\
  v_currentTime (video (handle (ProgressClick pos) w)) = pos * duration (st w) /\
  log (handle (ProgressClick pos) w) =
    (log w ++ [VideoSetCurrentTime (pos * duration (st w))] ++
     if isPlaying (st w) then [VideoPlay] else [])%list /\
  (0 <= pos -> pos <= 1 -> 0 <= duration (st w) ->
   0 <= pos * duration (st w) <= duration (st w)).
Proof.
  intros R Hv. apply reachable_stable in R.
  pose proof (Stable_videoRef w R Hv) as Hm.
  destruct (step_cells (ProgressClick pos) w R) as [Ec _].
  assert (currentTime (st (step (ProgressClick pos) w)) =
          currentTime (st (handle (ProgressClick pos) w))) as ->
    by (unfold cells, cellsOf in Ec; congruence).
  assert (handle (ProgressClick pos) w = onProgressClick pos w) as ->.
  { simpl handle. unfold markup, always. rewrite Hm, Hv. reflexivity. }
  unfold onProgressClick. rewrite Hv. cbv zeta.
  split; [|split; [|split]].
  - destruct (isPlaying (st w)); reflexivity.
  - destruct (isPlaying (st w)); reflexivity.
  - destruct (isPlaying (st w)); simpl; rewrite <- ?app_assoc, ?app_nil_r; reflexivity.
  - intros H0 H1 Hd. split.
    + apply Qmult_le_0_compat; assumption.
    + rewrite <- (Qmult_1_l (duration (st w))) at 2.
      apply Qmult_le_compat_r; assumption.
Qed.

Lemma progress_click_sets_fraction_witness :
  reachable (loadedAt 100) /\ videoRef (loadedAt 100) = true /\
  currentTime (st (step (ProgressClick (1 # 4)) (loadedAt 100))) =
    (1 # 4) * duration (st (loadedAt 100)).
Proof.
  assert (reachable (loadedAt 100)) as R
    by (unfold loadedAt; apply reachable_run, reachable_mount).
  assert (videoRef (loadedAt 100) = true) as Hv by (vm_compute; reflexivity).
  split; [exact R|]. split; [exact Hv|].
  exact (proj1 (progress_click_sets_fraction _ (1 # 4) R Hv)).
Defined.

(** ** After the unmount *)

Lemma handle_unmounted_log e w : Unmounted w -> log (handle e w) = log w.
Proof.
  intros U. pose proof U as [Hm Hr Hv Hl Hi Hh Ht Hk Hy Hf].
  destruct e; simpl handle;
    try (unfold markup; rewrite Hm; reflexivity).
  - unfold dispatchMedia. rewrite Hl. reflexivity.
  - reflexivity.
  - reflexivity.
  - reflexivity.
  - unfold dispatchEngine. rewrite Hh. reflexivity.
  - unfold dispatchContainer. rewrite Hv. reflexivity.
  - unfold dispatchContainer. rewrite Hv. reflexivity.
  - unfold dispatchContainer. rewrite Hv. reflexivity.
  - rewrite Hy. reflexivity.
  - rewrite Hf. reflexivity.
  - unfold fireTimers, seq.
    change (timers (set_now (now w + dt)%nat w)) with (timers w).
    rewrite Ht. reflexivity.
  - unfold React.unmount. rewrite Hm. reflexivity.
Qed.

Lemma run_unmounted_log tr : forall w,
  Unmounted w -> log (run tr w) = log w /\ Unmounted (run tr w).
Proof.
  induction tr as [|e r IH]; intros w U; [split; [reflexivity | exact U]|].
  simpl. unfold seq.
  pose proof (handle_unmounted e w U) as U'.
  assert (step e w = handle e w) as E.
  { unfold step, seq. apply flush_unmounted. apply U'. }
  rewrite E. destruct (IH _ U') as [El Eu].
  split; [|exact Eu]. rewrite El. apply handle_unmounted_log. exact U.
Qed.

(** X22: an unmounted component is silent.  After the unmount, whatever
    events follow (media and engine events, timers, keys, pointer, new
    props, a second unmount), the component makes no call at all: the log
    stays as the unmount left it, and no listener, engine or timer comes
    back. *)
Theorem unmounted_is_silent w tr :
  reachable w ->
  log (run tr (step Unmount w)) = log (step Unmount w) /\
  Unmounted (run tr (step Unmount w)).
Proof.
  intros R. apply reachable_stable in R.
  apply run_unmounted_log. apply step_unmount_unmounted. exact R.
Qed.

Lemma unmounted_is_silent_witness :
  reachable watching /\
  log (run [Tick 3000; Media ended; Engine ERROR networkFault; KeyDown " ";
            PropsChange otherMp4; Unmount] (step Unmount watching)) =
    log (step Unmount watching).
Proof.
  assert (reachable watching) as R.
  { unfold watching. apply reachable_run. apply reachable_mount. }
  split; [exact R|].
  exact (proj1 (unmounted_is_silent watching _ R)).
Defined.

(** * The player with the recovery ladder

    The repository holds a second implementation of the player, the named
    export [CustomVideoPlayer] that the page [PlayerPage] renders.  Its
    engine effect (the first [useEffect], with the handlers it registers on
    the engine) and what React does with it are embedded here.  The effect
    sets no state cell, and no other effect or handler of that component
    touches [hlsRef] or the engine instance; the element is kept as its
    [src]. *)

Module Named.

Record World := {
  isSupported : bool;             (* Hls.isSupported() *)
  mounted : bool;
  props : Props;
  rendered : option Props;        (* props of the last commit *)
  videoRef : bool;                (* videoRef.current is set *)
  src : string;                   (* videoRef.current.src *)
  hlsRef : option Hls;
  cleanup : bool;                 (* the last run of the effect returned its cleanup *)
  log : list Call
}.

Local Notation "w |> f" := (f w) (at level 45, left associativity, only parsing).

Definition say (c : Call) (w : World) : World :=
  {| isSupported := isSupported w; mounted := mounted w; props := props w;
     rendered := rendered w; videoRef := videoRef w; src := src w;
     hlsRef := hlsRef w; cleanup := cleanup w; log := log w ++ [c] |}.

Definition set_mounted (b : bool) (w : World) : World :=
  {| isSupported := isSupported w; mounted := b; props := props w;
     rendered := rendered w; videoRef := videoRef w; src := src w;
     hlsRef := hlsRef w; cleanup := cleanup w; log := log w |}.

Definition set_props (p : Props) (w : World) : World :=
  {| isSupported := isSupported w; mounted := mounted w; props := p;
     rendered := rendered w; videoRef := videoRef w; src := src w;
     hlsRef := hlsRef w; cleanup := cleanup w; log := log w |}.

Definition set_rendered (r : option Props) (w : World) : World :=
  {| isSupported := isSupported w; mounted := mounted w; props := props w;
     rendered := r; videoRef := videoRef w; src := src w;
     hlsRef := hlsRef w; cleanup := cleanup w; log := log w |}.

Definition set_videoRef (b : bool) (w : World) : World :=
  {| isSupported := isSupported w; mounted := mounted w; props := props w;
     rendered := rendered w; videoRef := b; src := src w;
     hlsRef := hlsRef w; cleanup := cleanup w; log := log w |}.

Definition set_src (s : string) (w : World) : World :=
  {| isSupported := isSupported w; mounted := mounted w; props := props w;
     rendered := rendered w; videoRef := videoRef w; src := s;
     hlsRef := hlsRef w; cleanup := cleanup w; log := log w |}.

Definition set_hlsRef (h : option Hls) (w : World) : World :=
  {| isSupported := isSupported w; mounted := mounted w; props := props w;
     rendered := rendered w; videoRef := videoRef w; src := src w;
     hlsRef := h; cleanup := cleanup w; log := log w |}.

Definition set_cleanup (b : bool) (w : World) : World :=
  {| isSupported := isSupported w; mounted := mounted w; props := props w;
     rendered := rendered w; videoRef := videoRef w; src := src w;
     hlsRef := hlsRef w; cleanup := b; log := log w |}.

(** The configuration handed to [new Hls({...})]. *)
Definition hlsConfig (streamType : StreamType) : list (string * string) :=
  [("enableWorker", "true");
   (* Enable low latency for live streams *)
   ("lowLatencyMode", if StreamType_eqb streamType live then "true" else "false");
   (* Smaller back buffer for live *)
   ("backBufferLength", if StreamType_eqb streamType live then "30" else "60")].

(** The instance after [loadSource], [attachMedia] and the two [on]. *)
Definition engineOf (p : Props) : Hls :=
  {| hls_config := hlsConfig (streamType p);
     hls_source := Some (streamUrl p);
     hls_media := true;
     hls_handlers := [MANIFEST_PARSED; ERROR] |}.

(** [hls.destroy()] on an instance: it stops loading, lets the element go
    and drops its listeners. *)
Definition destroyed (h : Hls) : Hls :=
  {| hls_config := hls_config h; hls_source := None; hls_media := false;
     hls_handlers := [] |}.

(** [if (hlsRef.current) { hlsRef.current.destroy(); hlsRef.current = null; }],
    which opens the effect and is its cleanup. *)
Definition destroyRef (w : World) : World :=
  match hlsRef w with
  | Some _ => w |> say HlsDestroy |> set_hlsRef None
  | None => w
  end.

(** The body of the effect. *)
Definition hlsInit (w : World) : World :=
  let streamUrl := streamUrl (props w) in
  let streamType := streamType (props w) in
  if String.eqb streamUrl "" || negb (videoRef w) then set_cleanup false w
  else
    (* Cleanup previous HLS instance if it exists *)
    let w := destroyRef w in
    (* Check if the URL is an HLS stream *)
    let isHLSStream := Js.endsWith streamUrl ".m3u8" in
    (if isHLSStream && isSupported w then
       w |> say (HlsNew (hlsConfig streamType))
         |> say (HlsLoadSource streamUrl)
         |> say HlsAttachMedia
         |> say (HlsOn MANIFEST_PARSED)
         (* Add error handling *)
         |> say (HlsOn ERROR)
         |> set_hlsRef (Some (engineOf (props w)))
     else
       (* Fallback to native playback for non-HLS streams *)
       w |> set_src streamUrl |> say (VideoSetSrc streamUrl))
    |> set_cleanup true.

(** The callback of [hls.on(Hls.Events.MANIFEST_PARSED, ...)]. *)
Definition onManifestParsed (w : World) : World :=
  if videoRef w then say VideoPlay w else w.

(** The callback of [hls.on(Hls.Events.ERROR, ...)]; [hls] is the instance
    of the run, which [hlsRef] holds from the end of the run on. *)
Definition onError (data : ErrorData) (w : World) : World :=
  if fatal data then
    match type data with
    | NETWORK_ERROR =>
        w |> say (ConsoleError "Network error, trying to recover...")
          |> say HlsStartLoad
    | MEDIA_ERROR =>
        w |> say (ConsoleError "Media error, trying to recover...")
          |> say HlsRecoverMediaError
    | OTHER_ERROR =>
        w |> say (ConsoleError "Fatal error, cannot recover:")
          |> say HlsDestroy
          |> set_hlsRef (option_map destroyed (hlsRef w))
    end
  else w.

(** Dependency array [[streamUrl, streamType]]. *)
Definition deps_changed (p0 p : Props) : bool :=
  negb (String.eqb (streamUrl p0) (streamUrl p)
        && StreamType_eqb (streamType p0) (streamType p)).

Definition run_cleanup (w : World) : World :=
  if cleanup w then w |> destroyRef |> set_cleanup false else w.

Definition commit (w : World) : World :=
  if negb (mounted w) then w
  else
    let w := set_videoRef true w in
    (match rendered w with
     | None => hlsInit w
     | Some p0 =>
         if deps_changed p0 (props w) then w |> run_cleanup |> hlsInit else w
     end)
    |> set_rendered (Some (props w)).

Definition unmount (w : World) : World :=
  if negb (mounted w) then w
  else
    w |> run_cleanup |> set_videoRef false |> set_rendered None
      |> set_mounted false.

(** The events that reach the engine effect. *)
Inductive Event :=
| Engine (e : HlsEvent) (data : ErrorData)   (* the engine emits [e] *)
| PropsChange (p : Props)
| Unmount.

Definition dispatchEngine (e : HlsEvent) (data : ErrorData) (w : World) : World :=
  match hlsRef w with
  | Some h =>
      if existsb (HlsEvent_eqb e) (hls_handlers h) then
        match e with
        | ERROR => onError data w
        | MANIFEST_PARSED => onManifestParsed w
        | MEDIA_ATTACHED => w
        end
      else w
  | None => w
  end.

Definition handle (e : Event) (w : World) : World :=
  match e with
  | Engine h data => dispatchEngine h data w
  | PropsChange p => if mounted w then set_props p w else w
  | Unmount => unmount w
  end.

Definition step (e : Event) (w : World) : World := commit (handle e w).

Fixpoint run (tr : list Event) (w : World) : World :=
  match tr with
  | [] => w
  | e :: r => run r (step e w)
  end.

Definition boot (isSupported : bool) (p : Props) : World :=
  {| isSupported := isSupported; mounted := true; props := p;
     rendered := None; videoRef := false; src := ""; hlsRef := None;
     cleanup := false; log := [] |}.

Definition mount (isSupported : bool) (p : Props) : World :=
  commit (boot isSupported p).

Inductive reachable : World -> Prop :=
| reachable_mount s p : reachable (mount s p)
| reachable_step e w : reachable w -> reachable (step e w).

(** ** The states of the engine effect *)

Ltac crush :=
  repeat match goal with
  | |- context [if ?b then _ else _] => destruct b eqn:?; simpl in *
  | |- context [match ?x with Some _ => _ | None => _ end] =>
      destruct x eqn:?; simpl in *
  | |- context [type ?d] => destruct (type d) eqn:?; simpl in *
  end.

(** In a reachable state the last render is committed, and an instance is
    held only while the component is mounted and the cleanup registered. *)
Record Settled (w : World) : Prop := {
  settled_rendered : mounted w = true -> rendered w = Some (props w);
  settled_videoRef : mounted w = true -> videoRef w = true;
  settled_unmounted : mounted w = false -> hlsRef w = None;
  settled_cleanup : cleanup w = false -> hlsRef w = None
}.

Lemma deps_changed_refl p : deps_changed p p = false.
Proof.
  unfold deps_changed. rewrite String.eqb_refl, StreamType_eqb_refl. reflexivity.
Qed.

Lemma commit_idle w :
  mounted w = true -> rendered w = Some (props w) -> videoRef w = true ->
  commit w = w.
Proof.
  destruct w. simpl. intros -> -> ->. unfold commit. simpl.
  rewrite deps_changed_refl. reflexivity.
Qed.

Lemma commit_settled w :
  (mounted w = false -> hlsRef w = None) ->
  (cleanup w = false -> hlsRef w = None) ->
  (rendered w = None -> hlsRef w = None) ->
  Settled (commit w).
Proof.
  destruct w as [s m p r v sr h c l]. simpl. intros Hu Hc Hr.
  unfold commit. simpl. destruct m; simpl.
  - destruct r as [p0|]; simpl;
      [destruct (deps_changed p0 p) eqn:Ed; simpl|];
      unfold hlsInit, run_cleanup, destroyRef; simpl; crush;
      split; simpl; intros; try reflexivity; try discriminate; auto.
  - split; simpl; intros; try discriminate; auto.
Qed.

Lemma handle_keeps e w :
  Settled w ->
  (mounted (handle e w) = false -> hlsRef (handle e w) = None) /\
  (cleanup (handle e w) = false -> hlsRef (handle e w) = None) /\
  (rendered (handle e w) = None -> hlsRef (handle e w) = None).
Proof.
  intros [Hr _ Hu Hc]. destruct w as [s m p r v sr h c l]. simpl in *.
  assert (r = None -> h = None) as Hn.
  { intros ->. destruct m; [specialize (Hr eq_refl); discriminate | auto]. }
  destruct e as [ev data|p'|]; simpl.
  - unfold dispatchEngine, onError, onManifestParsed. simpl.
    destruct h as [h|]; simpl; [|repeat split; reflexivity].
    assert (m = true /\ c = true /\ r <> None) as (-> & -> & Hx).
    { repeat split.
      - destruct m; [reflexivity|]. specialize (Hu eq_refl). discriminate.
      - destruct c; [reflexivity|]. specialize (Hc eq_refl). discriminate.
      - intros E. specialize (Hn E). discriminate. }
    destruct (existsb (HlsEvent_eqb ev) (hls_handlers h)); simpl;
      [|repeat split; intros; congruence].
    destruct ev; simpl; crush; repeat split; simpl; intros; congruence.
  - destruct m; simpl; auto.
  - unfold unmount, run_cleanup, destroyRef. simpl.
    destruct m; simpl; [|auto].
    destruct c; simpl.
    + destruct h; simpl; auto.
    + rewrite (Hc eq_refl). auto.
Qed.

Lemma reachable_settled w : reachable w -> Settled w.
Proof.
  induction 1 as [s p|e w R IH].
  - apply commit_settled; simpl; intros; reflexivity.
  - destruct (handle_keeps e w IH) as (A & B & C).
    apply commit_settled; assumption.
Qed.

(** The handlers of the engine write to the log and, on an unrecoverable
    fault, to the instance; nothing else. *)
Lemma dispatchEngine_quiet ev data w :
  mounted (dispatchEngine ev data w) = mounted w /\
  rendered (dispatchEngine ev data w) = rendered w /\
  props (dispatchEngine ev data w) = props w /\
  videoRef (dispatchEngine ev data w) = videoRef w.
Proof.
  unfold dispatchEngine, onError, onManifestParsed.
  destruct (hlsRef w) as [h|]; [|repeat split].
  destruct (existsb (HlsEvent_eqb ev) (hls_handlers h)); [|repeat split].
  destruct ev; [destruct (fatal data); [destruct (type data)|]
               | destruct (videoRef w) eqn:E |]; repeat split; simpl; auto.
Qed.

(** An engine event changes neither the props nor what was rendered, so the
    commit that follows it has nothing to do. *)
Lemma step_engine ev data w :
  reachable w -> hlsRef w <> None ->
  step (Engine ev data) w = dispatchEngine ev data w.
Proof.
  intros R Hh. destruct (reachable_settled w R) as [Hr Hv Hu _].
  assert (mounted w = true) as Hm.
  { destruct (mounted w); [reflexivity|]. elim Hh. auto. }
  destruct (dispatchEngine_quiet ev data w) as (A & B & C & D).
  unfold step. simpl handle. apply commit_idle.
  - rewrite A. exact Hm.
  - rewrite B, C. exact (Hr Hm).
  - rewrite D. exact (Hv Hm).
Qed.

Lemma run_app tr1 tr2 w : run (tr1 ++ tr2) w = run tr2 (run tr1 w).
Proof. revert w. induction tr1 as [|e r IH]; intros w; simpl; auto. Qed.

Lemma run_reachable tr w : reachable w -> reachable (run tr w).
Proof.
  revert w. induction tr as [|e r IH]; intros w R; simpl; [exact R|].
  apply IH. apply reachable_step. exact R.
Qed.

End Named.

(** ** C1: the recovery ladder *)

(** C1, as stated, fails in both players.  In the player with the ladder a
    second consecutive fatal Network fault (and likewise a second Media
    fault) is answered like the first, by one more recovery call, and the
    engine stays attached: no fault is ever terminal.  In the player of
    [CustomVideoPlayer.tsx] the first fatal fault already shows the error,
    and no recovery call is made. *)
Lemma second_fault_is_retried_too :
  (let w := Named.run [Named.Engine ERROR networkFault;
                       Named.Engine ERROR networkFault]
                      (Named.mount true liveHls) in
   filter isRecoveryCall (Named.log w) = [HlsStartLoad; HlsStartLoad] /\
   Named.hlsRef w = Some (Named.engineOf liveHls)) /\
  (let w := Named.run [Named.Engine ERROR mediaFault;
                       Named.Engine ERROR mediaFault]
                      (Named.mount true liveHls) in
   filter isRecoveryCall (Named.log w) =
     [HlsRecoverMediaError; HlsRecoverMediaError] /\
   Named.hlsRef w = Some (Named.engineOf liveHls)) /\
  (let w := step (Engine ERROR networkFault) (mount true false liveHls) in
   error (st w) = Some "Playback error: manifestLoadError" /\
   filter isRecoveryCall (log w) = []).
Proof. vm_compute. repeat split. Qed.

Lemma run_faults data n w :
  Named.run (repeat (Named.Engine ERROR data) (S n)) w =
  Named.step (Named.Engine ERROR data)
    (Named.run (repeat (Named.Engine ERROR data) n) w).
Proof.
  replace (repeat (Named.Engine ERROR data) (S n))
    with (repeat (Named.Engine ERROR data) n ++ [Named.Engine ERROR data])%list.
  - rewrite Named.run_app. reflexivity.
  - change [Named.Engine ERROR data] with (repeat (Named.Engine ERROR data) 1).
    rewrite <- repeat_app. f_equal. lia.
Qed.

(** C1 (amended): in the player with the recovery ladder, in every reachable
    state with a listening engine in [hlsRef], a fatal Network fault gets
    exactly one restart-load call and a fatal Media fault exactly one
    recover-media-error call; the engine stays attached and nothing else
    changes, so no error is shown.  A fatal fault of another type destroys
    the instance, and a non-fatal fault is ignored.  No count is kept: [n]
    consecutive fatal faults of a recoverable type get [n] recovery
    calls. *)
Theorem fatal_faults_are_retried_without_cap
    (w : Named.World) (h : Hls) (data : ErrorData) :
  Named.reachable w -> Named.hlsRef w = Some h -> In ERROR (hls_handlers h) ->
  (fatal data = false -> Named.step (Named.Engine ERROR data) w = w) /\
  (fatal data = true -> type data = NETWORK_ERROR ->
     Named.step (Named.Engine ERROR data) w =
       Named.say HlsStartLoad
         (Named.say (ConsoleError "Network error, trying to recover...") w)) /\
  (fatal data = true -> type data = MEDIA_ERROR ->
     Named.step (Named.Engine ERROR data) w =
       Named.say HlsRecoverMediaError
         (Named.say (ConsoleError "Media error, trying to recover...") w)) /\
  (fatal data = true -> type data = OTHER_ERROR ->
     Named.step (Named.Engine ERROR data) w =
       Named.set_hlsRef (Some (Named.destroyed h))
         (Named.say HlsDestroy
            (Named.say (ConsoleError "Fatal error, cannot recover:") w))) /\
  (fatal data = true -> type data <> OTHER_ERROR ->
     forall n,
       let w' := Named.run (repeat (Named.Engine ERROR data) n) w in
       Named.hlsRef w' = Some h /\
       filter isRecoveryCall (Named.log w') =
         (filter isRecoveryCall (Named.log w) ++
          repeat (match type data with
                  | NETWORK_ERROR => HlsStartLoad
                  | _ => HlsRecoverMediaError
                  end) n)%list).
Proof.
  intros R Hh Hin.
  assert (existsb (HlsEvent_eqb ERROR) (hls_handlers h) = true) as Hex.
  { apply existsb_exists. exists ERROR. split; [exact Hin | reflexivity]. }
  assert (forall x, Named.reachable x -> Named.hlsRef x = Some h ->
            Named.step (Named.Engine ERROR data) x = Named.onError data x) as Hs.
  { intros x Rx Hx. rewrite Named.step_engine; [|exact Rx|congruence].
    unfold Named.dispatchEngine. rewrite Hx, Hex. reflexivity. }
  rewrite (Hs w R Hh).
  split; [|split; [|split; [|split]]].
  - intros Hf. unfold Named.onError. rewrite Hf. reflexivity.
  - intros Hf Ht. unfold Named.onError. rewrite Hf, Ht. reflexivity.
  - intros Hf Ht. unfold Named.onError. rewrite Hf, Ht. reflexivity.
  - intros Hf Ht. unfold Named.onError. rewrite Hf, Ht, Hh. reflexivity.
  - intros Hf Ht n. cbv zeta.
    induction n as [|n [IHh IHl]].
    + simpl. split; [exact Hh | rewrite app_nil_r; reflexivity].
    + rewrite run_faults.
      rewrite (Hs _ (Named.run_reachable _ w R) IHh).
      revert IHh IHl.
      generalize (Named.run (repeat (Named.Engine ERROR data) n) w).
      intros x IHh IHl.
      replace (S n) with (n + 1)%nat by lia. rewrite repeat_app, app_assoc, <- IHl.
      unfold Named.onError. rewrite Hf.
      destruct (type data); [| |contradiction Ht; reflexivity];
        simpl; (split; [exact IHh|]);
        rewrite !filter_app; simpl; rewrite app_nil_r; reflexivity.
Qed.

Lemma fatal_faults_are_retried_without_cap_witness :
  Named.reachable (Named.mount true liveHls) /\
  Named.hlsRef (Named.mount true liveHls) = Some (Named.engineOf liveHls) /\
  In ERROR (hls_handlers (Named.engineOf liveHls)) /\
  filter isRecoveryCall
    (Named.log (Named.run (repeat (Named.Engine ERROR networkFault) 3)
                          (Named.mount true liveHls))) =
    [HlsStartLoad; HlsStartLoad; HlsStartLoad].
Proof.
  assert (Named.reachable (Named.mount true liveHls)) as R
    by apply Named.reachable_mount.
  assert (Named.hlsRef (Named.mount true liveHls) = Some (Named.engineOf liveHls))
    as Hh by reflexivity.
  assert (In ERROR (hls_handlers (Named.engineOf liveHls))) as Hin
    by (simpl; auto).
  split; [exact R|]. split; [exact Hh|]. split; [exact Hin|].
  destruct (fatal_faults_are_retried_without_cap _ _ networkFault R Hh Hin)
    as (_ & _ & _ & _ & H).
  exact (proj2 (H eq_refl ltac:(discriminate) 3%nat)).
Defined.

(** ** C5: the engine profile of a live stream *)

(** The player with the ladder has the live profile: for a live stream
    whose URL ends in [.m3u8], in a browser that supports the engine, the attach
    builds the engine with the low-latency profile and the smaller back
    buffer, and the manifest-parsed signal calls [play()]. *)
Lemma named_live_attach (p : Props) :
  Js.endsWith (streamUrl p) ".m3u8" = true -> streamType p = live ->
  Named.log (Named.mount true p) =
    [HlsNew [("enableWorker", "true"); ("lowLatencyMode", "true");
             ("backBufferLength", "30")];
     HlsLoadSource (streamUrl p); HlsAttachMedia;
     HlsOn MANIFEST_PARSED; HlsOn ERROR] /\
  Named.hlsConfig live <> Named.hlsConfig movie /\
  Named.hlsConfig live <> Named.hlsConfig episode /\
  forall d,
    Named.log (Named.step (Named.Engine MANIFEST_PARSED d) (Named.mount true p)) =
    (Named.log (Named.mount true p) ++ [VideoPlay])%list.
Proof.
  intros He Ht.
  assert (Named.mount true p =
          Named.set_rendered (Some p)
            (Named.set_cleanup true
               (Named.set_hlsRef (Some (Named.engineOf p))
                  (Named.say (HlsOn ERROR)
                     (Named.say (HlsOn MANIFEST_PARSED)
                        (Named.say HlsAttachMedia
                           (Named.say (HlsLoadSource (streamUrl p))
                              (Named.say (HlsNew (Named.hlsConfig (streamType p)))
                                 (Named.set_videoRef true (Named.boot true p)))))))))) as E.
  { unfold Named.mount, Named.commit, Named.hlsInit, Named.destroyRef. simpl.
    rewrite (endsWith_nonempty _ He), He. reflexivity. }
  split; [|split; [|split]].
  - rewrite E, Ht. reflexivity.
  - discriminate.
  - discriminate.
  - intros d.
    assert (Named.hlsRef (Named.mount true p) = Some (Named.engineOf p)) as Hh
      by (rewrite E; reflexivity).
    assert (Named.videoRef (Named.mount true p) = true) as Hv
      by (rewrite E; reflexivity).
    rewrite Named.step_engine;
      [|apply Named.reachable_mount | rewrite Hh; discriminate].
    revert Hh Hv. generalize (Named.mount true p). intros x Hh Hv.
    unfold Named.dispatchEngine. rewrite Hh. simpl.
    unfold Named.onManifestParsed. rewrite Hv. reflexivity.
Qed.

(** C5 fails on the player of [CustomVideoPlayer.tsx]: its attach of a live
    [.m3u8] stream builds the engine without any configuration, the same
    as for a movie, and neither the attach nor the manifest-parsed signal
    calls [play()].  The sibling player, on the same input, builds the
    low-latency engine and plays on the signal. *)
Theorem live_profile_is_missing_in_default_export :
  (let w := mount true false liveHls in
   filter isEngineCall (log w) = [HlsNew []] /\
   filter isEngineCall (log (mount true false movieHls)) = [HlsNew []] /\
   filter isPlayCall (log w) = [] /\
   log (step (Engine MANIFEST_PARSED manifestParsed) w) = log w) /\
  (let w := Named.mount true liveHls in
   filter isEngineCall (Named.log w) =
     [HlsNew [("enableWorker", "true"); ("lowLatencyMode", "true");
              ("backBufferLength", "30")]] /\
   filter isEngineCall (Named.log (Named.mount true movieHls)) =
     [HlsNew [("enableWorker", "true"); ("lowLatencyMode", "false");
              ("backBufferLength", "60")]] /\
   Named.log (Named.step (Named.Engine MANIFEST_PARSED manifestParsed) w) =
     (Named.log w ++ [VideoPlay])%list).
Proof. vm_compute. repeat split. Qed.

(** ** C3: the seek of the arrow keys *)

(** C3 fails on a reachable state.  The metadata of a 100 second film has
    loaded and nothing else has happened, so the keyboard handler is still
    the one of the first render, whose [seek] closed over [duration = 0]:
    the right arrow asks for [seek(0 + 10)] and the element is put at 0, not
    at 10.  Once the film plays, that [seek] still holds [isPlaying = false]
    and does not call [play()]. *)
Theorem arrow_key_seeks_with_stale_duration :
  (let w := run [Metadata 100; Media loadedmetadata] (mount true false movieMp4) in
   duration (st w) = 100 /\ currentTime (st w) = 0 /\
   v_currentTime (video (step (KeyDown "ArrowRight") w)) = 0 /\
   currentTime (st (step (KeyDown "ArrowRight") w)) = 0 /\
   filter isSeekCall (log (step (KeyDown "ArrowRight") w)) =
     [VideoSetCurrentTime 0]) /\
  (let w := run [Metadata 100; Media loadedmetadata; Media play]
                (mount true false movieMp4) in
   isPlaying (st w) = true /\ duration (st w) = 100 /\
   filter isSeekCall (log (step (KeyDown "ArrowRight") w)) =
     [VideoSetCurrentTime 0] /\
   filter isPlayCall (log (step (KeyDown "ArrowRight") w)) = []).
Proof. vm_compute. repeat split. Qed.
